(** * The dependency-injection containers of pkg/utils/container

    A shallow embedding of [container.go] (DIContainer) and
    [simple_container.go] (SimpleContainer), with the parts of Go's
    [reflect] and [sync] packages the two files call.

    - Go values held in an [interface{}] are [value]s; pointers point into
      an explicit heap, so that a bean registered as [&T{...}] is shared
      between the registry and every field it is injected into.
    - Every method is a function in a state monad over the heap and the
      container, whose result is a return, a panic or a deadlock.
    - A [range] over a Go map visits the keys in an unspecified order: every
      method that ranges takes the order it visits as an argument. *)

From Stdlib Require Import ZArith.
From stdpp Require Import countable fin_maps gmap strings list.

Open Scope string_scope.

(** ** Outcomes of a call *)

Inductive outcome (S A : Type) : Type :=
  | Ret (a : A) (s : S)    (* the call returns [a] in state [s] *)
  | Panic (msg : string)   (* the goroutine panics *)
  | Deadlock.              (* the goroutine blocks for ever *)
Arguments Ret {S A} a s.
Arguments Panic {S A} msg.
Arguments Deadlock {S A}.

Definition M (S A : Type) : Type := S → outcome S A.

Definition ret {S A} (a : A) : M S A := λ s, Ret a s.
Definition bind {S A B} (m : M S A) (k : A → M S B) : M S B :=
  λ s, match m s with
       | Ret a s' => k a s'
       | Panic msg => Panic msg
       | Deadlock => Deadlock
       end.
Definition panic {S A} (msg : string) : M S A := λ _, Panic msg.
Definition gets {S A} (f : S → A) : M S A := λ s, Ret (f s) s.
Definition modify {S} (f : S → S) : M S unit := λ s, Ret tt (f s).

#[export] Instance M_ret {S} : MRet (M S) := λ A, ret.
#[export] Instance M_bind {S} : MBind (M S) := λ A B k m, bind m k.

(** ** sync.RWMutex, as one goroutine sees it

    The model follows a single goroutine, so whatever holds the mutex is
    that goroutine's own call stack: an acquisition that has to wait for a
    holder waits for ever. *)

Module sync.

Inductive RWMutex : Type :=
  | Unlocked
  | RLocked (n : nat)   (* [S n] read locks held *)
  | Locked.             (* the write lock held *)

#[export] Instance RWMutex_eq_dec : EqDecision RWMutex.
Proof. solve_decision. Defined.

(** [None]: the call blocks. *)
Definition Lock (m : RWMutex) : option RWMutex :=
  match m with Unlocked => Some Locked | _ => None end.

Definition RLock (m : RWMutex) : option RWMutex :=
  match m with
  | Unlocked => Some (RLocked 0)
  | RLocked n => Some (RLocked (S n))
  | Locked => None
  end.

(** [None]: the runtime aborts ("Unlock of unlocked RWMutex"). *)
Definition Unlock (m : RWMutex) : option RWMutex :=
  match m with Locked => Some Unlocked | _ => None end.

Definition RUnlock (m : RWMutex) : option RWMutex :=
  match m with
  | RLocked 0 => Some Unlocked
  | RLocked (S n) => Some (RLocked n)
  | _ => None
  end.

End sync.

(** A call on the mutex that a state [S] holds: acquiring blocks, and
    releasing a mutex that is not held aborts. *)
Definition acquire {S} (get : S → sync.RWMutex) (set : sync.RWMutex → S → S)
    (op : sync.RWMutex → option sync.RWMutex) : M S unit :=
  λ s, match op (get s) with
       | Some m => Ret tt (set m s)
       | None => Deadlock
       end.
Definition release {S} (get : S → sync.RWMutex) (set : sync.RWMutex → S → S)
    (op : sync.RWMutex → option sync.RWMutex) : M S unit :=
  λ s, match op (get s) with
       | Some m => Ret tt (set m s)
       | None => Panic "fatal error: sync: unlock of unlocked RWMutex"
       end.

(** [defer d] before a body that returns [a]: [d] runs on the way out. *)
Definition defer {S A} (d : M S unit) (body : M S A) : M S A :=
  a ← body; d ;; mret a.

(** ** reflect: types, values, the heap *)

Module reflect.

Inductive Kind : Type :=
  | Invalid | Bool | Int | String | Struct | Ptr | Interface.

#[export] Instance Kind_eq_dec : EqDecision Kind.
Proof. solve_decision. Defined.

(** A type descriptor. Methods are named by strings that stand for name
    and signature together. A struct type carries the methods declared on
    the value receiver and those declared on the pointer receiver. *)
Inductive rtype : Type :=
  | TBool
  | TInt
  | TString
  | TStruct (name : string) (vmethods pmethods : list string)
  | TInterface (name : string) (methods : list string)
  | TPtr (elem : rtype).

#[export] Instance rtype_eq_dec : EqDecision rtype.
Proof. solve_decision. Defined.

Fixpoint rtype_enc (t : rtype) : gen_tree (string + list string) :=
  match t with
  | TBool => GenNode 0 []
  | TInt => GenNode 1 []
  | TString => GenNode 2 []
  | TStruct n v p => GenNode 3 [GenLeaf (inl n); GenLeaf (inr v); GenLeaf (inr p)]
  | TInterface n m => GenNode 4 [GenLeaf (inl n); GenLeaf (inr m)]
  | TPtr e => GenNode 5 [rtype_enc e]
  end.

Fixpoint rtype_dec (g : gen_tree (string + list string)) : option rtype :=
  match g with
  | GenNode 0 [] => Some TBool
  | GenNode 1 [] => Some TInt
  | GenNode 2 [] => Some TString
  | GenNode 3 [GenLeaf (inl n); GenLeaf (inr v); GenLeaf (inr p)] => Some (TStruct n v p)
  | GenNode 4 [GenLeaf (inl n); GenLeaf (inr m)] => Some (TInterface n m)
  | GenNode 5 [g'] => TPtr <$> rtype_dec g'
  | _ => None
  end.

#[export] Instance rtype_countable : Countable rtype.
Proof.
  refine (inj_countable rtype_enc rtype_dec _).
  intros t. induction t as [| | | | |e IH]; simpl; try done. by rewrite IH.
Defined.

(** Type.Kind *)
Definition kind (t : rtype) : Kind :=
  match t with
  | TBool => Bool
  | TInt => Int
  | TString => String
  | TStruct _ _ _ => Struct
  | TInterface _ _ => Interface
  | TPtr _ => Ptr
  end.

(** Type.String *)
Fixpoint type_string (t : rtype) : string :=
  match t with
  | TBool => "bool"
  | TInt => "int"
  | TString => "string"
  | TStruct n _ _ => n
  | TInterface n _ => n
  | TPtr e => "*" ++ type_string e
  end.

Definition method_set (t : rtype) : list string :=
  match t with
  | TStruct _ v _ => v
  | TPtr (TStruct _ v p) => v ++ p
  | TInterface _ m => m
  | _ => []
  end.

(** The unexported [implements(T, V)] of package reflect: false when [T]
    is not an interface, else whether [V] has every method of [T]. *)
Definition implements (T V : rtype) : bool :=
  match T with
  | TInterface _ ms => forallb (λ m, bool_decide (m ∈ method_set V)) ms
  | _ => false
  end.

(** Type.Implements: panics on a target that is not an interface. *)
Definition Implements {S} (t u : rtype) : M S bool :=
  if decide (kind u = Interface) then mret (implements u t)
  else panic "reflect: non-interface type passed to Type.Implements".

(** Type.AssignableTo. All types of this universe but pointers are
    defined types, and two pointer types with identical underlying types
    are identical, so direct assignability is identity. *)
Definition AssignableTo (t u : rtype) : bool :=
  bool_decide (u = t) || implements u t.

Definition addr : Type := nat.

(** One field of a struct type: [inject] is the result of looking the key
    "inject" up in the field's tag ([None] when the key is absent);
    [exported] is whether the field's name is exported. *)
Record StructField : Type := mkField {
  field_name : string;
  exported : bool;
  inject : option string;
  field_type : rtype
}.

(** StructTag.Get: the value of the key, or "" when the key is absent. *)
Definition Tag_Get (f : StructField) : string := default "" (inject f).

#[local] Set Warnings "-register-all".

(** What an [interface{}] holds. A struct held by value is a copy of its
    own; a pointer is nil or an address of the heap. *)
Inductive value : Type :=
  | VNil
  | VBool (b : bool)
  | VInt (z : Z)
  | VString (s : string)
  | VStruct (t : rtype) (fields : list (StructField * value))
  | VPtr (elem : rtype) (p : option addr).

Abbreviation Heap := (gmap addr value).

(** reflect.TypeOf: [None] is the nil Type, for the nil interface. *)
Definition TypeOf (v : value) : option rtype :=
  match v with
  | VNil => None
  | VBool _ => Some TBool
  | VInt _ => Some TInt
  | VString _ => Some TString
  | VStruct t _ => Some t
  | VPtr e _ => Some (TPtr e)
  end.

(** fmt.Sprintf("%T", v) *)
Definition Sprintf_T (v : value) : string :=
  match TypeOf v with Some t => type_string t | None => "<nil>" end.

(** A reflect.Value: what it holds ([None] for the zero Value), and the
    heap cell it was reached through when it is addressable. *)
Record Value : Type := mkValue {
  holds : option value;
  cell : option addr
}.

Definition ValueOf (v : value) : Value :=
  match v with
  | VNil => mkValue None None
  | _ => mkValue (Some v) None
  end.

Definition Value_Kind (rv : Value) : Kind :=
  match holds rv with
  | None | Some VNil => Invalid
  | Some (VBool _) => Bool
  | Some (VInt _) => Int
  | Some (VString _) => String
  | Some (VStruct _ _) => Struct
  | Some (VPtr _ _) => Ptr
  end.

(** Value.Elem on a pointer: the pointee, addressable; the zero Value for
    a nil pointer. *)
Definition Value_Elem (h : Heap) (rv : Value) : Value :=
  match holds rv with
  | Some (VPtr _ (Some a)) => mkValue (h !! a) (Some a)
  | _ => mkValue None None
  end.

(** The fields of a struct Value, each with its declaration. *)
Definition Value_fields (rv : Value) : list (StructField * value) :=
  match holds rv with
  | Some (VStruct _ fs) => fs
  | _ => []
  end.

(** Value.CanSet of field [f] of [rv]: addressable and exported. *)
Definition Field_CanSet (rv : Value) (f : StructField) : bool :=
  bool_decide (is_Some (cell rv)) && exported f.

(** Value.Set on field [i] of the struct in heap cell [a]. *)
Definition set_field (a : addr) (i : nat) (x : value) (h : Heap) : Heap :=
  match h !! a with
  | Some (VStruct t fs) =>
      <[a := VStruct t (alter (λ fv, (fv.1, x)) i fs)]> h
  | _ => h
  end.

(** The value of field [i] of the struct in heap cell [a]. *)
Definition get_field (a : addr) (i : nat) (h : Heap) : option value :=
  match h !! a with
  | Some (VStruct _ fs) => snd <$> fs !! i
  | _ => None
  end.

(** Value.Type: panics on the zero Value. *)
Definition Value_Type {S} (rv : Value) : M S rtype :=
  match holds rv with
  | Some v =>
      match TypeOf v with
      | Some t => mret t
      | None => panic "reflect: call of reflect.Value.Type on zero Value"
      end
  | None => panic "reflect: call of reflect.Value.Type on zero Value"
  end.

(** Type.Elem: the element type of a pointer type; it panics on the
    types of every other kind of this universe. *)
Definition Type_Elem {S} (t : rtype) : M S rtype :=
  match t with
  | TPtr e => mret e
  | _ => panic ("reflect: Elem of invalid type " ++ type_string t)
  end.

(** [reflect.TypeOf(v).String()]: a method call on the nil Type panics. *)
Definition TypeOf_String {S} (v : value) : M S string :=
  match TypeOf v with
  | Some t => mret (type_string t)
  | None => panic "invalid memory address or nil pointer dereference"
  end.

(** [reflect.TypeOf(v).Elem()] *)
Definition TypeOf_Elem {S} (v : value) : M S rtype :=
  match TypeOf v with
  | Some t => Type_Elem t
  | None => panic "invalid memory address or nil pointer dereference"
  end.

End reflect.

(** Errors are their messages. *)
Definition error : Type := string.

(** ** simple_container.go *)

Module SimpleContainer.
Import reflect.

(** The receiver [c] (its [beans] and its [mu]) and the heap the beans
    point into. The calls to the logger and to the clock are left out:
    they do not touch this state. *)
Record State : Type := mkState {
  heap : Heap;
  beans : gmap string value;
  mu : sync.RWMutex
}.

Definition set_heap (f : Heap → Heap) (s : State) : State :=
  mkState (f (heap s)) (beans s) (mu s).
Definition set_beans (f : gmap string value → gmap string value) (s : State) : State :=
  mkState (heap s) (f (beans s)) (mu s).
Definition set_mu (m : sync.RWMutex) (s : State) : State :=
  mkState (heap s) (beans s) m.

Definition mu_Lock : M State unit := acquire mu set_mu sync.Lock.
Definition mu_RLock : M State unit := acquire mu set_mu sync.RLock.
Definition mu_Unlock : M State unit := release mu set_mu sync.Unlock.
Definition mu_RUnlock : M State unit := release mu set_mu sync.RUnlock.

(** NewContainer *)
Definition NewContainer (h : Heap) : State := mkState h ∅ sync.Unlocked.

(** ProvideWithName *)
Definition ProvideWithName (name : string) (bean : value) : M State (option error) :=
  mu_Lock ;;
  defer mu_Unlock (
    let name := if decide (name = "") then Sprintf_T bean else name in
    bs ← gets beans;
    match bs !! name with
    | Some _ => mret (Some ("bean with name '" ++ name ++ "' already exists"))
    | None => modify (set_beans <[name := bean]>) ;; mret None
    end).

(** Provides *)
Fixpoint Provides (bs : list value) : M State (option error) :=
  match bs with
  | [] => mret None
  | bean :: rest =>
      err ← ProvideWithName "" bean;
      match err with
      | Some e => mret (Some e)
      | None => Provides rest
      end
  end.

(** Get *)
Definition Get (name : string) : M State (value * bool) :=
  mu_RLock ;;
  defer mu_RUnlock (
    bs ← gets beans;
    match bs !! name with
    | Some bean => mret (bean, true)
    | None => mret (VNil, false)
    end).

(** The loop of GetByType over the names in the order the range visits
    them. Calling a method on the nil Type of a nil bean panics. *)
Fixpoint GetByType_range (beanType : rtype) (bs : gmap string value)
    (order : list string) : M State (value * bool) :=
  match order with
  | [] => mret (VNil, false)
  | name :: rest =>
      match bs !! name with
      | None => GetByType_range beanType bs rest
      | Some bean =>
          if decide (TypeOf bean = Some beanType) then mret (bean, true)
          else if decide (kind beanType = Interface) then
            match TypeOf bean with
            | None => panic "invalid memory address or nil pointer dereference"
            | Some t =>
                ok ← Implements t beanType;
                if ok : bool then mret (bean, true)
                else GetByType_range beanType bs rest
            end
          else GetByType_range beanType bs rest
      end
  end.

(** GetByType *)
Definition GetByType (order : list string) (beanType : rtype) : M State (value * bool) :=
  mu_RLock ;;
  defer mu_RUnlock (
    bs ← gets beans;
    GetByType_range beanType bs order).

(** field.Set(dependencyValue) on field [i] of [targetValue] *)
Definition Field_Set (targetValue : reflect.Value) (i : nat) (x : value) : M State unit :=
  match cell targetValue with
  | Some a => modify (set_heap (set_field a i x))
  | None => panic "reflect: reflect.Value.Set using unaddressable value"
  end.

(** The body of the branch taken when a dependency was found: assign it
    when its type is assignable to the field's. *)
Definition assign_found (targetValue : reflect.Value) (i : nat) (fieldType : StructField)
    (dependency : value) : M State unit :=
  t ← Value_Type (ValueOf dependency);
  if AssignableTo t (field_type fieldType)
  then Field_Set targetValue i dependency
  else mret tt.

(** The loop of injectDependencies over the fields from index [i] on. *)
Fixpoint inject_fields (order : list string) (targetValue : Value) (i : nat)
    (fields : list (StructField * value)) : M State (option error) :=
  match fields with
  | [] => mret None
  | (fieldType, _) :: rest =>
      let continue := inject_fields order targetValue (S i) rest in
      let injectTag := Tag_Get fieldType in
      if decide (injectTag = "") then continue
      else if negb (Field_CanSet targetValue fieldType) then continue
      else
        '(dependency, found) ←
          (if decide (injectTag = "") then GetByType order (field_type fieldType)
           else Get injectTag);
        '(dependency, found) ←
          (if negb found then Get (type_string (field_type fieldType))
           else mret (dependency, found));
        (if found : bool then assign_found targetValue i fieldType dependency
         else mret tt) ;;
        continue
  end.

(** injectDependencies *)
Definition injectDependencies (order : list string) (target : value) : M State (option error) :=
  h ← gets heap;
  let targetValue := ValueOf target in
  let targetValue :=
    if decide (Value_Kind targetValue = Ptr) then Value_Elem h targetValue
    else targetValue in
  if decide (Value_Kind targetValue ≠ Struct) then mret None
  else inject_fields order targetValue 0 (Value_fields targetValue).

(** The loop of Populate over the names in the order the range visits. *)
Fixpoint Populate_range (bs : gmap string value) (order : list string) (todo : list string)
    : M State (option error) :=
  match todo with
  | [] => mret None
  | name :: rest =>
      match bs !! name with
      | None => Populate_range bs order rest
      | Some bean =>
          err ← injectDependencies order bean;
          match err with
          | Some e =>
              mret (Some ("failed to inject dependencies for bean '" ++ name ++ "': " ++ e))
          | None => Populate_range bs order rest
          end
      end
  end.

(** Populate *)
Definition Populate (order : list string) : M State (option error) :=
  mu_Lock ;;
  defer mu_Unlock (
    bs ← gets beans;
    Populate_range bs order order).

(** HasBean *)
Definition HasBean (name : string) : M State bool :=
  mu_RLock ;;
  defer mu_RUnlock (
    bs ← gets beans;
    mret (bool_decide (is_Some (bs !! name)))).

(** Clear *)
Definition Clear : M State unit :=
  mu_Lock ;;
  defer mu_Unlock (modify (set_beans (λ _, ∅))).

(** Count *)
Definition Count : M State nat :=
  mu_RLock ;;
  defer mu_RUnlock (
    bs ← gets beans;
    mret (size bs)).

(** The loop of ListBeans over the names in the order the range visits. *)
Fixpoint ListBeans_range (bs : gmap string value) (order : list string)
    (names : list string) : list string :=
  match order with
  | [] => names
  | name :: rest =>
      match bs !! name with
      | None => ListBeans_range bs rest names
      | Some _ => ListBeans_range bs rest (names ++ [name])
      end
  end.

(** ListBeans *)
Definition ListBeans (order : list string) : M State (list string) :=
  mu_RLock ;;
  defer mu_RUnlock (
    bs ← gets beans;
    mret (ListBeans_range bs order [])).

(** Register: the error of ProvideWithName is dropped. *)
Definition Register (service : value) : M State unit :=
  name ← TypeOf_String service;
  ProvideWithName name service ;;
  mret tt.

(** RegisterAs *)
Definition RegisterAs (service as_ : value) : M State unit :=
  interfaceType ← TypeOf_Elem as_;
  let name := type_string interfaceType in
  ProvideWithName name service ;;
  mret tt.

(** Resolve *)
Definition Resolve (serviceType : value) : M State (value * option error) :=
  t ← TypeOf_Elem serviceType;
  let name := type_string t in
  '(service, exists_) ← Get name;
  if exists_ : bool then mret (service, None)
  else mret (VNil, Some ("service of type " ++ type_string t ++ " not found")).

(** MustResolve *)
Definition MustResolve (serviceType : value) : M State value :=
  '(service, err) ← Resolve serviceType;
  match err with
  | Some e => panic e
  | None => mret service
  end.

(** Has *)
Definition Has (serviceType : value) : M State bool :=
  t ← TypeOf_Elem serviceType;
  let name := type_string t in
  HasBean name.

End SimpleContainer.

(** ** container.go *)

Module DIContainer.
Import reflect.

Inductive Lifecycle : Type := Singleton | Prototype | Session | Request.

#[export] Instance Lifecycle_eq_dec : EqDecision Lifecycle.
Proof. solve_decision. Defined.

(** A factory is a Go closure [func() interface{}]: it computes a value
    and may allocate on the heap. *)
Definition factory : Type := Heap → value * Heap.

Record Bean : Type := mkBean {
  Name : string;
  Value : value;
  Type_ : option rtype;
  Lifecycle_ : Lifecycle;
  Factory : option factory;
  Tags : gmap string string
}.

(** The receiver [c] and the heap the beans point into. *)
Record State : Type := mkState {
  heap : Heap;
  beans : gmap string Bean;
  services : gmap (option rtype) value;
  mutex : sync.RWMutex
}.

Definition set_heap (f : Heap → Heap) (s : State) : State :=
  mkState (f (heap s)) (beans s) (services s) (mutex s).
Definition set_beans (f : gmap string Bean → gmap string Bean) (s : State) : State :=
  mkState (heap s) (f (beans s)) (services s) (mutex s).
Definition set_services (f : gmap (option rtype) value → gmap (option rtype) value)
    (s : State) : State :=
  mkState (heap s) (beans s) (f (services s)) (mutex s).
Definition set_mutex (m : sync.RWMutex) (s : State) : State :=
  mkState (heap s) (beans s) (services s) m.

Definition mutex_Lock : M State unit := acquire mutex set_mutex sync.Lock.
Definition mutex_RLock : M State unit := acquire mutex set_mutex sync.RLock.
Definition mutex_Unlock : M State unit := release mutex set_mutex sync.Unlock.
Definition mutex_RUnlock : M State unit := release mutex set_mutex sync.RUnlock.

(** Calling a factory. *)
Definition call_factory (f : factory) : M State value :=
  λ s, let '(v, h) := f (heap s) in Ret v (set_heap (λ _, h) s).

(** New *)
Definition New (h : Heap) : State := mkState h ∅ ∅ sync.Unlocked.

Definition already_exists (name : string) : error :=
  "bean with name '" ++ name ++ "' already exists".

(** Provide *)
Definition Provide (name : string) (bean : value) : M State (option error) :=
  mutex_Lock ;;
  defer mutex_Unlock (
    bs ← gets beans;
    match bs !! name with
    | Some _ => mret (Some (already_exists name))
    | None =>
        let beanType := TypeOf bean in
        modify (set_beans <[name := mkBean name bean beanType Singleton None ∅]>) ;;
        modify (set_services <[beanType := bean]>) ;;
        mret None
    end).

(** Get *)
Definition Get (name : string) : M State (value * bool) :=
  mutex_RLock ;;
  defer mutex_RUnlock (
    bs ← gets beans;
    match bs !! name with
    | None => mret (VNil, false)
    | Some bean =>
        match Lifecycle_ bean with
        | Singleton => mret (Value bean, true)
        | Prototype =>
            match Factory bean with
            | Some f => v ← call_factory f; mret (v, true)
            | None => mret (Value bean, true)
            end
        | _ => mret (Value bean, true)
        end
    end).

(** field.Set(dependencyValue) on field [i] of [targetValue] *)
Definition Field_Set (targetValue : reflect.Value) (i : nat) (x : value) : M State unit :=
  match cell targetValue with
  | Some a => modify (set_heap (set_field a i x))
  | None => panic "reflect: reflect.Value.Set using unaddressable value"
  end.

(** The body of the branch taken when a dependency was found: assign it
    when its type is assignable to the field's. *)
Definition assign_found (targetValue : reflect.Value) (i : nat) (fieldType : StructField)
    (dependency : value) : M State unit :=
  t ← Value_Type (ValueOf dependency);
  if AssignableTo t (field_type fieldType)
  then Field_Set targetValue i dependency
  else mret tt.

(** The loop of injectDependencies over the fields from index [i] on. *)
Fixpoint inject_fields (targetValue : reflect.Value) (i : nat)
    (fields : list (StructField * value)) : M State (option error) :=
  match fields with
  | [] => mret None
  | (fieldType, _) :: rest =>
      let continue := inject_fields targetValue (S i) rest in
      let injectTag := Tag_Get fieldType in
      if decide (injectTag = "") then continue
      else if negb (Field_CanSet targetValue fieldType) then continue
      else
        '(dependency, exists_) ← Get injectTag;
        (if exists_ : bool then assign_found targetValue i fieldType dependency
         else mret tt) ;;
        continue
  end.

(** injectDependencies *)
Definition injectDependencies (target : value) : M State (option error) :=
  h ← gets heap;
  let targetValue := ValueOf target in
  let targetValue :=
    if decide (Value_Kind targetValue = Ptr) then Value_Elem h targetValue
    else targetValue in
  if decide (Value_Kind targetValue ≠ Struct) then mret None
  else inject_fields targetValue 0 (Value_fields targetValue).

(** The loop of Populate over the names in the order the range visits. *)
Fixpoint Populate_range (bs : gmap string Bean) (todo : list string)
    : M State (option error) :=
  match todo with
  | [] => mret None
  | name :: rest =>
      match bs !! name with
      | None => Populate_range bs rest
      | Some bean =>
          err ← injectDependencies (Value bean);
          match err with
          | Some e =>
              mret (Some ("failed to inject dependencies for bean '"
                          ++ Name bean ++ "': " ++ e))
          | None => Populate_range bs rest
          end
      end
  end.

(** Populate *)
Definition Populate (order : list string) : M State (option error) :=
  mutex_Lock ;;
  defer mutex_Unlock (
    bs ← gets beans;
    Populate_range bs order).

(** Close *)
Definition Close : M State (option error) :=
  mutex_Lock ;;
  defer mutex_Unlock (
    modify (set_beans (λ _, ∅)) ;;
    modify (set_services (λ _, ∅)) ;;
    mret None).

(** RegisterWithLifecycle *)
Definition RegisterWithLifecycle (name : string) (bean : value) (lifecycle : Lifecycle)
    : M State (option error) :=
  mutex_Lock ;;
  defer mutex_Unlock (
    bs ← gets beans;
    match bs !! name with
    | Some _ => mret (Some (already_exists name))
    | None =>
        let beanType := TypeOf bean in
        modify (set_beans <[name := mkBean name bean beanType lifecycle None ∅]>) ;;
        mret None
    end).

(** RegisterFactory; the argument is [None] for a nil func, whose call
    panics. *)
Definition RegisterFactory (name : string) (f : option factory) (lifecycle : Lifecycle)
    : M State (option error) :=
  mutex_Lock ;;
  defer mutex_Unlock (
    bs ← gets beans;
    match bs !! name with
    | Some _ => mret (Some (already_exists name))
    | None =>
        instance ← match f with
                   | Some g => call_factory g
                   | None => panic "invalid memory address or nil pointer dereference"
                   end;
        let beanType := TypeOf instance in
        modify (set_beans <[name := mkBean name instance beanType lifecycle f ∅]>) ;;
        mret None
    end).

(** The loop of GetBeansByType. Calling a method on the nil Type of a nil
    bean panics. *)
Fixpoint GetBeansByType_range (beanType : rtype) (bs : gmap string Bean)
    (order : list string) (result : list value) : M State (list value) :=
  match order with
  | [] => mret result
  | name :: rest =>
      match bs !! name with
      | None => GetBeansByType_range beanType bs rest result
      | Some bean =>
          if decide (Type_ bean = Some beanType)
          then GetBeansByType_range beanType bs rest (result ++ [Value bean])
          else
            match Type_ bean with
            | None => panic "invalid memory address or nil pointer dereference"
            | Some t =>
                ok ← Implements t beanType;
                if ok : bool
                then GetBeansByType_range beanType bs rest (result ++ [Value bean])
                else GetBeansByType_range beanType bs rest result
            end
      end
  end.

(** GetBeansByType *)
Definition GetBeansByType (order : list string) (beanType : rtype) : M State (list value) :=
  mutex_RLock ;;
  defer mutex_RUnlock (
    bs ← gets beans;
    GetBeansByType_range beanType bs order []).

(** HasBean *)
Definition HasBean (name : string) : M State bool :=
  mutex_RLock ;;
  defer mutex_RUnlock (
    bs ← gets beans;
    mret (bool_decide (is_Some (bs !! name)))).

(** Count *)
Definition Count : M State nat :=
  mutex_RLock ;;
  defer mutex_RUnlock (
    bs ← gets beans;
    mret (size bs)).

(** The loop of GetBeanNames over the names in the order the range
    visits. *)
Fixpoint GetBeanNames_range (bs : gmap string Bean) (order : list string)
    (names : list string) : list string :=
  match order with
  | [] => names
  | name :: rest =>
      match bs !! name with
      | None => GetBeanNames_range bs rest names
      | Some _ => GetBeanNames_range bs rest (names ++ [name])
      end
  end.

(** GetBeanNames *)
Definition GetBeanNames (order : list string) : M State (list string) :=
  mutex_RLock ;;
  defer mutex_RUnlock (
    bs ← gets beans;
    mret (GetBeanNames_range bs order [])).

(** Register: the error of Provide is dropped. *)
Definition Register (service : value) : M State unit :=
  name ← TypeOf_String service;
  Provide name service ;;
  mret tt.

(** RegisterAs *)
Definition RegisterAs (service as_ : value) : M State unit :=
  interfaceType ← TypeOf_Elem as_;
  let name := type_string interfaceType in
  Provide name service ;;
  mret tt.

(** Resolve *)
Definition Resolve (serviceType : value) : M State (value * option error) :=
  t ← TypeOf_Elem serviceType;
  let name := type_string t in
  '(service, exists_) ← Get name;
  if exists_ : bool then mret (service, None)
  else mret (VNil, Some ("service of type " ++ type_string t ++ " not found")).

(** MustResolve *)
Definition MustResolve (serviceType : value) : M State value :=
  '(service, err) ← Resolve serviceType;
  match err with
  | Some e => panic e
  | None => mret service
  end.

(** Has *)
Definition Has (serviceType : value) : M State bool :=
  t ← TypeOf_Elem serviceType;
  let name := type_string t in
  HasBean name.

(** Clear *)
Definition Clear : M State unit :=
  Close ;;
  mret tt.

End DIContainer.

(** The order in which a [range] visits a map: its keys, each once. *)
Definition range_order {V} (m : gmap string V) (order : list string) : Prop :=
  NoDup order ∧ list_to_set order = dom m.

(** ** Vocabulary of the properties *)

Section vocabulary.
Import reflect.

(** What a lookup by name in a map of beans returns. *)
Definition lookup_result (bs : gmap string value) (name : string) : value * bool :=
  match bs !! name with
  | Some bean => (bean, true)
  | None => (VNil, false)
  end.

(** A field the wiring loop goes on to resolve: its tag value is not
    empty and it can be set. *)
Definition injectable (rv : Value) (f : StructField) : bool :=
  negb (bool_decide (Tag_Get f = "")) && Field_CanSet rv f.

(** The Value whose fields injectDependencies walks. *)
Definition target_Value (h : Heap) (target : value) : Value :=
  if decide (Value_Kind (ValueOf target) = Ptr) then Value_Elem h (ValueOf target)
  else ValueOf target.

(** Whether the wiring pass for [target] reaches a lookup at all. *)
Definition wants_injection (h : Heap) (target : value) : bool :=
  bool_decide (Value_Kind (target_Value h target) = Struct)
  && existsb (λ fv, injectable (target_Value h target) fv.1)
       (Value_fields (target_Value h target)).

(** Heap [h'] keeps the struct of cell [a] as it is in [h], declarations
    and fields, but for (possibly) the value of field [k]. *)
Definition cell_kept (a : addr) (k : nat) (h h' : Heap) : Prop :=
  ∀ t fs, h !! a = Some (VStruct t fs) →
    ∃ fs', h' !! a = Some (VStruct t fs') ∧ fs'.*1 = fs.*1
           ∧ ∀ j, j ≠ k → fs' !! j = fs !! j.

(** Every factory of the registry only adds cells to the heap. *)
Definition factories_extend (bs : gmap string DIContainer.Bean) : Prop :=
  ∀ n b f, bs !! n = Some b → DIContainer.Factory b = Some f → ∀ h, h ⊆ (f h).2.

(** Get returns the stored value of the bean: it is not a prototype with
    a factory. *)
Definition returns_stored (b : DIContainer.Bean) : Prop :=
  DIContainer.Lifecycle_ b = DIContainer.Prototype → DIContainer.Factory b = None.

(** No stored value and no factory product of the registry is nil. *)
Definition never_nil (bs : gmap string DIContainer.Bean) : Prop :=
  ∀ n b, bs !! n = Some b →
    DIContainer.Value b ≠ VNil
    ∧ ∀ f, DIContainer.Factory b = Some f → ∀ h, (f h).1 ≠ VNil.

End vocabulary.

(** ** Vocabulary of the registry properties *)

(** [k] successive calls of [m], with their results. *)
Fixpoint times {S A} (k : nat) (m : M S A) : M S (list A) :=
  match k with
  | 0 => mret []
  | S k' => a ← m; rest ← times k' m; mret (a :: rest)
  end.

Section factories.
Import reflect.

(** A factory that constructs: each call returns a pointer to a cell
    that was not in the heap before. *)
Definition allocates (f : DIContainer.factory) : Prop :=
  ∀ h, ∃ t a, (f h).1 = VPtr t (Some a) ∧ h !! a = None ∧ is_Some ((f h).2 !! a).

(** The factory [func() interface{} { return &T{...} }]. *)
Definition new_struct (t : rtype) (fs : list (StructField * value)) : DIContainer.factory :=
  λ h, let a := fresh (dom h) in (VPtr t (Some a), <[a := VStruct t fs]> h).

End factories.

(** ** Example registries *)

Module Examples.
Import reflect.

(** After [ProvideWithName("", 1)] and then [ProvideWithName("", "x")]
    on a new SimpleContainer. *)
Definition c4_s1 : SimpleContainer.State :=
  SimpleContainer.mkState ∅ {["int" := VInt 1]} sync.Unlocked.
Definition c4_s2 : SimpleContainer.State :=
  SimpleContainer.mkState ∅ (<["string" := VString "x"]> {["int" := VInt 1]}) sync.Unlocked.

(** After [Provide("A", 1)] on a new container of either kind. *)
Definition di_A : DIContainer.State :=
  DIContainer.mkState ∅
    {["A" := DIContainer.mkBean "A" (VInt 1) (Some TInt) DIContainer.Singleton None ∅]}
    {[Some TInt := VInt 1]} sync.Unlocked.
Definition simple_A : SimpleContainer.State :=
  SimpleContainer.mkState ∅ {["A" := VInt 1]} sync.Unlocked.

(** After a further registration of the value 2 under "B". *)
Definition di_A_B : DIContainer.State :=
  DIContainer.mkState ∅
    (<["B" := DIContainer.mkBean "B" (VInt 2) (Some TInt) DIContainer.Singleton None ∅]>
       (DIContainer.beans di_A))
    {[Some TInt := VInt 2]} sync.Unlocked.
Definition simple_A_B : SimpleContainer.State :=
  SimpleContainer.mkState ∅ (<["B" := VInt 2]> {["A" := VInt 1]}) sync.Unlocked.

End Examples.

Module PrototypeExamples.
Import reflect DIContainer.

Definition Widget : rtype := TStruct "Widget" [] [].
Definition new_Widget : factory := new_struct Widget [].

(** After [RegisterFactory("p", newWidget, Prototype)] on a new
    container: the instance made at registration is in cell 0. *)
Definition di_proto : State :=
  mkState {[0 := VStruct Widget []]}
    {["p" := mkBean "p" (VPtr Widget (Some 0)) (Some (TPtr Widget)) Prototype
               (Some new_Widget) ∅]}
    ∅ sync.Unlocked.

(** After [RegisterWithLifecycle("q", 7, Prototype)] on a new container. *)
Definition di_plain : State :=
  mkState ∅ {["q" := mkBean "q" (VInt 7) (Some TInt) Prototype None ∅]} ∅ sync.Unlocked.

End PrototypeExamples.

(** ** Vocabulary of the type queries *)

Section type_queries.
Import reflect.

(** A bean matches the target of a type query. *)
Definition matches (beanType : rtype) (b : DIContainer.Bean) : bool :=
  match DIContainer.Type_ b with
  | Some t => bool_decide (t = beanType) || implements beanType t
  | None => false
  end.

(** No bean of the registry is the nil interface. *)
Definition typed (bs : gmap string DIContainer.Bean) : Prop :=
  ∀ name b, bs !! name = Some b → is_Some (DIContainer.Type_ b).

(** A bean of a SimpleContainer matches the target of GetByType. *)
Definition smatches (beanType : rtype) (bean : value) : bool :=
  match TypeOf bean with
  | Some t => bool_decide (t = beanType) || implements beanType t
  | None => false
  end.

End type_queries.

(** Two datastores registered under the names "memory" and "postgres". *)
Module TypeExamples.
Import reflect DIContainer.
Definition DatastoreInterface : rtype :=
  TInterface "datastore.DatastoreInterface" ["Close"; "HealthCheck"].
Definition Memory : rtype := TStruct "memory.Memory" [] ["Close"; "HealthCheck"].
Definition PostgreSQL : rtype :=
  TStruct "postgresql.PostgreSQL" [] ["Close"; "HealthCheck"; "Migrate"].

Definition stores_heap : Heap :=
  {[0 := VStruct Memory []; 1 := VStruct PostgreSQL []]}.
Definition di_memory : State :=
  mkState stores_heap
    {["memory" := mkBean "memory" (VPtr Memory (Some 0)) (Some (TPtr Memory)) Singleton None ∅]}
    {[Some (TPtr Memory) := VPtr Memory (Some 0)]} sync.Unlocked.
Definition di_stores : State :=
  mkState stores_heap
    (<["postgres" := mkBean "postgres" (VPtr PostgreSQL (Some 1)) (Some (TPtr PostgreSQL))
                       Singleton None ∅]> (beans di_memory))
    (<[Some (TPtr PostgreSQL) := VPtr PostgreSQL (Some 1)]> (services di_memory))
    sync.Unlocked.
Definition simple_stores : SimpleContainer.State :=
  SimpleContainer.mkState stores_heap
    {["memory" := VPtr Memory (Some 0); "postgres" := VPtr PostgreSQL (Some 1)]}
    sync.Unlocked.
End TypeExamples.

(** ** Example registries for the wiring pass *)

Module WiringExamples.
Import reflect.

Definition Config : rtype := TStruct "Config" [] [].
Definition Service : rtype := TStruct "Service" [] [].
Definition Port : StructField := mkField "Port" true None TInt.

(** [Config{Port: 8080}] and its zero value. *)
Definition config_8080 : value := VStruct Config [(Port, VInt 8080)].
Definition config_zero : value := VStruct Config [(Port, VInt 0)].

(** [type Service struct { Cfg Config `inject:"config"` }], registered
    by value together with the config. *)
Definition Cfg_by_value : StructField := mkField "Cfg" true (Some "config") Config.
Definition service_by_value : value := VStruct Service [(Cfg_by_value, config_zero)].
Definition simple_by_value : SimpleContainer.State :=
  SimpleContainer.mkState ∅ {["config" := config_8080; "service" := service_by_value]}
    sync.Unlocked.
Definition di_by_value : DIContainer.State :=
  DIContainer.mkState ∅
    {["config" := DIContainer.mkBean "config" config_8080 (Some Config)
                    DIContainer.Singleton None ∅;
      "service" := DIContainer.mkBean "service" service_by_value (Some Service)
                     DIContainer.Singleton None ∅]}
    {[Some Config := config_8080; Some Service := service_by_value]} sync.Unlocked.

(** [type Service struct { Cfg *Config `inject:"config"` }], registered as
    [&Service{}] together with [&Config{Port: 8080}]: the config is in
    cell 0, the service in cell 1. *)
Definition Cfg : StructField := mkField "Cfg" true (Some "config") (TPtr Config).
Definition wired_heap : Heap :=
  {[0 := config_8080; 1 := VStruct Service [(Cfg, VPtr Config None)]]}.
Definition simple_wired : SimpleContainer.State :=
  SimpleContainer.mkState wired_heap
    {["config" := VPtr Config (Some 0); "service" := VPtr Service (Some 1)]}
    sync.Unlocked.
Definition di_wired : DIContainer.State :=
  DIContainer.mkState wired_heap
    {["config" := DIContainer.mkBean "config" (VPtr Config (Some 0)) (Some (TPtr Config))
                    DIContainer.Singleton None ∅;
      "service" := DIContainer.mkBean "service" (VPtr Service (Some 1)) (Some (TPtr Service))
                     DIContainer.Singleton None ∅]}
    {[Some (TPtr Config) := VPtr Config (Some 0);
      Some (TPtr Service) := VPtr Service (Some 1)]} sync.Unlocked.

(** The same service alone: nothing is registered as "config", nor under
    the name "*Config". *)
Definition simple_missing : SimpleContainer.State :=
  SimpleContainer.mkState wired_heap {["service" := VPtr Service (Some 1)]} sync.Unlocked.
Definition di_missing : DIContainer.State :=
  DIContainer.mkState wired_heap
    {["service" := DIContainer.mkBean "service" (VPtr Service (Some 1)) (Some (TPtr Service))
                     DIContainer.Singleton None ∅]}
    {[Some (TPtr Service) := VPtr Service (Some 1)]} sync.Unlocked.

(** The API bean of pkg/api/application.go,
    [type application struct {
       ApplicationService service.ApplicationServiceInterface `inject:""`
       handler *handler.ApplicationHandler }],
    registered as [&application{}] (cell 1) together with a service that
    implements the interface, [&ApplicationService{}] (cell 0), both by
    Provides, that is under the names of their types. *)
Definition ApplicationServiceInterface : rtype :=
  TInterface "service.ApplicationServiceInterface" ["CreateApplication"; "GetApplication"].
Definition ApplicationService : rtype :=
  TStruct "service.ApplicationService" [] ["CreateApplication"; "GetApplication"].
Definition ApplicationHandler : rtype := TStruct "handler.ApplicationHandler" [] [].
Definition application : rtype := TStruct "api.application" [] [].
Definition ApplicationService_field : StructField :=
  mkField "ApplicationService" true (Some "") ApplicationServiceInterface.
Definition handler_field : StructField :=
  mkField "handler" false None (TPtr ApplicationHandler).
Definition datastore_field : StructField :=
  mkField "datastore" false None (TInterface "datastore.DatastoreInterface" ["Close"]).
Definition api_heap : Heap :=
  {[0 := VStruct ApplicationService [(datastore_field, VNil)];
    1 := VStruct application
           [(ApplicationService_field, VNil); (handler_field, VPtr ApplicationHandler None)]]}.
Definition simple_api : SimpleContainer.State :=
  SimpleContainer.mkState api_heap
    {["*api.application" := VPtr application (Some 1);
      "*service.ApplicationService" := VPtr ApplicationService (Some 0)]}
    sync.Unlocked.
Definition di_api : DIContainer.State :=
  DIContainer.mkState api_heap
    {["*api.application" :=
        DIContainer.mkBean "*api.application" (VPtr application (Some 1))
          (Some (TPtr application)) DIContainer.Singleton None ∅;
      "*service.ApplicationService" :=
        DIContainer.mkBean "*service.ApplicationService" (VPtr ApplicationService (Some 0))
          (Some (TPtr ApplicationService)) DIContainer.Singleton None ∅]}
    {[Some (TPtr application) := VPtr application (Some 1);
      Some (TPtr ApplicationService) := VPtr ApplicationService (Some 0)]} sync.Unlocked.

(** The wiring pass for the service of [simple_wired], run with the lock
    free, and what it leaves: the field holds the registered pointer. *)
Definition simple_wired_after : SimpleContainer.State :=
  SimpleContainer.set_heap (set_field 1 0 (VPtr Config (Some 0))) simple_wired.
Definition di_wired_after : DIContainer.State :=
  DIContainer.set_heap (set_field 1 0 (VPtr Config (Some 0))) di_wired.

End WiringExamples.

(** ** Sequences of calls *)

(** The state a call leaves when it returns. *)
Definition state_after {S A} (r : outcome S A) : option S :=
  match r with
  | Ret _ s => Some s
  | _ => None
  end.

(** The calls on a SimpleContainer, but for Clear. *)
Module SimpleCalls.
Import reflect SimpleContainer.

Inductive call : Type :=
  | CallProvideWithName (name : string) (bean : value)
  | CallGet (name : string)
  | CallGetByType (order : list string) (beanType : rtype)
  | CallPopulate (order : list string)
  | CallHasBean (name : string)
  | CallCount.

Definition after (c : call) (s : State) : option State :=
  match c with
  | CallProvideWithName name bean => state_after (ProvideWithName name bean s)
  | CallGet name => state_after (Get name s)
  | CallGetByType order beanType => state_after (GetByType order beanType s)
  | CallPopulate order => state_after (Populate order s)
  | CallHasBean name => state_after (HasBean name s)
  | CallCount => state_after (Count s)
  end.

(** The state after a sequence of calls that all return. *)
Fixpoint after_all (cs : list call) (s : State) : option State :=
  match cs with
  | [] => Some s
  | c :: rest =>
      match after c s with
      | Some s' => after_all rest s'
      | None => None
      end
  end.

End SimpleCalls.

(** The calls on a DIContainer, but for Close and Clear. *)
Module DICalls.
Import reflect DIContainer.

Inductive call : Type :=
  | CallProvide (name : string) (bean : value)
  | CallRegisterWithLifecycle (name : string) (bean : value) (lifecycle : Lifecycle)
  | CallRegisterFactory (name : string) (f : option factory) (lifecycle : Lifecycle)
  | CallGet (name : string)
  | CallGetBeansByType (order : list string) (beanType : rtype)
  | CallPopulate (order : list string)
  | CallHasBean (name : string)
  | CallCount.

Definition after (c : call) (s : State) : option State :=
  match c with
  | CallProvide name bean => state_after (Provide name bean s)
  | CallRegisterWithLifecycle name bean lc => state_after (RegisterWithLifecycle name bean lc s)
  | CallRegisterFactory name f lc => state_after (RegisterFactory name f lc s)
  | CallGet name => state_after (Get name s)
  | CallGetBeansByType order beanType => state_after (GetBeansByType order beanType s)
  | CallPopulate order => state_after (Populate order s)
  | CallHasBean name => state_after (HasBean name s)
  | CallCount => state_after (Count s)
  end.

Fixpoint after_all (cs : list call) (s : State) : option State :=
  match cs with
  | [] => Some s
  | c :: rest =>
      match after c s with
      | Some s' => after_all rest s'
      | None => None
      end
  end.

End DICalls.

(** ** Vocabulary of the wiring pass *)

Section wiring_vocabulary.
Import reflect.

(** What the wiring loop of SimpleContainer finds for a field marked with
    a name: the bean of that name, else the bean registered under the
    name of the field's type. *)
Definition dependency (bs : gmap string value) (fd : StructField) : option value :=
  match bs !! Tag_Get fd with
  | Some B => Some B
  | None => bs !! type_string (field_type fd)
  end.

(** What the loop of DIContainer finds: the stored value of the bean of
    that name. *)
Definition DI_dependency (bs : gmap string DIContainer.Bean) (fd : StructField)
    : option value :=
  DIContainer.Value <$> bs !! Tag_Get fd.

(** A field of [rv] and the value it holds once the loop is over, when
    [found] is what the lookups give: the found value when the field is
    marked, can be set, and the type of the value is assignable to the
    field's; else the value it held. *)
Definition wired (found : StructField → option value) (rv : Value)
    (fv : StructField * value) : StructField * value :=
  (fv.1,
   if injectable rv fv.1 then
     match found fv.1 with
     | Some B =>
         match TypeOf B with
         | Some tB => if AssignableTo tB (field_type fv.1) then B else fv.2
         | None => fv.2
         end
     | None => fv.2
     end
   else fv.2).

(** The loop resolves the field, and what it finds is the nil interface. *)
Definition finds_nil (found : StructField → option value) (rv : Value)
    (fv : StructField * value) : bool :=
  injectable rv fv.1
  && match found fv.1 with Some VNil => true | _ => false end.

End wiring_vocabulary.

(** ** Vocabulary of Provides *)

Section provides_vocabulary.
Import reflect.

(** The registry after the beans [vs] were added one by one, each under
    the name of its type. *)
Definition provided (bs : gmap string value) (vs : list value) : gmap string value :=
  foldl (λ m v, <[Sprintf_T v := v]> m) bs vs.

End provides_vocabulary.

(** ** The methods of the containers *)

(** Every method of SimpleContainer, with its arguments. *)
Module SimpleMethods.
Import reflect SimpleContainer.

Inductive method : Type :=
  | MProvides (beans : list value)
  | MProvideWithName (name : string) (bean : value)
  | MGet (name : string)
  | MGetByType (order : list string) (beanType : rtype)
  | MPopulate (order : list string)
  | MListBeans (order : list string)
  | MHasBean (name : string)
  | MClear
  | MCount
  | MRegister (service : value)
  | MRegisterAs (service as_ : value)
  | MResolve (serviceType : value)
  | MMustResolve (serviceType : value)
  | MHas (serviceType : value).

(** The state a call that returns leaves. *)
Definition invoke (m : method) (s : State) : option State :=
  match m with
  | MProvides bs => state_after (Provides bs s)
  | MProvideWithName name bean => state_after (ProvideWithName name bean s)
  | MGet name => state_after (Get name s)
  | MGetByType order beanType => state_after (GetByType order beanType s)
  | MPopulate order => state_after (Populate order s)
  | MListBeans order => state_after (ListBeans order s)
  | MHasBean name => state_after (HasBean name s)
  | MClear => state_after (Clear s)
  | MCount => state_after (Count s)
  | MRegister service => state_after (Register service s)
  | MRegisterAs service as_ => state_after (RegisterAs service as_ s)
  | MResolve serviceType => state_after (Resolve serviceType s)
  | MMustResolve serviceType => state_after (MustResolve serviceType s)
  | MHas serviceType => state_after (Has serviceType s)
  end.

Fixpoint invoke_all (ms : list method) (s : State) : option State :=
  match ms with
  | [] => Some s
  | m :: rest =>
      match invoke m s with
      | Some s' => invoke_all rest s'
      | None => None
      end
  end.

End SimpleMethods.

(** Every method of DIContainer, with its arguments. *)
Module DIMethods.
Import reflect DIContainer.

Inductive method : Type :=
  | MProvide (name : string) (bean : value)
  | MGet (name : string)
  | MPopulate (order : list string)
  | MClose
  | MRegisterWithLifecycle (name : string) (bean : value) (lifecycle : Lifecycle)
  | MRegisterFactory (name : string) (f : option factory) (lifecycle : Lifecycle)
  | MGetBeansByType (order : list string) (beanType : rtype)
  | MGetBeanNames (order : list string)
  | MHasBean (name : string)
  | MRegister (service : value)
  | MRegisterAs (service as_ : value)
  | MResolve (serviceType : value)
  | MMustResolve (serviceType : value)
  | MHas (serviceType : value)
  | MClear
  | MCount.

Definition invoke (m : method) (s : State) : option State :=
  match m with
  | MProvide name bean => state_after (Provide name bean s)
  | MGet name => state_after (Get name s)
  | MPopulate order => state_after (Populate order s)
  | MClose => state_after (Close s)
  | MRegisterWithLifecycle name bean lc => state_after (RegisterWithLifecycle name bean lc s)
  | MRegisterFactory name f lc => state_after (RegisterFactory name f lc s)
  | MGetBeansByType order beanType => state_after (GetBeansByType order beanType s)
  | MGetBeanNames order => state_after (GetBeanNames order s)
  | MHasBean name => state_after (HasBean name s)
  | MRegister service => state_after (Register service s)
  | MRegisterAs service as_ => state_after (RegisterAs service as_ s)
  | MResolve serviceType => state_after (Resolve serviceType s)
  | MMustResolve serviceType => state_after (MustResolve serviceType s)
  | MHas serviceType => state_after (Has serviceType s)
  | MClear => state_after (Clear s)
  | MCount => state_after (Count s)
  end.

Fixpoint invoke_all (ms : list method) (s : State) : option State :=
  match ms with
  | [] => Some s
  | m :: rest =>
      match invoke m s with
      | Some s' => invoke_all rest s'
      | None => None
      end
  end.

(** What the registry of a DIContainer keeps: a bean is filed under its
    own name, its type is the type of its value, and it has no tags; an
    entry of [services] is the value of a registered bean, under the type
    of that value. *)
Definition registry_ok (s : State) : Prop :=
  (∀ n b, beans s !! n = Some b →
     Name b = n ∧ Type_ b = TypeOf (Value b) ∧ Tags b = ∅)
  ∧ (∀ t v, services s !! t = Some v →
       TypeOf v = t ∧ ∃ n b, beans s !! n = Some b ∧ Value b = v).

End DIMethods.

Section registration_vocabulary.
Import reflect.

(** A registration that returns has found the lock free, and either the
    name taken, and then it changed nothing, or the name free, and then
    it filed one bean under it. *)
Definition files_one (s s' : DIContainer.State) (n : string) : Prop :=
  DIContainer.mutex s = sync.Unlocked
  ∧ (s' = s
     ∨ DIContainer.beans s !! n = None
       ∧ ∃ b, DIContainer.Name b = n
              ∧ DIContainer.Type_ b = TypeOf (DIContainer.Value b)
              ∧ DIContainer.Tags b = ∅
              ∧ DIContainer.beans s' = <[n := b]> (DIContainer.beans s)
              ∧ DIContainer.mutex s' = sync.Unlocked
              ∧ (DIContainer.services s' = DIContainer.services s
                 ∨ DIContainer.services s'
                   = <[TypeOf (DIContainer.Value b) := DIContainer.Value b]>
                       (DIContainer.services s))).

End registration_vocabulary.

(** ** Further example registries *)

Module LookupExamples.
Import reflect WiringExamples.

(** The service of [simple_wired], whose field [Cfg] is marked "config",
    with the config registered by Provides, that is under the name of
    its type, and nothing under "config". *)
Definition simple_by_type_name : SimpleContainer.State :=
  SimpleContainer.mkState wired_heap
    {["*Config" := VPtr Config (Some 0); "service" := VPtr Service (Some 1)]}
    sync.Unlocked.
Definition di_by_type_name : DIContainer.State :=
  DIContainer.mkState wired_heap
    {["*Config" := DIContainer.mkBean "*Config" (VPtr Config (Some 0)) (Some (TPtr Config))
                     DIContainer.Singleton None ∅;
      "service" := DIContainer.mkBean "service" (VPtr Service (Some 1)) (Some (TPtr Service))
                     DIContainer.Singleton None ∅]}
    {[Some (TPtr Config) := VPtr Config (Some 0);
      Some (TPtr Service) := VPtr Service (Some 1)]} sync.Unlocked.

(** The same with the number 1 registered under "config". *)
Definition simple_wrong_type : SimpleContainer.State :=
  SimpleContainer.mkState wired_heap
    {["config" := VInt 1; "*Config" := VPtr Config (Some 0);
      "service" := VPtr Service (Some 1)]}
    sync.Unlocked.

(** The same with the nil interface registered under "config". *)
Definition simple_nil_config : SimpleContainer.State :=
  SimpleContainer.mkState wired_heap
    {["config" := VNil; "service" := VPtr Service (Some 1)]} sync.Unlocked.
Definition di_nil_config : DIContainer.State :=
  DIContainer.mkState wired_heap
    {["config" := DIContainer.mkBean "config" VNil None DIContainer.Singleton None ∅;
      "service" := DIContainer.mkBean "service" (VPtr Service (Some 1)) (Some (TPtr Service))
                     DIContainer.Singleton None ∅]}
    {[None := VNil; Some (TPtr Service) := VPtr Service (Some 1)]} sync.Unlocked.

End LookupExamples.

(** ** Vocabulary of the [services] map *)

Section services_vocabulary.
Import DIContainer.

(** Two states of a DIContainer that differ at most in [services]. *)
Definition same_but_services (s1 s2 : State) : Prop :=
  heap s1 = heap s2 ∧ beans s1 = beans s2 ∧ mutex s1 = mutex s2.

(** Two outcomes that are the same but for [services]. *)
Definition agree {A} (r1 r2 : outcome State A) : Prop :=
  match r1, r2 with
  | Ret a1 s1, Ret a2 s2 => a1 = a2 ∧ same_but_services s1 s2
  | Panic m1, Panic m2 => m1 = m2
  | Deadlock, Deadlock => True
  | _, _ => False
  end.

(** A call whose outcome does not depend on [services]. *)
Definition ignores_services {A} (m : M State A) : Prop :=
  ∀ s1 s2, same_but_services s1 s2 → agree (m s1) (m s2).

End services_vocabulary.

(** * Properties *)

Ltac run :=
  repeat (progress (unfold defer, mbind, M_bind, mret, M_ret, bind, ret, gets,
                      modify, panic, acquire, release in *; simpl in *)).

Lemma existsb_Exists_true {A} (f : A → bool) (l : list A) :
  existsb f l = true ↔ Exists (λ x, f x = true) l.
Proof.
  rewrite existsb_exists, Exists_exists. by setoid_rewrite list_elem_of_In.
Qed.

Lemma existsb_Forall_false {A} (f : A → bool) (l : list A) :
  existsb f l = false ↔ Forall (λ x, f x = false) l.
Proof.
  induction l as [|x l IH]; simpl.
  - split; [constructor|done].
  - rewrite orb_false_iff, IH. split.
    + intros [??]. by constructor.
    + by inversion 1.
Qed.

Section heap_facts.
Import reflect.

Lemma cell_kept_refl a k h : cell_kept a k h h.
Proof. intros t fs H. by exists fs. Qed.

Lemma cell_kept_set_field a k x h : cell_kept a k h (set_field a k x h).
Proof.
  intros t fs H. unfold set_field. rewrite H.
  eexists. rewrite lookup_insert_eq. split; [done|]. split.
  - apply list_eq. intros j. rewrite !list_lookup_fmap.
    destruct (decide (j = k)) as [->|Hne].
    + rewrite list_lookup_alter_eq. by destruct (fs !! k).
    + by rewrite list_lookup_alter_ne.
  - intros j Hne. by rewrite list_lookup_alter_ne.
Qed.

Lemma cell_kept_trans a k h1 h2 h3 :
  cell_kept a k h1 h2 → cell_kept a k h2 h3 → cell_kept a k h1 h3.
Proof.
  intros H12 H23 t fs H. destruct (H12 _ _ H) as (fs2 & H2 & Hd2 & Hf2).
  destruct (H23 _ _ H2) as (fs3 & H3 & Hd3 & Hf3).
  exists fs3. split_and!; [done|congruence|]. intros j Hj. rewrite Hf3 by done. by apply Hf2.
Qed.

Lemma cell_kept_subseteq a k (h h' : Heap) : h ⊆ h' → cell_kept a k h h'.
Proof.
  intros Hsub t fs H. exists fs. split_and!; [|done..].
  by eapply lookup_weaken.
Qed.

Lemma fields_is_Some {A B} (l l' : list (A * B)) i :
  l'.*1 = l.*1 → is_Some (l !! i) → is_Some (l' !! i).
Proof.
  intros Heq. rewrite !lookup_lt_is_Some.
  by rewrite <- (length_fmap fst l), <- Heq, length_fmap.
Qed.

Lemma non_nil_typed v : v ≠ VNil → ∃ t, TypeOf v = Some t.
Proof. destruct v; simpl; eauto. done. Qed.

Lemma not_addressable_skip rv fs :
  cell rv = None → Forall (λ fv : StructField * value, injectable rv fv.1 = false) fs.
Proof.
  intros Hc. apply Forall_forall. intros [fd v] _. unfold injectable, Field_CanSet.
  rewrite Hc. simpl. by rewrite andb_false_r.
Qed.

Lemma get_field_kept a k j h h' :
  cell_kept a k h h' → j ≠ k → is_Some (get_field a j h) →
  get_field a j h' = get_field a j h.
Proof.
  intros Hk Hne [x Hx]. unfold get_field in *.
  destruct (h !! a) as [[| | | |t fs|]|] eqn:Ha; try done.
  destruct (Hk _ _ Ha) as (fs' & -> & _ & Hf). by rewrite Hf.
Qed.

End heap_facts.

Module SimpleFacts.
Import reflect SimpleContainer.

Lemma Get_free s name :
  mu s ≠ sync.Locked → Get name s = Ret (lookup_result (beans s) name) s.
Proof.
  intros Hm. destruct s as [h bs m].
  unfold Get, lookup_result, mu_RLock, mu_RUnlock. run.
  destruct m as [|n|]; simpl; try done; destruct (bs !! name); reflexivity.
Qed.

Lemma Get_Locked s name : mu s = sync.Locked → Get name s = Deadlock.
Proof. intros Hm. unfold Get, mu_RLock. run. by rewrite Hm. Qed.

Lemma inject_fields_skip order rv i fs s :
  Forall (λ fv, injectable rv fv.1 = false) fs →
  inject_fields order rv i fs s = Ret None s.
Proof.
  revert i. induction fs as [|[fd v] fs IH]; intros i Hall; simpl; [done|].
  inversion_clear Hall as [|?? H1 H2]. unfold injectable in H1. simpl in H1.
  destruct (decide (Tag_Get fd = "")) as [He|He]; [by apply IH|].
  rewrite bool_decide_eq_false_2 in H1 by done. simpl in H1. rewrite H1. simpl.
  by apply IH.
Qed.

Lemma inject_fields_Locked order rv i fs s :
  mu s = sync.Locked →
  Exists (λ fv, injectable rv fv.1 = true) fs →
  inject_fields order rv i fs s = Deadlock.
Proof.
  intros Hm. revert i. induction fs as [|[fd v] fs IH]; intros i Hex; simpl.
  { inversion Hex. }
  destruct (decide (Tag_Get fd = "")) as [He|He].
  { apply IH. inversion_clear Hex as [?? H|?? H]; [|done].
    unfold injectable in H. simpl in H. by rewrite bool_decide_eq_true_2 in H. }
  destruct (Field_CanSet rv fd) eqn:Hc; simpl.
  - run. by rewrite Get_Locked.
  - apply IH. inversion_clear Hex as [?? H|?? H]; [|done].
    unfold injectable in H. simpl in H. rewrite Hc in H. by rewrite andb_false_r in H.
Qed.

Lemma injectDependencies_eq order target s :
  injectDependencies order target s =
    if decide (Value_Kind (target_Value (heap s) target) ≠ Struct) then Ret None s
    else inject_fields order (target_Value (heap s) target) 0
           (Value_fields (target_Value (heap s) target)) s.
Proof.
  unfold injectDependencies, target_Value. run.
  by destruct (decide (Value_Kind _ ≠ Struct)).
Qed.

Lemma injectDependencies_skip order target s :
  wants_injection (heap s) target = false →
  injectDependencies order target s = Ret None s.
Proof.
  intros Hw. rewrite injectDependencies_eq. case_decide; [done|].
  apply inject_fields_skip. apply existsb_Forall_false.
  unfold wants_injection in Hw. apply andb_false_iff in Hw as [Hw|Hw]; [|done].
  apply bool_decide_eq_false in Hw. done.
Qed.

Lemma injectDependencies_Locked order target s :
  mu s = sync.Locked →
  wants_injection (heap s) target = true →
  injectDependencies order target s = Deadlock.
Proof.
  intros Hm Hw. rewrite injectDependencies_eq.
  unfold wants_injection in Hw. apply andb_true_iff in Hw as [Hk Hw].
  apply bool_decide_eq_true in Hk. case_decide; [done|].
  apply inject_fields_Locked; [done|]. by apply existsb_Exists_true.
Qed.

Lemma Populate_range_Locked bs order todo s :
  mu s = sync.Locked →
  Populate_range bs order todo s =
    if existsb (λ name, from_option (wants_injection (heap s)) false (bs !! name)) todo
    then Deadlock else Ret None s.
Proof.
  intros Hm. induction todo as [|name rest IH]; simpl; [done|].
  destruct (bs !! name) as [bean|] eqn:Hb; simpl; [|done].
  destruct (wants_injection (heap s) bean) eqn:Hw; simpl.
  - run. by rewrite injectDependencies_Locked.
  - run. by rewrite injectDependencies_skip.
Qed.

Lemma Populate_eq order s :
  mu s = sync.Unlocked →
  Populate order s =
    if existsb (λ name, from_option (wants_injection (heap s)) false (beans s !! name)) order
    then Deadlock else Ret None s.
Proof.
  intros Hm. destruct s as [h bs m]. simpl in Hm. subst m.
  unfold Populate, mu_Lock, mu_Unlock. run.
  rewrite Populate_range_Locked by done. simpl.
  by destruct (existsb _ order).
Qed.

Lemma ProvideWithName_eq s n v :
  ProvideWithName n v s =
    match mu s with
    | sync.Unlocked =>
        let name := if decide (n = "") then Sprintf_T v else n in
        match beans s !! name with
        | Some _ => Ret (Some ("bean with name '" ++ name ++ "' already exists")) s
        | None => Ret None (mkState (heap s) (<[name := v]> (beans s)) sync.Unlocked)
        end
    | _ => Deadlock
    end.
Proof.
  destruct s as [h bs m]. unfold ProvideWithName, mu_Lock, mu_Unlock. run.
  destruct m; simpl; try done. destruct (bs !! _); done.
Qed.

Lemma Count_eq s : mu s ≠ sync.Locked → Count s = Ret (size (beans s)) s.
Proof.
  intros Hm. destruct s as [h bs m]. unfold Count, mu_RLock, mu_RUnlock. run.
  destruct m as [|k|]; simpl; done.
Qed.
Lemma assign_found_typed rv a k fd dep t s :
  cell rv = Some a → TypeOf dep = Some t →
  assign_found rv k fd dep s =
    Ret tt (if AssignableTo t (field_type fd) then set_heap (set_field a k dep) s else s).
Proof.
  intros Ha Ht. unfold assign_found, Value_Type, Field_Set. rewrite Ha.
  destruct dep; simplify_eq/=; run; by destruct (AssignableTo _ _).
Qed.

Lemma assign_found_nil rv k fd s :
  ∃ msg, assign_found rv k fd VNil s = Panic msg.
Proof. eexists. reflexivity. Qed.

Lemma assign_found_free rv a k fd dep s :
  cell rv = Some a →
  (∃ msg, assign_found rv k fd dep s = Panic msg)
  ∨ ∃ s1, assign_found rv k fd dep s = Ret tt s1
          ∧ beans s1 = beans s ∧ mu s1 = mu s ∧ cell_kept a k (heap s) (heap s1).
Proof.
  intros Ha. destruct (TypeOf dep) as [t|] eqn:Ht.
  - right. rewrite (assign_found_typed rv a k fd dep t) by done.
    eexists. split; [done|]. destruct (AssignableTo _ _); simpl;
      eauto using cell_kept_refl, cell_kept_set_field.
  - left. destruct dep; try done. apply assign_found_nil.
Qed.

(** One round of the loop with the lock free: it panics, or goes on to the
    next field in a state whose beans and mutex are unchanged. *)
Lemma inject_fields_cons_free order rv a k fd v rest s :
  mu s ≠ sync.Locked → cell rv = Some a →
  (∃ msg, inject_fields order rv k ((fd, v) :: rest) s = Panic msg)
  ∨ ∃ s1, inject_fields order rv k ((fd, v) :: rest) s
            = inject_fields order rv (S k) rest s1
          ∧ beans s1 = beans s ∧ mu s1 = mu s ∧ cell_kept a k (heap s) (heap s1).
Proof.
  intros Hm Ha. simpl.
  destruct (decide (Tag_Get fd = "")); [right; exists s; eauto using cell_kept_refl|].
  destruct (Field_CanSet rv fd); simpl; [|right; exists s; eauto using cell_kept_refl].
  assert (∀ dep,
    (∃ msg, (assign_found rv k fd dep ≫= λ _, inject_fields order rv (S k) rest) s = Panic msg)
    ∨ ∃ s1, (assign_found rv k fd dep ≫= λ _, inject_fields order rv (S k) rest) s
              = inject_fields order rv (S k) rest s1
            ∧ beans s1 = beans s ∧ mu s1 = mu s ∧ cell_kept a k (heap s) (heap s1)) as Hfound.
  { intros dep. destruct (assign_found_free rv a k fd dep s Ha) as [[msg H]|(s1 & H & ?)].
    - left. exists msg. run. by rewrite H.
    - right. exists s1. split; [|done]. run. by rewrite H. }
  run. rewrite Get_free by done.
  destruct (lookup_result (beans s) (Tag_Get fd)) as [dep found].
  destruct found; simpl; [apply Hfound|].
  rewrite Get_free by done.
  destruct (lookup_result (beans s) (type_string (field_type fd))) as [dep' found'].
  destruct found'; simpl; [apply Hfound|].
  right. exists s. eauto using cell_kept_refl.
Qed.

Lemma inject_fields_kept order rv a fs : ∀ k s e s',
  mu s ≠ sync.Locked → cell rv = Some a →
  inject_fields order rv k fs s = Ret e s' →
  e = None ∧ beans s' = beans s ∧ mu s' = mu s
  ∧ ∀ t fs0, heap s !! a = Some (VStruct t fs0) →
      ∃ fs', heap s' !! a = Some (VStruct t fs') ∧ fs'.*1 = fs0.*1
             ∧ ∀ j, j < k → fs' !! j = fs0 !! j.
Proof.
  induction fs as [|[fd v] rest IH]; intros k s e s' Hm Ha Hrun.
  - simpl in Hrun. injection Hrun as <- <-. split_and!; try done.
    intros t fs0 H. by exists fs0.
  - destruct (inject_fields_cons_free order rv a k fd v rest s Hm Ha)
      as [[msg H]|(s1 & H & Hb & Hmu & Hk)]; [congruence|].
    rewrite H in Hrun. apply IH in Hrun as (-> & Hb' & Hmu' & Hc); [|congruence|done].
    split_and!; [done|congruence|congruence|].
    intros t fs0 H0. destruct (Hk _ _ H0) as (fs1 & H1 & Hd1 & Hf1).
    destruct (Hc _ _ H1) as (fs' & H' & Hd' & Hf').
    exists fs'. split_and!; [done|congruence|].
    intros j Hj. rewrite Hf' by lia. apply Hf1. lia.
Qed.

Lemma inject_fields_sets order rv a d B tB fs : ∀ n k s e s' t fs0 fd v,
  mu s ≠ sync.Locked → cell rv = Some a →
  heap s !! a = Some (VStruct t fs0) → is_Some (fs0 !! (k + n)) →
  fs !! n = Some (fd, v) →
  exported fd = true → inject fd = Some d → d ≠ "" →
  beans s !! d = Some B → TypeOf B = Some tB →
  AssignableTo tB (field_type fd) = true →
  inject_fields order rv k fs s = Ret e s' →
  get_field a (k + n) (heap s') = Some B.
Proof.
  induction fs as [|[fd0 v0] rest IH];
    intros n k s e s' t fs0 fd v Hm Ha Hcell Hlen Hn Hexp Hinj Hd HB HtB Hasg Hrun; [done|].
  destruct n as [|n].
  - simpl in Hn. injection Hn as -> ->. rewrite Nat.add_0_r in *.
    simpl in Hrun. unfold Tag_Get in Hrun. rewrite Hinj in Hrun. simpl in Hrun.
    destruct (decide (d = "")); [done|].
    unfold Field_CanSet in Hrun. rewrite Ha, Hexp in Hrun.
    rewrite bool_decide_eq_true_2 in Hrun by eauto. simpl in Hrun.
    run. rewrite Get_free in Hrun by done. unfold lookup_result in Hrun.
    rewrite HB in Hrun. simpl in Hrun.
    rewrite (assign_found_typed rv a k fd B tB) in Hrun by done.
    rewrite Hasg in Hrun.
    apply (inject_fields_kept order rv a) in Hrun as (_ & _ & _ & Hc); [|done|done].
    simpl in Hc. unfold set_field in Hc. rewrite Hcell in Hc.
    destruct (Hc _ _ (lookup_insert_eq _ _ _)) as (fs' & H' & _ & Hf').
    unfold get_field. rewrite H', Hf' by lia.
    rewrite list_lookup_alter_eq. destruct Hlen as [fv ->]. done.
  - simpl in Hn.
    destruct (inject_fields_cons_free order rv a k fd0 v0 rest s Hm Ha)
      as [[msg H]|(s1 & H & Hb & Hmu & Hk)]; [congruence|].
    rewrite H in Hrun. destruct (Hk _ _ Hcell) as (fs1 & H1 & Hd1 & Hf1).
    replace (k + S n) with (S k + n) in * by lia.
    eapply (IH n (S k) s1); eauto; try congruence.
    by eapply fields_is_Some.
Qed.
Lemma Populate_blocked order s :
  mu s ≠ sync.Unlocked → Populate order s = Deadlock.
Proof.
  intros Hm. unfold Populate, mu_Lock. run.
  by destruct (mu s).
Qed.

Lemma inject_fields_cons_total order rv a k fd v rest s :
  mu s ≠ sync.Locked → cell rv = Some a → (∀ n, beans s !! n ≠ Some VNil) →
  ∃ s1, inject_fields order rv k ((fd, v) :: rest) s = inject_fields order rv (S k) rest s1
        ∧ beans s1 = beans s ∧ mu s1 = mu s.
Proof.
  intros Hm Ha Hnil. simpl.
  destruct (decide (Tag_Get fd = "")) as [|Htag]; [by exists s|].
  destruct (Field_CanSet rv fd); simpl; [|by exists s].
  assert (∀ n dep, beans s !! n = Some dep →
    ∃ s1, (assign_found rv k fd dep ≫= λ _, inject_fields order rv (S k) rest) s
            = inject_fields order rv (S k) rest s1
          ∧ beans s1 = beans s ∧ mu s1 = mu s) as Hfound.
  { intros n dep Hdep. destruct (non_nil_typed dep) as [t Ht].
    { intros ->. by destruct (Hnil n). }
    eexists. split.
    - run. by rewrite (assign_found_typed rv a k fd dep t) by done.
    - by destruct (AssignableTo t (field_type fd)). }
  run. rewrite Get_free by done. unfold lookup_result.
  destruct (beans s !! Tag_Get fd) as [dep|] eqn:Hd; simpl; [by eapply Hfound|].
  rewrite Get_free by done. unfold lookup_result.
  destruct (beans s !! type_string (field_type fd)) as [dep|] eqn:Hd'; simpl;
    [by eapply Hfound|by exists s].
Qed.

Lemma inject_fields_returns order rv a fs : ∀ k s,
  mu s ≠ sync.Locked → cell rv = Some a → (∀ n, beans s !! n ≠ Some VNil) →
  ∃ s', inject_fields order rv k fs s = Ret None s'.
Proof.
  induction fs as [|[fd v] rest IH]; intros k s Hm Ha Hnil; [by exists s|].
  destruct (inject_fields_cons_total order rv a k fd v rest s Hm Ha Hnil)
    as (s1 & -> & Hb & Hmu).
  apply IH; [congruence|done|by rewrite Hb].
Qed.

Lemma injectDependencies_returns order target s :
  mu s ≠ sync.Locked → (∀ n, beans s !! n ≠ Some VNil) →
  ∃ s', injectDependencies order target s = Ret None s'.
Proof.
  intros Hm Hnil. rewrite injectDependencies_eq. case_decide; [by exists s|].
  destruct (cell (target_Value (heap s) target)) as [a|] eqn:Hc.
  - by eapply inject_fields_returns.
  - exists s. by apply inject_fields_skip, not_addressable_skip.
Qed.

Lemma inject_fields_frame order rv a fs : ∀ n k s e s' fd v,
  mu s ≠ sync.Locked → cell rv = Some a →
  fs !! n = Some (fd, v) → injectable rv fd = false →
  is_Some (get_field a (k + n) (heap s)) →
  inject_fields order rv k fs s = Ret e s' →
  get_field a (k + n) (heap s') = get_field a (k + n) (heap s).
Proof.
  induction fs as [|[fd0 v0] rest IH]; intros n k s e s' fd v Hm Ha Hn Hinj Hsome Hrun; [done|].
  destruct n as [|n].
  - simpl in Hn. injection Hn as -> ->. rewrite Nat.add_0_r in *.
    assert (inject_fields order rv k ((fd, v) :: rest) s = inject_fields order rv (S k) rest s)
      as Hskip.
    { simpl. unfold injectable in Hinj. destruct (decide (Tag_Get fd = "")); [done|].
      rewrite bool_decide_eq_false_2 in Hinj by done. simpl in Hinj. by rewrite Hinj. }
    rewrite Hskip in Hrun.
    apply (inject_fields_kept order rv a) in Hrun as (_ & _ & _ & Hc); [|done..].
    destruct Hsome as [x Hx]. unfold get_field in *.
    destruct (heap s !! a) as [[| | | |t fs0|]|] eqn:Hcell; try done.
    destruct (Hc _ _ eq_refl) as (fs' & -> & _ & Hf). rewrite Hf by lia. done.
  - simpl in Hn.
    destruct (inject_fields_cons_free order rv a k fd0 v0 rest s Hm Ha)
      as [[msg H]|(s1 & H & Hb & Hmu & Hk)]; [congruence|].
    rewrite H in Hrun. replace (k + S n) with (S k + n) in * by lia.
    assert (get_field a (S k + n) (heap s1) = get_field a (S k + n) (heap s)) as Heq.
    { apply (get_field_kept a k); [done|lia|done]. }
    rewrite <- Heq. eapply (IH n (S k) s1); eauto; try congruence.
Qed.

Lemma GetByType_range_state T bs order s r s' :
  GetByType_range T bs order s = Ret r s' → s' = s.
Proof.
  induction order as [|n rest IH]; simpl.
  { by intros [= _ <-]. }
  destruct (bs !! n) as [bean|]; [|done].
  destruct (decide (TypeOf bean = Some T)); [by intros [= _ <-]|].
  destruct (decide (kind T = Interface)); [|done].
  destruct (TypeOf bean) as [t|]; [|done].
  unfold Implements. rewrite decide_True by done. run.
  destruct (implements T t); [by intros [= _ <-]|done].
Qed.

Lemma GetByType_state order T s r s' :
  GetByType order T s = Ret r s' → s' = s.
Proof.
  unfold GetByType, mu_RLock, mu_RUnlock. run.
  destruct (mu s) eqn:Hmu; simpl; try done.
  - destruct (GetByType_range T (beans s) order (set_mu (sync.RLocked 0) s)) as [r0 s0| |] eqn:HG;
      try done. apply GetByType_range_state in HG as ->. simpl.
    intros [= _ <-]. rewrite <- Hmu. by destruct s.
  - destruct (GetByType_range T (beans s) order (set_mu (sync.RLocked (S n)) s))
      as [r0 s0| |] eqn:HG; try done. apply GetByType_range_state in HG as ->. simpl.
    intros [= _ <-]. rewrite <- Hmu. by destruct s.
Qed.

Lemma HasBean_state name s r s' : HasBean name s = Ret r s' → s' = s.
Proof.
  unfold HasBean, mu_RLock, mu_RUnlock. run.
  destruct (mu s) eqn:Hmu; simpl; try done; intros [= _ <-]; rewrite <- Hmu; by destruct s.
Qed.

Lemma Populate_state order s e s' : Populate order s = Ret e s' → e = None ∧ s' = s.
Proof.
  intros H. destruct (sync.RWMutex_eq_dec (mu s) sync.Unlocked) as [Hm|Hm].
  - rewrite Populate_eq in H by done. destruct (existsb _ order); [done|].
    by injection H as <- <-.
  - by rewrite Populate_blocked in H.
Qed.

(** A bean stays registered, and the lock free, across every call that
    returns. *)
Import SimpleCalls.

Lemma after_keeps c s s' n v :
  mu s = sync.Unlocked → beans s !! n = Some v → after c s = Some s' →
  mu s' = sync.Unlocked ∧ beans s' !! n = Some v.
Proof.
  intros Hm Hn. destruct c as [name bean|name|order T|order|name|]; simpl.
  - rewrite ProvideWithName_eq, Hm. cbv zeta.
    set (key := if decide (name = "") then Sprintf_T bean else name).
    destruct (beans s !! key) eqn:Hb; simpl; intros [= <-]; [done|]. simpl. split; [done|].
    rewrite lookup_insert_ne; [done|]. intros ->. congruence.
  - rewrite Get_free by (by rewrite Hm). by intros [= <-].
  - destruct (GetByType order T s) as [r s0| |] eqn:HG; simpl; [|done..].
    apply GetByType_state in HG as ->. by intros [= <-].
  - destruct (Populate order s) as [r s0| |] eqn:HP; simpl; [|done..].
    apply Populate_state in HP as [_ ->]. by intros [= <-].
  - destruct (HasBean name s) as [r s0| |] eqn:HH; simpl; [|done..].
    apply HasBean_state in HH as ->. by intros [= <-].
  - rewrite Count_eq by (by rewrite Hm). by intros [= <-].
Qed.

Lemma after_all_keeps cs : ∀ s s' n v,
  mu s = sync.Unlocked → beans s !! n = Some v → after_all cs s = Some s' →
  mu s' = sync.Unlocked ∧ beans s' !! n = Some v.
Proof.
  induction cs as [|c rest IH]; intros s s' n v Hm Hn; simpl.
  { by intros [= <-]. }
  destruct (after c s) as [s1|] eqn:Hc; [|done].
  destruct (after_keeps c s s1 n v Hm Hn Hc) as [Hm1 Hn1]. by apply IH.
Qed.

End SimpleFacts.

Module DIFacts.
Import reflect DIContainer.

Lemma DI_Get_Locked s name : mutex s = sync.Locked → Get name s = Deadlock.
Proof. intros Hm. unfold Get, mutex_RLock. run. by rewrite Hm. Qed.

Lemma DI_inject_fields_skip rv i fs s :
  Forall (λ fv, injectable rv fv.1 = false) fs →
  inject_fields rv i fs s = Ret None s.
Proof.
  revert i. induction fs as [|[fd v] fs IH]; intros i Hall; simpl; [done|].
  inversion_clear Hall as [|?? H1 H2]. unfold injectable in H1. simpl in H1.
  destruct (decide (Tag_Get fd = "")) as [He|He]; [by apply IH|].
  rewrite bool_decide_eq_false_2 in H1 by done. simpl in H1. rewrite H1. simpl.
  by apply IH.
Qed.

Lemma DI_inject_fields_Locked rv i fs s :
  mutex s = sync.Locked →
  Exists (λ fv, injectable rv fv.1 = true) fs →
  inject_fields rv i fs s = Deadlock.
Proof.
  intros Hm. revert i. induction fs as [|[fd v] fs IH]; intros i Hex; simpl.
  { inversion Hex. }
  destruct (decide (Tag_Get fd = "")) as [He|He].
  { apply IH. inversion_clear Hex as [?? H|?? H]; [|done].
    unfold injectable in H. simpl in H. by rewrite bool_decide_eq_true_2 in H. }
  destruct (Field_CanSet rv fd) eqn:Hc; simpl.
  - run. by rewrite DI_Get_Locked.
  - apply IH. inversion_clear Hex as [?? H|?? H]; [|done].
    unfold injectable in H. simpl in H. rewrite Hc in H. by rewrite andb_false_r in H.
Qed.

Lemma DI_injectDependencies_eq target s :
  injectDependencies target s =
    if decide (Value_Kind (target_Value (heap s) target) ≠ Struct) then Ret None s
    else inject_fields (target_Value (heap s) target) 0
           (Value_fields (target_Value (heap s) target)) s.
Proof.
  unfold injectDependencies, target_Value. run.
  by destruct (decide (Value_Kind _ ≠ Struct)).
Qed.

Lemma DI_injectDependencies_skip target s :
  wants_injection (heap s) target = false →
  injectDependencies target s = Ret None s.
Proof.
  intros Hw. rewrite DI_injectDependencies_eq. case_decide; [done|].
  apply DI_inject_fields_skip. apply existsb_Forall_false.
  unfold wants_injection in Hw. apply andb_false_iff in Hw as [Hw|Hw]; [|done].
  apply bool_decide_eq_false in Hw. done.
Qed.

Lemma DI_injectDependencies_Locked target s :
  mutex s = sync.Locked →
  wants_injection (heap s) target = true →
  injectDependencies target s = Deadlock.
Proof.
  intros Hm Hw. rewrite DI_injectDependencies_eq.
  unfold wants_injection in Hw. apply andb_true_iff in Hw as [Hk Hw].
  apply bool_decide_eq_true in Hk. case_decide; [done|].
  apply DI_inject_fields_Locked; [done|]. by apply existsb_Exists_true.
Qed.

Lemma DI_Populate_range_Locked bs todo s :
  mutex s = sync.Locked →
  Populate_range bs todo s =
    if existsb (λ name, from_option (λ b, wants_injection (heap s) (Value b)) false (bs !! name)) todo
    then Deadlock else Ret None s.
Proof.
  intros Hm. induction todo as [|name rest IH]; simpl; [done|].
  destruct (bs !! name) as [bean|] eqn:Hb; simpl; [|done].
  destruct (wants_injection (heap s) (Value bean)) eqn:Hw; simpl.
  - run. by rewrite DI_injectDependencies_Locked.
  - run. by rewrite DI_injectDependencies_skip.
Qed.

Lemma DI_Populate_eq order s :
  mutex s = sync.Unlocked →
  Populate order s =
    if existsb (λ name, from_option (λ b, wants_injection (heap s) (Value b)) false (beans s !! name)) order
    then Deadlock else Ret None s.
Proof.
  intros Hm. destruct s as [h bs sv m]. simpl in Hm. subst m.
  unfold Populate, mutex_Lock, mutex_Unlock. run.
  rewrite DI_Populate_range_Locked by done. simpl.
  by destruct (existsb _ order).
Qed.

Lemma DI_Provide_eq s n v :
  Provide n v s =
    match mutex s with
    | sync.Unlocked =>
        match beans s !! n with
        | Some _ => Ret (Some (already_exists n)) s
        | None =>
            Ret None (mkState (heap s) (<[n := mkBean n v (TypeOf v) Singleton None ∅]> (beans s))
                        (<[TypeOf v := v]> (services s)) sync.Unlocked)
        end
    | _ => Deadlock
    end.
Proof.
  destruct s as [h bs sv m]. unfold Provide, mutex_Lock, mutex_Unlock. run.
  destruct m; simpl; try done. destruct (bs !! n); done.
Qed.

Lemma DI_Count_eq s : mutex s ≠ sync.Locked → Count s = Ret (size (beans s)) s.
Proof.
  intros Hm. destruct s as [h bs sv m]. unfold Count, mutex_RLock, mutex_RUnlock. run.
  destruct m as [|k|]; simpl; done.
Qed.
Lemma DI_Get_stored s n b :
  mutex s ≠ sync.Locked →
  beans s !! n = Some b →
  returns_stored b →
  Get n s = Ret (Value b, true) s.
Proof.
  intros Hm Hb Hf. destruct s as [h bs sv m]. unfold Get, mutex_RLock, mutex_RUnlock. run.
  destruct m as [|k|]; simpl; try done; rewrite Hb;
    destruct (Lifecycle_ b) eqn:Hl; try done; rewrite Hf by done; done.
Qed.

Lemma DI_Get_factory s n b f :
  mutex s ≠ sync.Locked →
  beans s !! n = Some b →
  Lifecycle_ b = Prototype → Factory b = Some f →
  Get n s = Ret ((f (heap s)).1, true) (set_heap (λ _, (f (heap s)).2) s).
Proof.
  intros Hm Hb Hl Hf. destruct s as [h bs sv m]. unfold Get, mutex_RLock, mutex_RUnlock, call_factory. run.
  destruct m as [|k|]; simpl; try done; rewrite Hb, Hl, Hf; simpl; destruct (f h); done.
Qed.

Lemma DI_Get_missing s n :
  mutex s ≠ sync.Locked →
  beans s !! n = None →
  Get n s = Ret (VNil, false) s.
Proof.
  intros Hm Hb. destruct s as [h bs sv m]. unfold Get, mutex_RLock, mutex_RUnlock. run.
  destruct m as [|k|]; simpl; try done; rewrite Hb; done.
Qed.

Lemma DI_Get_free s n a k :
  mutex s ≠ sync.Locked → factories_extend (beans s) →
  ∃ r s1, Get n s = Ret r s1 ∧ beans s1 = beans s ∧ mutex s1 = mutex s
          ∧ cell_kept a k (heap s) (heap s1).
Proof.
  intros Hm Hf. destruct (beans s !! n) as [b|] eqn:Hb.
  - destruct (Factory b) as [f|] eqn:Hfb; [destruct (decide (Lifecycle_ b = Prototype))|].
    + rewrite (DI_Get_factory s n b f) by done. do 2 eexists. split; [done|]. simpl.
      split_and!; [done..|]. apply cell_kept_subseteq. by eapply Hf.
    + rewrite (DI_Get_stored s n b); [|done|done|by intros ?]. eauto 8 using cell_kept_refl.
    + rewrite (DI_Get_stored s n b); [|done|done|by intros ?]. eauto 8 using cell_kept_refl.
  - rewrite DI_Get_missing by done. eauto 8 using cell_kept_refl.
Qed.

Lemma DI_assign_found_typed rv a k fd dep t s :
  cell rv = Some a → TypeOf dep = Some t →
  assign_found rv k fd dep s =
    Ret tt (if AssignableTo t (field_type fd) then set_heap (set_field a k dep) s else s).
Proof.
  intros Ha Ht. unfold assign_found, Value_Type, Field_Set. rewrite Ha.
  destruct dep; simplify_eq/=; run; by destruct (AssignableTo _ _).
Qed.

Lemma DI_assign_found_free rv a k fd dep s :
  cell rv = Some a →
  (∃ msg, assign_found rv k fd dep s = Panic msg)
  ∨ ∃ s1, assign_found rv k fd dep s = Ret tt s1
          ∧ beans s1 = beans s ∧ mutex s1 = mutex s ∧ cell_kept a k (heap s) (heap s1).
Proof.
  intros Ha. destruct (TypeOf dep) as [t|] eqn:Ht.
  - right. rewrite (DI_assign_found_typed rv a k fd dep t) by done.
    eexists. split; [done|]. destruct (AssignableTo _ _); simpl;
      eauto using cell_kept_refl, cell_kept_set_field.
  - left. destruct dep; try done. eexists. reflexivity.
Qed.

Lemma DI_inject_fields_cons_free rv a k fd v rest s :
  mutex s ≠ sync.Locked → cell rv = Some a → factories_extend (beans s) →
  (∃ msg, inject_fields rv k ((fd, v) :: rest) s = Panic msg)
  ∨ ∃ s1, inject_fields rv k ((fd, v) :: rest) s = inject_fields rv (S k) rest s1
          ∧ beans s1 = beans s ∧ mutex s1 = mutex s ∧ cell_kept a k (heap s) (heap s1).
Proof.
  intros Hm Ha Hf. simpl.
  destruct (decide (Tag_Get fd = "")); [right; exists s; eauto using cell_kept_refl|].
  destruct (Field_CanSet rv fd); simpl; [|right; exists s; eauto using cell_kept_refl].
  destruct (DI_Get_free s (Tag_Get fd) a k Hm Hf) as ([dep found] & s0 & HG & Hb0 & Hm0 & Hk0).
  run. rewrite HG. destruct found; simpl.
  - destruct (DI_assign_found_free rv a k fd dep s0 Ha) as [[msg H]|(s1 & H & Hb1 & Hm1 & Hk1)].
    + left. exists msg. by rewrite H.
    + right. exists s1. rewrite H. split_and!; [done|congruence|congruence|].
      by eapply cell_kept_trans.
  - right. exists s0. eauto.
Qed.

Lemma DI_inject_fields_kept rv a fs : ∀ k s e s',
  mutex s ≠ sync.Locked → cell rv = Some a → factories_extend (beans s) →
  inject_fields rv k fs s = Ret e s' →
  e = None ∧ beans s' = beans s ∧ mutex s' = mutex s
  ∧ ∀ t fs0, heap s !! a = Some (VStruct t fs0) →
      ∃ fs', heap s' !! a = Some (VStruct t fs') ∧ fs'.*1 = fs0.*1
             ∧ ∀ j, j < k → fs' !! j = fs0 !! j.
Proof.
  induction fs as [|[fd v] rest IH]; intros k s e s' Hm Ha Hfe Hrun.
  - simpl in Hrun. injection Hrun as <- <-. split_and!; try done.
    intros t fs0 H. by exists fs0.
  - destruct (DI_inject_fields_cons_free rv a k fd v rest s Hm Ha Hfe)
      as [[msg H]|(s1 & H & Hb & Hmu & Hk)]; [congruence|].
    rewrite H in Hrun. apply IH in Hrun as (-> & Hb' & Hmu' & Hc); [|congruence|done|by rewrite Hb].
    split_and!; [done|congruence|congruence|].
    intros t fs0 H0. destruct (Hk _ _ H0) as (fs1 & H1 & Hd1 & Hf1).
    destruct (Hc _ _ H1) as (fs' & H' & Hd' & Hf').
    exists fs'. split_and!; [done|congruence|].
    intros j Hj. rewrite Hf' by lia. apply Hf1. lia.
Qed.

Lemma DI_inject_fields_sets rv a d B tB fs : ∀ n k s e s' t fs0 fd v,
  mutex s ≠ sync.Locked → cell rv = Some a → factories_extend (beans s) →
  heap s !! a = Some (VStruct t fs0) → is_Some (fs0 !! (k + n)) →
  fs !! n = Some (fd, v) →
  exported fd = true → inject fd = Some d → d ≠ "" →
  beans s !! d = Some B → returns_stored B → TypeOf (Value B) = Some tB →
  AssignableTo tB (field_type fd) = true →
  inject_fields rv k fs s = Ret e s' →
  get_field a (k + n) (heap s') = Some (Value B).
Proof.
  induction fs as [|[fd0 v0] rest IH];
    intros n k s e s' t fs0 fd v Hm Ha Hfe Hcell Hlen Hn Hexp Hinj Hd HB Hst HtB Hasg Hrun; [done|].
  destruct n as [|n].
  - simpl in Hn. injection Hn as -> ->. rewrite Nat.add_0_r in *.
    simpl in Hrun. unfold Tag_Get in Hrun. rewrite Hinj in Hrun. simpl in Hrun.
    destruct (decide (d = "")); [done|].
    unfold Field_CanSet in Hrun. rewrite Ha, Hexp in Hrun.
    rewrite bool_decide_eq_true_2 in Hrun by eauto. simpl in Hrun.
    run. rewrite (DI_Get_stored s d B) in Hrun by done.
    rewrite (DI_assign_found_typed rv a k fd (Value B) tB) in Hrun by done.
    rewrite Hasg in Hrun.
    apply (DI_inject_fields_kept rv a) in Hrun as (_ & _ & _ & Hc); [|done..].
    simpl in Hc. unfold set_field in Hc. rewrite Hcell in Hc.
    destruct (Hc _ _ (lookup_insert_eq _ _ _)) as (fs' & H' & _ & Hf').
    unfold get_field. rewrite H', Hf' by lia.
    rewrite list_lookup_alter_eq. destruct Hlen as [fv ->]. done.
  - simpl in Hn.
    destruct (DI_inject_fields_cons_free rv a k fd0 v0 rest s Hm Ha Hfe)
      as [[msg H]|(s1 & H & Hb & Hmu & Hk)]; [congruence|].
    rewrite H in Hrun. destruct (Hk _ _ Hcell) as (fs1 & H1 & Hd1 & Hf1).
    replace (k + S n) with (S k + n) in * by lia.
    eapply (IH n (S k) s1); eauto; try congruence; try (by rewrite Hb).
    by eapply fields_is_Some.
Qed.
Lemma DI_Populate_blocked order s :
  mutex s ≠ sync.Unlocked → Populate order s = Deadlock.
Proof.
  intros Hm. unfold Populate, mutex_Lock. run.
  by destruct (mutex s).
Qed.

Lemma DI_Get_total s n :
  mutex s ≠ sync.Locked → never_nil (beans s) →
  ∃ r s1, Get n s = Ret r s1 ∧ beans s1 = beans s ∧ mutex s1 = mutex s
          ∧ (r.2 = true → r.1 ≠ VNil).
Proof.
  intros Hm Hnn. destruct (beans s !! n) as [b|] eqn:Hb.
  - destruct (Hnn _ _ Hb) as [Hv Hf].
    destruct (Factory b) as [f|] eqn:Hfb; [destruct (decide (Lifecycle_ b = Prototype))|].
    + rewrite (DI_Get_factory s n b f) by done. do 2 eexists. split; [done|]. simpl. eauto.
    + rewrite (DI_Get_stored s n b); [|done|done|by intros ?]. do 2 eexists. eauto.
    + rewrite (DI_Get_stored s n b); [|done|done|by intros ?]. do 2 eexists. eauto.
  - rewrite DI_Get_missing by done. do 2 eexists. split; [done|]. simpl. eauto.
Qed.

Lemma DI_inject_fields_cons_total rv a k fd v rest s :
  mutex s ≠ sync.Locked → cell rv = Some a → never_nil (beans s) →
  ∃ s1, inject_fields rv k ((fd, v) :: rest) s = inject_fields rv (S k) rest s1
        ∧ beans s1 = beans s ∧ mutex s1 = mutex s.
Proof.
  intros Hm Ha Hnn. simpl.
  destruct (decide (Tag_Get fd = "")) as [|Htag]; [by exists s|].
  destruct (Field_CanSet rv fd); simpl; [|by exists s].
  destruct (DI_Get_total s (Tag_Get fd) Hm Hnn) as ([dep found] & s0 & HG & Hb0 & Hm0 & Hr).
  run. rewrite HG. destruct found; simpl; [|by exists s0].
  destruct (non_nil_typed dep) as [t Ht]; [by apply Hr|].
  rewrite (DI_assign_found_typed rv a k fd dep t) by done.
  eexists. split; [done|]. by destruct (AssignableTo t (field_type fd)).
Qed.

Lemma DI_inject_fields_returns rv a fs : ∀ k s,
  mutex s ≠ sync.Locked → cell rv = Some a → never_nil (beans s) →
  ∃ s', inject_fields rv k fs s = Ret None s'.
Proof.
  induction fs as [|[fd v] rest IH]; intros k s Hm Ha Hnn; [by exists s|].
  destruct (DI_inject_fields_cons_total rv a k fd v rest s Hm Ha Hnn)
    as (s1 & -> & Hb & Hmu).
  apply IH; [congruence|done|by rewrite Hb].
Qed.

Lemma DI_injectDependencies_returns target s :
  mutex s ≠ sync.Locked → never_nil (beans s) →
  ∃ s', injectDependencies target s = Ret None s'.
Proof.
  intros Hm Hnn. rewrite DI_injectDependencies_eq. case_decide; [by exists s|].
  destruct (cell (target_Value (heap s) target)) as [a|] eqn:Hc.
  - by eapply DI_inject_fields_returns.
  - exists s. by apply DI_inject_fields_skip, not_addressable_skip.
Qed.

Lemma DI_inject_fields_frame rv a fs : ∀ n k s e s' fd v,
  mutex s ≠ sync.Locked → cell rv = Some a → factories_extend (beans s) →
  fs !! n = Some (fd, v) → injectable rv fd = false →
  is_Some (get_field a (k + n) (heap s)) →
  inject_fields rv k fs s = Ret e s' →
  get_field a (k + n) (heap s') = get_field a (k + n) (heap s).
Proof.
  induction fs as [|[fd0 v0] rest IH];
    intros n k s e s' fd v Hm Ha Hfe Hn Hinj Hsome Hrun; [done|].
  destruct n as [|n].
  - simpl in Hn. injection Hn as -> ->. rewrite Nat.add_0_r in *.
    assert (inject_fields rv k ((fd, v) :: rest) s = inject_fields rv (S k) rest s)
      as Hskip.
    { simpl. unfold injectable in Hinj. destruct (decide (Tag_Get fd = "")); [done|].
      rewrite bool_decide_eq_false_2 in Hinj by done. simpl in Hinj. by rewrite Hinj. }
    rewrite Hskip in Hrun.
    apply (DI_inject_fields_kept rv a) in Hrun as (_ & _ & _ & Hc); [|done..].
    destruct Hsome as [x Hx]. unfold get_field in *.
    destruct (heap s !! a) as [[| | | |t fs0|]|] eqn:Hcell; try done.
    destruct (Hc _ _ eq_refl) as (fs' & -> & _ & Hf). rewrite Hf by lia. done.
  - simpl in Hn.
    destruct (DI_inject_fields_cons_free rv a k fd0 v0 rest s Hm Ha Hfe)
      as [[msg H]|(s1 & H & Hb & Hmu & Hk)]; [congruence|].
    rewrite H in Hrun. replace (k + S n) with (S k + n) in * by lia.
    assert (get_field a (S k + n) (heap s1) = get_field a (S k + n) (heap s)) as Heq.
    { apply (get_field_kept a k); [done|lia|done]. }
    rewrite <- Heq. eapply (IH n (S k) s1); eauto; try congruence.
    by rewrite Hb.
Qed.

Lemma DI_Get_state s n r s' :
  Get n s = Ret r s' → beans s' = beans s ∧ mutex s' = mutex s.
Proof.
  destruct s as [h bs sv m]. unfold Get, mutex_RLock, mutex_RUnlock, call_factory. run.
  destruct m as [|k|]; simpl; try done;
    (destruct (bs !! n) as [b|]; [|by intros [= _ <-]]);
    (destruct (Lifecycle_ b); try (by intros [= _ <-]));
    (destruct (Factory b) as [f|]; [|by intros [= _ <-]]);
    simpl; destruct (f h); simpl; by intros [= _ <-].
Qed.

Lemma DI_GetBeansByType_range_state T bs order : ∀ acc s r s',
  GetBeansByType_range T bs order acc s = Ret r s' → s' = s.
Proof.
  induction order as [|n rest IH]; intros acc s r s'; simpl.
  { by intros [= _ <-]. }
  destruct (bs !! n) as [bean|]; [|by apply IH].
  destruct (decide (Type_ bean = Some T)); [by apply IH|].
  destruct (Type_ bean) as [t|]; [|done].
  unfold Implements. destruct (decide (kind T = Interface)); [|done]. run.
  destruct (implements T t); by apply IH.
Qed.

Lemma DI_GetBeansByType_state order T s r s' :
  GetBeansByType order T s = Ret r s' → s' = s.
Proof.
  unfold GetBeansByType, mutex_RLock, mutex_RUnlock. run.
  destruct (mutex s) eqn:Hmu; simpl; try done.
  - destruct (GetBeansByType_range T (beans s) order [] (set_mutex (sync.RLocked 0) s))
      as [r0 s0| |] eqn:HG; try done. apply DI_GetBeansByType_range_state in HG as ->. simpl.
    intros [= _ <-]. rewrite <- Hmu. by destruct s.
  - destruct (GetBeansByType_range T (beans s) order [] (set_mutex (sync.RLocked (S n)) s))
      as [r0 s0| |] eqn:HG; try done. apply DI_GetBeansByType_range_state in HG as ->. simpl.
    intros [= _ <-]. rewrite <- Hmu. by destruct s.
Qed.

Lemma DI_HasBean_state name s r s' : HasBean name s = Ret r s' → s' = s.
Proof.
  unfold HasBean, mutex_RLock, mutex_RUnlock. run.
  destruct (mutex s) eqn:Hmu; simpl; try done; intros [= _ <-]; rewrite <- Hmu; by destruct s.
Qed.

Lemma DI_Populate_state order s e s' : Populate order s = Ret e s' → e = None ∧ s' = s.
Proof.
  intros H. destruct (sync.RWMutex_eq_dec (mutex s) sync.Unlocked) as [Hm|Hm].
  - rewrite DI_Populate_eq in H by done. destruct (existsb _ order); [done|].
    by injection H as <- <-.
  - by rewrite DI_Populate_blocked in H.
Qed.

Lemma DI_RegisterFactory_state s n f lc e s' b name :
  mutex s = sync.Unlocked → beans s !! name = Some b →
  RegisterFactory n f lc s = Ret e s' →
  mutex s' = sync.Unlocked ∧ beans s' !! name = Some b.
Proof.
  intros Hm Hb. destruct s as [h bs sv m]. simpl in *. subst m.
  unfold RegisterFactory, mutex_Lock, mutex_Unlock, call_factory. run.
  destruct (bs !! n) eqn:Hn; simpl; [by intros [= _ <-]|].
  destruct f as [g|]; [|done]. unfold set_mutex, set_heap, set_beans. simpl.
  destruct (g h). simpl. intros [= _ <-]. simpl. split; [done|].
  rewrite lookup_insert_ne; [done|]. intros ->. congruence.
Qed.

Import DICalls.

Lemma DI_after_keeps c s s' n b :
  mutex s = sync.Unlocked → beans s !! n = Some b → after c s = Some s' →
  mutex s' = sync.Unlocked ∧ beans s' !! n = Some b.
Proof.
  intros Hm Hn. destruct c as [name bean|name bean lc|name f lc|name|order T|order|name|]; simpl.
  - rewrite DI_Provide_eq, Hm.
    destruct (beans s !! name) eqn:Hb; simpl; intros [= <-]; [done|]. simpl. split; [done|].
    rewrite lookup_insert_ne; [done|]. intros ->. congruence.
  - destruct (RegisterWithLifecycle name bean lc s) as [r s0| |] eqn:HR; simpl; [|done..].
    intros [= <-]. revert HR. destruct s as [h bs sv m]. simpl in *. subst m.
    unfold RegisterWithLifecycle, mutex_Lock, mutex_Unlock. run.
    destruct (bs !! name) eqn:Hb; simpl; intros [= _ <-]; [done|]. simpl. split; [done|].
    rewrite lookup_insert_ne; [done|]. intros ->. congruence.
  - destruct (RegisterFactory name f lc s) as [r s0| |] eqn:HR; simpl; [|done..].
    intros [= <-]. by eapply DI_RegisterFactory_state.
  - destruct (Get name s) as [r s0| |] eqn:HG; simpl; [|done..].
    intros [= <-]. apply DI_Get_state in HG as [-> ->]. done.
  - destruct (GetBeansByType order T s) as [r s0| |] eqn:HG; simpl; [|done..].
    apply DI_GetBeansByType_state in HG as ->. by intros [= <-].
  - destruct (Populate order s) as [r s0| |] eqn:HP; simpl; [|done..].
    apply DI_Populate_state in HP as [_ ->]. by intros [= <-].
  - destruct (HasBean name s) as [r s0| |] eqn:HH; simpl; [|done..].
    apply DI_HasBean_state in HH as ->. by intros [= <-].
  - rewrite DI_Count_eq by (by rewrite Hm). by intros [= <-].
Qed.

Lemma DI_after_all_keeps cs : ∀ s s' n b,
  mutex s = sync.Unlocked → beans s !! n = Some b → after_all cs s = Some s' →
  mutex s' = sync.Unlocked ∧ beans s' !! n = Some b.
Proof.
  induction cs as [|c rest IH]; intros s s' n b Hm Hn; simpl.
  { by intros [= <-]. }
  destruct (after c s) as [s1|] eqn:Hc; [|done].
  destruct (DI_after_keeps c s s1 n b Hm Hn Hc) as [Hm1 Hn1]. by apply IH.
Qed.

End DIFacts.

(** ** The claims about the registry *)

Section registry_claims.
Import reflect Examples DIFacts SimpleFacts.

Lemma times_const {S A} (m : M S A) (a : A) (s : S) k :
  m s = Ret a s → times k m s = Ret (replicate k a) s.
Proof.
  intros H. induction k as [|k IH]; simpl; [done|]. run. by rewrite H, IH.
Qed.

Lemma new_struct_allocates t fs : allocates (new_struct t fs).
Proof.
  intros h. exists t, (fresh (dom h)). unfold new_struct. simpl. split_and!; [done| |].
  - apply not_elem_of_dom. apply is_fresh.
  - rewrite lookup_insert_eq. eauto.
Qed.

(** C4, as stated, fails on SimpleContainer for the empty name: it is
    replaced by the type name of the value, so a second registration with
    an empty name and a value of another type succeeds, and nothing is
    ever stored under the empty name. *)
Lemma C4_counterexample :
  SimpleContainer.ProvideWithName "" (VInt 1) (SimpleContainer.NewContainer ∅) = Ret None c4_s1
  ∧ SimpleContainer.ProvideWithName "" (VString "x") c4_s1 = Ret None c4_s2
  ∧ SimpleContainer.Get "" c4_s2 = Ret (VNil, false) c4_s2
  ∧ SimpleContainer.Count c4_s1 = Ret 1 c4_s1
  ∧ SimpleContainer.Count c4_s2 = Ret 2 c4_s2.
Proof. split_and!; reflexivity. Qed.

(** C4 (amended): after a successful registration under [n] (for
    ProvideWithName, a name that is not empty), a second registration
    under [n] returns an error and leaves the whole state as it was; Get
    still returns the first value and Count is what it was. *)
Theorem C4_duplicate_name_rejected :
  (∀ s n v1 v2 s1,
      DIContainer.Provide n v1 s = Ret None s1 →
      (∃ e, DIContainer.Provide n v2 s1 = Ret (Some e) s1)
      ∧ DIContainer.Get n s1 = Ret (v1, true) s1
      ∧ DIContainer.Count s1 = Ret (S (size (DIContainer.beans s))) s1)
  ∧ (∀ s n v1 v2 s1,
      n ≠ "" →
      SimpleContainer.ProvideWithName n v1 s = Ret None s1 →
      (∃ e, SimpleContainer.ProvideWithName n v2 s1 = Ret (Some e) s1)
      ∧ SimpleContainer.Get n s1 = Ret (v1, true) s1
      ∧ SimpleContainer.Count s1 = Ret (S (size (SimpleContainer.beans s))) s1).
Proof.
  split.
  - intros s n v1 v2 s1 H. rewrite DI_Provide_eq in H.
    destruct (DIContainer.mutex s) eqn:Hm; try done.
    destruct (DIContainer.beans s !! n) eqn:Hb; try done.
    injection H as <-. split_and!.
    + eexists. rewrite DI_Provide_eq. simpl. by rewrite lookup_insert_eq.
    + rewrite (DI_Get_stored _ n (DIContainer.mkBean n v1 (TypeOf v1) DIContainer.Singleton None ∅));
        [done|done|apply lookup_insert_eq|done].
    + rewrite DI_Count_eq by done. simpl. by rewrite map_size_insert_None.
  - intros s n v1 v2 s1 Hn H. rewrite ProvideWithName_eq in H.
    destruct (SimpleContainer.mu s) eqn:Hm; try done. simpl in H.
    destruct (decide (n = "")) as [|_]; [done|].
    destruct (SimpleContainer.beans s !! n) eqn:Hb; try done.
    injection H as <-. split_and!.
    + eexists. rewrite ProvideWithName_eq. simpl.
      destruct (decide (n = "")); [done|]. by rewrite lookup_insert_eq.
    + rewrite Get_free by done. unfold lookup_result. simpl. by rewrite lookup_insert_eq.
    + rewrite Count_eq by done. simpl. by rewrite map_size_insert_None.
Qed.

Lemma C4_duplicate_name_rejected_witness :
  ((∃ e, DIContainer.Provide "A" (VInt 2) di_A = Ret (Some e) di_A)
   ∧ DIContainer.Get "A" di_A = Ret (VInt 1, true) di_A
   ∧ DIContainer.Count di_A = Ret 1 di_A)
  ∧ ((∃ e, SimpleContainer.ProvideWithName "A" (VInt 2) simple_A = Ret (Some e) simple_A)
   ∧ SimpleContainer.Get "A" simple_A = Ret (VInt 1, true) simple_A
   ∧ SimpleContainer.Count simple_A = Ret 1 simple_A).
Proof.
  destruct C4_duplicate_name_rejected as [Hdi Hsimple]. split.
  - apply (Hdi (DIContainer.New ∅) "A" (VInt 1) (VInt 2) di_A). reflexivity.
  - apply (Hsimple (SimpleContainer.NewContainer ∅) "A" (VInt 1) (VInt 2) simple_A).
    + discriminate.
    + reflexivity.
Defined.

(** C5: after a successful registration of [v] under [n] (the default
    Singleton lifecycle in DIContainer; a name that is not empty in
    SimpleContainer), any number of successive Get calls each return
    [(v, true)], the stored value itself, and leave the state as it is;
    and so does Get after any sequence of further calls that return,
    Clear and Close apart. *)
Theorem C5_get_after_provide :
  (∀ s n v s1,
      DIContainer.Provide n v s = Ret None s1 →
      (∀ k, times k (DIContainer.Get n) s1 = Ret (replicate k (v, true)) s1)
      ∧ (∀ cs s2, DICalls.after_all cs s1 = Some s2 →
                  DIContainer.Get n s2 = Ret (v, true) s2))
  ∧ (∀ s n v s1,
      n ≠ "" →
      SimpleContainer.ProvideWithName n v s = Ret None s1 →
      (∀ k, times k (SimpleContainer.Get n) s1 = Ret (replicate k (v, true)) s1)
      ∧ (∀ cs s2, SimpleCalls.after_all cs s1 = Some s2 →
                  SimpleContainer.Get n s2 = Ret (v, true) s2)).
Proof.
  split.
  - intros s n v s1 H. rewrite DI_Provide_eq in H.
    destruct (DIContainer.mutex s) eqn:Hm; try done.
    destruct (DIContainer.beans s !! n) eqn:Hb; try done.
    injection H as <-.
    set (b := DIContainer.mkBean n v (TypeOf v) DIContainer.Singleton None ∅).
    split.
    + intros k. apply times_const.
      rewrite (DI_Get_stored _ n b); [done|done|apply lookup_insert_eq|done].
    + intros cs s2 Hcs.
      apply (DI_after_all_keeps cs _ s2 n b) in Hcs as [Hm2 Hb2];
        [|done|apply lookup_insert_eq].
      rewrite (DI_Get_stored s2 n b); [done|by rewrite Hm2|done|done].
  - intros s n v s1 Hn H. rewrite ProvideWithName_eq in H.
    destruct (SimpleContainer.mu s) eqn:Hm; try done. simpl in H.
    destruct (decide (n = "")) as [|_]; [done|].
    destruct (SimpleContainer.beans s !! n) eqn:Hb; try done.
    injection H as <-. split.
    + intros k. apply times_const.
      rewrite Get_free by done. unfold lookup_result. simpl. by rewrite lookup_insert_eq.
    + intros cs s2 Hcs.
      apply (after_all_keeps cs _ s2 n v) in Hcs as [Hm2 Hb2];
        [|done|apply lookup_insert_eq].
      rewrite Get_free by (by rewrite Hm2). unfold lookup_result. by rewrite Hb2.
Qed.

Lemma C5_get_after_provide_witness :
  (times 3 (DIContainer.Get "A") di_A = Ret (replicate 3 (VInt 1, true)) di_A
   ∧ DIContainer.Get "A" di_A_B = Ret (VInt 1, true) di_A_B)
  ∧ (times 3 (SimpleContainer.Get "A") simple_A = Ret (replicate 3 (VInt 1, true)) simple_A
     ∧ SimpleContainer.Get "A" simple_A_B = Ret (VInt 1, true) simple_A_B).
Proof.
  destruct C5_get_after_provide as [Hdi Hsimple]. split.
  - destruct (Hdi (DIContainer.New ∅) "A" (VInt 1) di_A) as [Htimes Hlater]; [reflexivity|].
    split; [apply Htimes|].
    apply (Hlater [DICalls.CallPopulate ["A"]; DICalls.CallProvide "B" (VInt 2);
                   DICalls.CallGet "B"; DICalls.CallCount]).
    reflexivity.
  - destruct (Hsimple (SimpleContainer.NewContainer ∅) "A" (VInt 1) simple_A)
      as [Htimes Hlater]; [discriminate|reflexivity|].
    split; [apply Htimes|].
    apply (Hlater [SimpleCalls.CallPopulate ["A"]; SimpleCalls.CallProvideWithName "B" (VInt 2);
                   SimpleCalls.CallGet "B"; SimpleCalls.CallCount]).
    reflexivity.
Defined.

End registry_claims.

Section prototype_claims.
Import reflect Examples DIFacts DIContainer.

Lemma DI_RegisterWithLifecycle_eq s n v lc :
  RegisterWithLifecycle n v lc s =
    match mutex s with
    | sync.Unlocked =>
        match beans s !! n with
        | Some _ => Ret (Some (already_exists n)) s
        | None =>
            Ret None (mkState (heap s) (<[n := mkBean n v (TypeOf v) lc None ∅]> (beans s))
                        (services s) sync.Unlocked)
        end
    | _ => Deadlock
    end.
Proof.
  destruct s as [h bs sv m]. unfold RegisterWithLifecycle, mutex_Lock, mutex_Unlock. run.
  destruct m; simpl; try done. destruct (bs !! n); done.
Qed.

Lemma DI_RegisterFactory_eq s n f lc :
  RegisterFactory n (Some f) lc s =
    match mutex s with
    | sync.Unlocked =>
        match beans s !! n with
        | Some _ => Ret (Some (already_exists n)) s
        | None =>
            Ret None (mkState (f (heap s)).2
                        (<[n := mkBean n (f (heap s)).1 (TypeOf (f (heap s)).1) lc (Some f) ∅]> (beans s))
                        (services s) sync.Unlocked)
        end
    | _ => Deadlock
    end.
Proof.
  destruct s as [h bs sv m]. unfold RegisterFactory, mutex_Lock, mutex_Unlock, call_factory. run.
  destruct m; simpl; try done. destruct (bs !! n); [done|].
  unfold set_mutex, set_heap, set_beans; simpl. by destruct (f h).
Qed.

(** C6: Get on a Prototype bean with a factory calls the factory and
    returns what this call produced; when the factory constructs, two
    successive calls return different pointers, and neither is the
    instance stored at registration. Without a factory Get returns the
    stored instance with [true], as for a Singleton. *)
Theorem C6_prototype_get :
  (∀ s n b f,
      mutex s ≠ sync.Locked → beans s !! n = Some b →
      Lifecycle_ b = Prototype → Factory b = Some f →
      Get n s = Ret ((f (heap s)).1, true) (set_heap (λ _, (f (heap s)).2) s)
      ∧ (allocates f →
         ∃ v1 s1 v2 s2, Get n s = Ret (v1, true) s1 ∧ Get n s1 = Ret (v2, true) s2
                        ∧ v1 = (f (heap s)).1 ∧ v2 = (f (heap s1)).1 ∧ v1 ≠ v2))
  ∧ (∀ s n b,
      mutex s ≠ sync.Locked → beans s !! n = Some b →
      Lifecycle_ b = Prototype → Factory b = None →
      Get n s = Ret (Value b, true) s)
  ∧ (∀ s n f s1,
      RegisterFactory n (Some f) Prototype s = Ret None s1 →
      Get n s1 = Ret ((f (heap s1)).1, true) (set_heap (λ _, (f (heap s1)).2) s1)
      ∧ (allocates f → ∀ b, beans s1 !! n = Some b → (f (heap s1)).1 ≠ Value b))
  ∧ (∀ s n v s1,
      RegisterWithLifecycle n v Prototype s = Ret None s1 →
      Get n s1 = Ret (v, true) s1).
Proof.
  split_and!.
  - intros s n b f Hm Hb Hl Hf.
    pose proof (DI_Get_factory s n b f Hm Hb Hl Hf) as HG. split; [done|].
    intros Hal. destruct (Hal (heap s)) as (t1 & a1 & Hv1 & Hfresh1 & Hin1).
    set (s1 := set_heap (λ _, (f (heap s)).2) s) in *.
    destruct (Hal (heap s1)) as (t2 & a2 & Hv2 & Hfresh2 & Hin2).
    exists (f (heap s)).1, s1, (f (heap s1)).1, (set_heap (λ _, (f (heap s1)).2) s1).
    split_and!; [done| |done|done|].
    + by apply (DI_Get_factory s1 n b f).
    + rewrite Hv1, Hv2. intros [= -> ->]. simpl in Hfresh2.
      rewrite Hfresh2 in Hin1. by destruct Hin1.
  - intros s n b Hm Hb Hl Hf. apply DI_Get_stored; [done|done|by intros ?].
  - intros s n f s1 H. rewrite DI_RegisterFactory_eq in H.
    destruct (mutex s) eqn:Hm; try done.
    destruct (beans s !! n) eqn:Hb; try done. injection H as <-.
    split.
    + eapply DI_Get_factory; [by simpl|apply lookup_insert_eq|done|done].
    + intros Hal b. simpl. rewrite lookup_insert_eq. intros [= <-]. simpl.
      destruct (Hal (heap s)) as (t1 & a1 & Hv1 & Hfresh1 & Hin1).
      destruct (Hal (f (heap s)).2) as (t2 & a2 & Hv2 & Hfresh2 & Hin2).
      rewrite Hv1, Hv2. intros [= -> ->]. rewrite Hfresh2 in Hin1. by destruct Hin1.
  - intros s n v s1 H. rewrite DI_RegisterWithLifecycle_eq in H.
    destruct (mutex s) eqn:Hm; try done.
    destruct (beans s !! n) eqn:Hb; try done. injection H as <-.
    rewrite (DI_Get_stored _ n (mkBean n v (TypeOf v) Prototype None ∅));
      [done|done|apply lookup_insert_eq|done].
Qed.

Import PrototypeExamples.

Lemma C6_prototype_get_witness :
  (Get "p" di_proto
     = Ret ((new_Widget (heap di_proto)).1, true)
           (set_heap (λ _, (new_Widget (heap di_proto)).2) di_proto)
   ∧ ∃ v1 s1 v2 s2, Get "p" di_proto = Ret (v1, true) s1 ∧ Get "p" s1 = Ret (v2, true) s2
                    ∧ v1 = (new_Widget (heap di_proto)).1 ∧ v2 = (new_Widget (heap s1)).1
                    ∧ v1 ≠ v2)
  ∧ Get "q" di_plain = Ret (VInt 7, true) di_plain
  ∧ (Get "p" di_proto
       = Ret ((new_Widget (heap di_proto)).1, true)
             (set_heap (λ _, (new_Widget (heap di_proto)).2) di_proto)
     ∧ ∀ b, beans di_proto !! "p" = Some b → (new_Widget (heap di_proto)).1 ≠ Value b)
  ∧ Get "q" di_plain = Ret (VInt 7, true) di_plain.
Proof.
  destruct C6_prototype_get as (Hfactory & Hstored & Hregf & Hregl). split_and!.
  - apply (Hfactory di_proto "p"
             (mkBean "p" (VPtr Widget (Some 0)) (Some (TPtr Widget)) Prototype
                (Some new_Widget) ∅) new_Widget); [discriminate|reflexivity..].
  - apply (Hfactory di_proto "p"
             (mkBean "p" (VPtr Widget (Some 0)) (Some (TPtr Widget)) Prototype
                (Some new_Widget) ∅) new_Widget); [discriminate|reflexivity..|].
    apply new_struct_allocates.
  - apply (Hstored di_plain "q" (mkBean "q" (VInt 7) (Some TInt) Prototype None ∅));
      [discriminate|reflexivity..].
  - apply (Hregf (New ∅) "p" new_Widget di_proto). reflexivity.
  - apply (Hregf (New ∅) "p" new_Widget di_proto); [reflexivity|].
    apply new_struct_allocates.
  - apply (Hregl (New ∅) "q" (VInt 7) di_plain). reflexivity.
Defined.

Example prototype_instances_differ :
  ∃ s1 s2, Get "p" di_proto = Ret (VPtr Widget (Some 1), true) s1
           ∧ Get "p" s1 = Ret (VPtr Widget (Some 2), true) s2.
Proof. do 2 eexists. split; reflexivity. Qed.

End prototype_claims.

(** ** The claims about the type queries *)

Section type_query_claims.
Import reflect DIFacts SimpleFacts.

Section GetBeansByType_facts.
Import DIContainer.

Lemma DI_GetBeansByType_range_iface I bs order : ∀ acc s,
  kind I = Interface → typed bs →
  GetBeansByType_range I bs order acc s
    = Ret (acc ++ (Value <$> filter (λ b, matches I b = true) (omap (bs !!.) order)))%list s.
Proof.
  induction order as [|name rest IH]; intros acc s HI Hty; simpl.
  { by rewrite app_nil_r. }
  destruct (bs !! name) as [b|] eqn:Hb; simpl; [|by apply IH].
  rewrite filter_cons. destruct (Hty _ _ Hb) as [t Ht].
  assert (matches I b = bool_decide (t = I) || implements I t) as Hmt.
  { unfold matches. by rewrite Ht. }
  rewrite Ht. destruct (decide (Some t = Some I)) as [Heq|Hne].
  - injection Heq as ->. rewrite bool_decide_eq_true_2 in Hmt by done. simpl in Hmt.
    rewrite decide_True by done. rewrite IH by done. by rewrite <- app_assoc.
  - rewrite bool_decide_eq_false_2 in Hmt by congruence. simpl in Hmt.
    unfold Implements. destruct (decide (kind I = Interface)); [|done]. run.
    rewrite <- Hmt. destruct (matches I b) eqn:Hmb; simpl.
    + rewrite IH by done. by rewrite <- app_assoc.
    + by rewrite IH.
Qed.

Lemma DI_GetBeansByType_iface s order I :
  mutex s ≠ sync.Locked → kind I = Interface → typed (beans s) →
  GetBeansByType order I s
    = Ret (Value <$> filter (λ b, matches I b = true) (omap (beans s !!.) order)) s.
Proof.
  intros Hm HI Hty. destruct s as [h bs sv m].
  unfold GetBeansByType, mutex_RLock, mutex_RUnlock. run.
  destruct m as [|k|]; simpl in *; try done;
    rewrite DI_GetBeansByType_range_iface by done; simpl; done.
Qed.

Lemma DI_GetBeansByType_range_concrete T bs order : ∀ acc s name b,
  kind T ≠ Interface →
  name ∈ order → bs !! name = Some b → Type_ b ≠ Some T →
  ∃ msg, GetBeansByType_range T bs order acc s = Panic msg.
Proof.
  induction order as [|n rest IH]; intros acc s name b HT Hin Hb Hne.
  { by apply elem_of_nil in Hin. }
  simpl. destruct (bs !! n) as [b'|] eqn:Hb'.
  - destruct (decide (Type_ b' = Some T)) as [Heq|Hne'].
    + apply elem_of_cons in Hin as [->|Hin]; [congruence|]. by eapply IH.
    + destruct (Type_ b') as [t|]; [|eexists; reflexivity].
      unfold Implements. destruct (decide (kind T = Interface)); [done|].
      eexists. reflexivity.
  - apply elem_of_cons in Hin as [->|Hin]; [congruence|]. by eapply IH.
Qed.

Lemma DI_GetBeansByType_concrete s order T name b :
  mutex s ≠ sync.Locked → kind T ≠ Interface →
  name ∈ order → beans s !! name = Some b → Type_ b ≠ Some T →
  ∃ msg, GetBeansByType order T s = Panic msg.
Proof.
  intros Hm HT Hin Hb Hne. unfold GetBeansByType, mutex_RLock. run.
  destruct (mutex s) eqn:Hmu; simpl; try done.
  - destruct (DI_GetBeansByType_range_concrete T (beans s) order []
                (set_mutex (sync.RLocked 0) s) name b) as [msg ->]; eauto.
  - destruct (DI_GetBeansByType_range_concrete T (beans s) order []
                (set_mutex (sync.RLocked (S n)) s) name b) as [msg ->]; eauto.
Qed.
End GetBeansByType_facts.

Section GetByType_total_facts.
Import SimpleContainer.

Lemma GetByType_range_total T bs order s :
  kind T ≠ Interface ∨ (∀ name, bs !! name ≠ Some VNil) →
  ∃ r, GetByType_range T bs order s = Ret r s.
Proof.
  intros Hc. induction order as [|n rest IH]; simpl; [eauto|].
  destruct (bs !! n) as [bean|] eqn:Hb; [|done].
  destruct (decide (TypeOf bean = Some T)); [eauto|].
  destruct (decide (kind T = Interface)) as [HI|]; [|done].
  destruct Hc as [|Hc]; [done|].
  destruct (TypeOf bean) as [t|] eqn:Ht.
  - unfold Implements. rewrite decide_True by done. run.
    destruct (implements T t); eauto.
  - destruct bean; try done. by destruct (Hc n).
Qed.

Lemma GetByType_total s order T :
  mu s ≠ sync.Locked →
  kind T ≠ Interface ∨ (∀ name, beans s !! name ≠ Some VNil) →
  ∃ r, GetByType order T s = Ret r s.
Proof.
  intros Hm Hc. unfold GetByType, mu_RLock, mu_RUnlock. run.
  destruct (mu s) eqn:Hmu; simpl; try done.
  - destruct (GetByType_range_total T (beans s) order (set_mu (sync.RLocked 0) s) Hc)
      as [r ->]. simpl. rewrite <- Hmu. destruct s. eauto.
  - destruct (GetByType_range_total T (beans s) order (set_mu (sync.RLocked (S n)) s) Hc)
      as [r ->]. simpl. rewrite <- Hmu. destruct s. eauto.
Qed.
End GetByType_total_facts.

Lemma range_order_elem {V} (m : gmap string V) order name v :
  range_order m order → m !! name = Some v → name ∈ order.
Proof.
  intros [_ Hdom] Hn. apply (elem_of_list_to_set (C := gset string)).
  rewrite Hdom. apply elem_of_dom. eauto.
Qed.

Lemma range_order_two {V} (m : gmap string V) order n1 n2 v1 v2 :
  n1 ≠ n2 → range_order (<[n2 := v2]> (<[n1 := v1]> m)) order → m = ∅ →
  order = [n1; n2] ∨ order = [n2; n1].
Proof.
  intros Hne [Hnd Hdom] ->. apply Permutation_length_2_inv.
  apply NoDup_Permutation.
  - apply NoDup_cons. split; [by intros ->%list_elem_of_singleton|]. apply NoDup_singleton.
  - done.
  - intros x. rewrite <- (elem_of_list_to_set (C := gset string) x order), Hdom.
    rewrite !dom_insert_L, dom_empty_L, !elem_of_union, !elem_of_singleton, elem_of_empty.
    rewrite !elem_of_cons, elem_of_nil. tauto.
Qed.

Section GetByType_first_facts.
Import SimpleContainer.

Lemma GetByType_range_first T bs order s :
  (∀ name, bs !! name ≠ Some VNil) →
  GetByType_range T bs order s
    = Ret (from_option (λ b, (b, true)) (VNil, false)
             (head (filter (λ b, smatches T b = true) (omap (bs !!.) order)))) s.
Proof.
  intros Hnil. induction order as [|n rest IH]; simpl; [done|].
  destruct (bs !! n) as [bean|] eqn:Hb; simpl; [|done].
  rewrite filter_cons. destruct (TypeOf bean) as [t|] eqn:Ht.
  - assert (smatches T bean = bool_decide (t = T) || implements T t) as Hsm.
    { unfold smatches. by rewrite Ht. }
    destruct (decide (Some t = Some T)) as [Heq|Hne].
    + injection Heq as ->. rewrite bool_decide_eq_true_2 in Hsm by done.
      by rewrite decide_True by done.
    + rewrite bool_decide_eq_false_2 in Hsm by congruence. simpl in Hsm.
      destruct (decide (kind T = Interface)) as [HI|HI].
      * unfold Implements. rewrite decide_True by done. run. rewrite <- Hsm.
        destruct (smatches T bean) eqn:Hmb; simpl; [done|]. apply IH.
      * assert (implements T t = false) as Himp by (by destruct T).
        rewrite Himp in Hsm. rewrite decide_False by (by rewrite Hsm). apply IH.
  - destruct bean; try done. by destruct (Hnil n).
Qed.

Lemma GetByType_first s order T :
  mu s ≠ sync.Locked → (∀ name, beans s !! name ≠ Some VNil) →
  GetByType order T s
    = Ret (from_option (λ b, (b, true)) (VNil, false)
             (head (filter (λ b, smatches T b = true) (omap (beans s !!.) order)))) s.
Proof.
  intros Hm Hnil. unfold GetByType, mu_RLock, mu_RUnlock. run.
  destruct (mu s) eqn:Hmu; simpl; try done;
    rewrite GetByType_range_first by done; simpl; rewrite <- Hmu; by destruct s.
Qed.
End GetByType_first_facts.

Section complete.
Import DIContainer.

(** C7: for an interface type [I] and a registry without nil beans,
    GetBeansByType returns the stored values of exactly the beans whose
    type is [I] or implements [I], whatever order the range takes; after
    two registrations under distinct names of values that implement [I]
    in a new container the result has length 2 and contains both.
    GetByType of SimpleContainer returns one matching bean. *)
Theorem C7_GetBeansByType_complete :
  (∀ s order I,
      mutex s ≠ sync.Locked → kind I = Interface → typed (beans s) →
      range_order (beans s) order →
      ∃ result,
        GetBeansByType order I s = Ret result s
        ∧ result = Value <$> filter (λ b, matches I b = true) (omap (beans s !!.) order)
        ∧ (∀ name b, beans s !! name = Some b → matches I b = true → Value b ∈ result)
        ∧ (∀ v, v ∈ result →
             ∃ name b, beans s !! name = Some b ∧ matches I b = true ∧ v = Value b))
  ∧ (∀ h order I n1 n2 v1 v2 t1 t2 s1 s2,
      kind I = Interface → n1 ≠ n2 →
      TypeOf v1 = Some t1 → implements I t1 = true →
      TypeOf v2 = Some t2 → implements I t2 = true →
      Provide n1 v1 (New h) = Ret None s1 → Provide n2 v2 s1 = Ret None s2 →
      range_order (beans s2) order →
      ∃ result, GetBeansByType order I s2 = Ret result s2
                ∧ length result = 2 ∧ v1 ∈ result ∧ v2 ∈ result)
  ∧ (∀ s order I name b,
      SimpleContainer.mu s ≠ sync.Locked →
      (∀ n, SimpleContainer.beans s !! n ≠ Some VNil) →
      range_order (SimpleContainer.beans s) order →
      SimpleContainer.beans s !! name = Some b → smatches I b = true →
      ∃ b', SimpleContainer.GetByType order I s = Ret (b', true) s
            ∧ smatches I b' = true
            ∧ ∃ name', SimpleContainer.beans s !! name' = Some b').
Proof.
  split_and!.
  - intros s order I Hm HI Hty Hord. eexists. split; [by apply DI_GetBeansByType_iface|].
    split; [done|]. split.
    + intros name b Hb Hmt. apply list_elem_of_fmap. exists b. split; [done|].
      apply list_elem_of_filter. split; [done|].
      apply list_elem_of_omap. exists name. split; [|done].
      by eapply range_order_elem.
    + intros v (b & -> & Hin)%list_elem_of_fmap.
      apply list_elem_of_filter in Hin as [Hmt Hin].
      apply list_elem_of_omap in Hin as (name & _ & Hb). eauto.
  - intros h order I n1 n2 v1 v2 t1 t2 s1 s2 HI Hne Ht1 Hi1 Ht2 Hi2 H1 H2 Hord.
    rewrite DI_Provide_eq in H1. unfold New in H1.
    cbn [mutex beans heap services] in H1. rewrite lookup_empty in H1. injection H1 as <-.
    rewrite DI_Provide_eq in H2. cbn [mutex beans heap services] in H2.
    rewrite lookup_insert_ne, lookup_empty in H2 by done. injection H2 as <-.
    cbn [mutex beans heap services] in Hord.
    set (B1 := mkBean n1 v1 (TypeOf v1) Singleton None ∅) in *.
    set (B2 := mkBean n2 v2 (TypeOf v2) Singleton None ∅) in *.
    assert (matches I B1 = true) as Hm1.
    { unfold matches. simpl. rewrite Ht1, Hi1. apply orb_true_r. }
    assert (matches I B2 = true) as Hm2.
    { unfold matches. simpl. rewrite Ht2, Hi2. apply orb_true_r. }
    assert (Value B1 = v1 ∧ Value B2 = v2) as [Hv1 Hv2] by done.
    assert (is_Some (Type_ B1) ∧ is_Some (Type_ B2)) as [Hs1 Hs2] by (simpl; eauto).
    clearbody B1 B2. eexists. split.
    { apply DI_GetBeansByType_iface; [by simpl|done|]. cbn [mutex beans heap services].
      intros name b. rewrite !lookup_insert. repeat case_decide.
      - by intros [= <-].
      - by intros [= <-].
      - by rewrite lookup_empty. }
    cbn [mutex beans heap services].
    destruct (range_order_two _ _ _ _ _ _ Hne Hord eq_refl) as [-> | ->];
      cbn [omap list_omap]; rewrite !lookup_insert_eq;
      rewrite (lookup_insert_ne _ n2 n1), lookup_insert_eq by done;
      rewrite !filter_cons, !decide_True, filter_nil by done;
      cbn [fmap list_fmap]; rewrite Hv1, Hv2;
      (split_and!; [done|by repeat constructor..]).
  - intros s order I name b Hm Hnil Hord Hb Hsm.
    rewrite GetByType_first by done.
    assert (b ∈ filter (λ b, smatches I b = true) (omap (SimpleContainer.beans s !!.) order))
      as Hin.
    { apply list_elem_of_filter. split; [done|]. apply list_elem_of_omap.
      exists name. split; [|done]. by eapply range_order_elem. }
    destruct (filter _ _) as [|b' l] eqn:Hf; [by apply elem_of_nil in Hin|].
    exists b'. simpl. split; [done|].
    assert (b' ∈ filter (λ b, smatches I b = true) (omap (SimpleContainer.beans s !!.) order))
      as Hin' by (rewrite Hf; by constructor).
    apply list_elem_of_filter in Hin' as [Hsm' Hin'].
    apply list_elem_of_omap in Hin' as (name' & _ & Hb'). eauto.
Qed.
End complete.

Section complete_witness.
Import DIContainer TypeExamples.

Lemma range_order_stores : range_order (beans di_stores) ["postgres"; "memory"].
Proof. split; [compute_done|reflexivity]. Qed.

Lemma simple_stores_no_nil n : SimpleContainer.beans simple_stores !! n ≠ Some VNil.
Proof.
  unfold simple_stores. simpl. rewrite lookup_insert. case_decide; [done|].
  rewrite lookup_singleton. by case_decide.
Qed.

Lemma di_stores_typed : typed (beans di_stores).
Proof.
  intros name b. unfold di_stores, di_memory. simpl. rewrite lookup_insert.
  case_decide; [by intros [= <-]|].
  rewrite lookup_singleton. case_decide; [by intros [= <-]|done].
Qed.

Lemma C7_GetBeansByType_complete_witness :
  (∃ result, GetBeansByType ["postgres"; "memory"] DatastoreInterface di_stores
               = Ret result di_stores
             ∧ VPtr Memory (Some 0) ∈ result)
  ∧ (∃ result, GetBeansByType ["postgres"; "memory"] DatastoreInterface di_stores
                 = Ret result di_stores
               ∧ length result = 2
               ∧ VPtr Memory (Some 0) ∈ result ∧ VPtr PostgreSQL (Some 1) ∈ result)
  ∧ ∃ b', SimpleContainer.GetByType ["postgres"; "memory"] DatastoreInterface simple_stores
            = Ret (b', true) simple_stores
          ∧ smatches DatastoreInterface b' = true
          ∧ ∃ name', SimpleContainer.beans simple_stores !! name' = Some b'.
Proof.
  destruct C7_GetBeansByType_complete as (Hall & Htwo & Hfirst). split_and!.
  - destruct (Hall di_stores ["postgres"; "memory"] DatastoreInterface)
      as (result & Hget & _ & Hin & _).
    + discriminate.
    + reflexivity.
    + apply di_stores_typed.
    + apply range_order_stores.
    + exists result. split; [done|].
      apply (Hin "memory" (mkBean "memory" (VPtr Memory (Some 0)) (Some (TPtr Memory))
                             Singleton None ∅)); reflexivity.
  - apply (Htwo stores_heap ["postgres"; "memory"] DatastoreInterface "memory" "postgres"
             (VPtr Memory (Some 0)) (VPtr PostgreSQL (Some 1)) (TPtr Memory) (TPtr PostgreSQL)
             di_memory di_stores); try reflexivity; try discriminate.
    apply range_order_stores.
  - apply (Hfirst simple_stores ["postgres"; "memory"] DatastoreInterface "memory"
             (VPtr Memory (Some 0))).
    + discriminate.
    + apply simple_stores_no_nil.
    + split; [compute_done|reflexivity].
    + reflexivity.
    + reflexivity.
Defined.
End complete_witness.

Section panics.
Import DIContainer TypeExamples.

(** C9: for a target type that is not an interface, GetBeansByType of
    DIContainer panics as soon as the registry holds a bean of another
    type; GetByType of SimpleContainer returns on every such target, and
    on every target when no bean is the nil interface. *)
Theorem C9_GetBeansByType_panics :
  (∀ s order T name b,
      mutex s ≠ sync.Locked → kind T ≠ Interface →
      range_order (beans s) order →
      beans s !! name = Some b → Type_ b ≠ Some T →
      ∃ msg, GetBeansByType order T s = Panic msg)
  ∧ (∀ s order T,
      SimpleContainer.mu s ≠ sync.Locked → kind T ≠ Interface →
      ∃ r, SimpleContainer.GetByType order T s = Ret r s)
  ∧ (∀ s order T,
      SimpleContainer.mu s ≠ sync.Locked →
      (∀ n, SimpleContainer.beans s !! n ≠ Some VNil) →
      ∃ r, SimpleContainer.GetByType order T s = Ret r s).
Proof.
  split_and!.
  - intros s order T name b Hm HT Hord Hb Hne.
    eapply DI_GetBeansByType_concrete; eauto. by eapply range_order_elem.
  - intros s order T Hm HT. apply GetByType_total; auto.
  - intros s order T Hm Hnil. apply GetByType_total; auto.
Qed.

Lemma C9_GetBeansByType_panics_witness :
  (∃ msg, GetBeansByType ["postgres"; "memory"] (TPtr Memory) di_stores = Panic msg)
  ∧ (∃ r, SimpleContainer.GetByType ["postgres"; "memory"] (TPtr Memory) simple_stores
            = Ret r simple_stores)
  ∧ (∃ r, SimpleContainer.GetByType ["postgres"; "memory"] DatastoreInterface simple_stores
            = Ret r simple_stores).
Proof.
  destruct C9_GetBeansByType_panics as (Hpanic & Hconcrete & Htotal). split_and!.
  - apply (Hpanic di_stores ["postgres"; "memory"] (TPtr Memory) "postgres"
             (mkBean "postgres" (VPtr PostgreSQL (Some 1)) (Some (TPtr PostgreSQL))
                Singleton None ∅)).
    + discriminate.
    + discriminate.
    + apply range_order_stores.
    + reflexivity.
    + discriminate.
  - apply (Hconcrete simple_stores ["postgres"; "memory"] (TPtr Memory)); discriminate.
  - apply (Htotal simple_stores ["postgres"; "memory"] DatastoreInterface).
    + discriminate.
    + apply simple_stores_no_nil.
Defined.

(** What the two calls do on these registries. *)
Example GetBeansByType_concrete_target :
  GetBeansByType ["postgres"; "memory"] (TPtr Memory) di_stores
    = Panic "reflect: non-interface type passed to Type.Implements"
  ∧ GetBeansByType ["memory"; "postgres"] (TPtr Memory) di_stores
    = Panic "reflect: non-interface type passed to Type.Implements"
  ∧ SimpleContainer.GetByType ["postgres"; "memory"] (TPtr Memory) simple_stores
    = Ret (VPtr Memory (Some 0), true) simple_stores.
Proof. split_and!; reflexivity. Qed.
End panics.

End type_query_claims.

(** ** The claims about the wiring pass *)

Section wiring_claims.
Import reflect DIFacts SimpleFacts WiringExamples.

Lemma target_Value_ptr h t a :
  target_Value h (VPtr t (Some a)) = mkValue (h !! a) (Some a).
Proof. done. Qed.

Lemma wants_injection_ptr h t a t' fs fd v :
  h !! a = Some (VStruct t' fs) → (fd, v) ∈ fs →
  exported fd = true → Tag_Get fd ≠ "" →
  wants_injection h (VPtr t (Some a)) = true.
Proof.
  intros Ha Hin Hexp Htag. unfold wants_injection, target_Value. simpl.
  unfold Value_Elem, Value_Kind, Value_fields. simpl. rewrite Ha. simpl.
  apply existsb_exists. exists (fd, v). split; [by apply list_elem_of_In|].
  unfold injectable, Field_CanSet. simpl. rewrite Hexp.
  by rewrite bool_decide_eq_false_2 by done.
Qed.

Lemma wants_injection_inv h target :
  wants_injection h target = true →
  ∃ t a t' fs, target = VPtr t (Some a) ∧ h !! a = Some (VStruct t' fs).
Proof.
  unfold wants_injection, target_Value. intros [Hk Hex]%andb_true_iff.
  apply bool_decide_eq_true in Hk.
  destruct target as [| | | |t fs|t [a|]]; simpl in *;
    unfold Value_Elem, Value_Kind in Hk; simpl in Hk; try done.
  - apply existsb_exists in Hex as ([fd v] & _ & Hinj).
    unfold injectable, Field_CanSet in Hinj. simpl in Hinj.
    by rewrite andb_false_r in Hinj.
  - destruct (h !! a) as [[]|] eqn:Ha; try done. by do 4 eexists.
Qed.

(** C8: Populate takes the write lock and, for the first field that is
    marked with a name and can be set, calls Get, which asks for the read
    lock of the same mutex: the goroutine blocks on itself. So Populate
    does not complete on any registry with a bean that is a pointer to a
    struct with such a field, in whatever order the range visits. *)
Theorem C8_Populate_self_deadlocks :
  (∀ s order name t a t' fs fd v,
      SimpleContainer.mu s = sync.Unlocked →
      range_order (SimpleContainer.beans s) order →
      SimpleContainer.beans s !! name = Some (VPtr t (Some a)) →
      SimpleContainer.heap s !! a = Some (VStruct t' fs) → (fd, v) ∈ fs →
      exported fd = true → Tag_Get fd ≠ "" →
      SimpleContainer.Populate order s = Deadlock)
  ∧ (∀ s order name b t a t' fs fd v,
      DIContainer.mutex s = sync.Unlocked →
      range_order (DIContainer.beans s) order →
      DIContainer.beans s !! name = Some b → DIContainer.Value b = VPtr t (Some a) →
      DIContainer.heap s !! a = Some (VStruct t' fs) → (fd, v) ∈ fs →
      exported fd = true → Tag_Get fd ≠ "" →
      DIContainer.Populate order s = Deadlock).
Proof.
  split.
  - intros s order name t a t' fs fd v Hm Hord Hb Ha Hin Hexp Htag.
    rewrite Populate_eq by done.
    rewrite (proj2 (existsb_exists _ _)); [done|].
    exists name. split; [apply list_elem_of_In; by eapply range_order_elem|].
    rewrite Hb. simpl. by eapply wants_injection_ptr.
  - intros s order name b t a t' fs fd v Hm Hord Hb Hv Ha Hin Hexp Htag.
    rewrite DI_Populate_eq by done.
    rewrite (proj2 (existsb_exists _ _)); [done|].
    exists name. split; [apply list_elem_of_In; by eapply range_order_elem|].
    rewrite Hb. simpl. rewrite Hv. by eapply wants_injection_ptr.
Qed.

Lemma range_order_simple_wired :
  range_order (SimpleContainer.beans simple_wired) ["config"; "service"].
Proof. split; [compute_done|reflexivity]. Qed.

Lemma range_order_di_wired :
  range_order (DIContainer.beans di_wired) ["config"; "service"].
Proof. split; [compute_done|reflexivity]. Qed.

Lemma C8_Populate_self_deadlocks_witness :
  SimpleContainer.Populate ["config"; "service"] simple_wired = Deadlock
  ∧ DIContainer.Populate ["config"; "service"] di_wired = Deadlock.
Proof.
  destruct C8_Populate_self_deadlocks as [Hsimple Hdi]. split.
  - apply (Hsimple simple_wired ["config"; "service"] "service" Service 1 Service
             [(Cfg, VPtr Config None)] Cfg (VPtr Config None)).
    + reflexivity.
    + apply range_order_simple_wired.
    + reflexivity.
    + reflexivity.
    + by constructor.
    + reflexivity.
    + discriminate.
  - apply (Hdi di_wired ["config"; "service"] "service"
             (DIContainer.mkBean "service" (VPtr Service (Some 1)) (Some (TPtr Service))
                DIContainer.Singleton None ∅)
             Service 1 Service [(Cfg, VPtr Config None)] Cfg (VPtr Config None)).
    + reflexivity.
    + apply range_order_di_wired.
    + reflexivity.
    + reflexivity.
    + reflexivity.
    + by constructor.
    + reflexivity.
    + discriminate.
Defined.

(** C3: on a registry whose only bean points to a struct with a field
    marked "config", with nothing registered under that name or under the
    name of the field's type, Populate does not return: it blocks in the
    lookup. The wiring pass itself, run with the lock free, returns no
    error and leaves the state, the field included, as it is. *)
Theorem C3_missing_dependency_blocks_Populate :
  SimpleContainer.Populate ["service"] simple_missing = Deadlock
  ∧ DIContainer.Populate ["service"] di_missing = Deadlock
  ∧ SimpleContainer.Get "config" simple_missing = Ret (VNil, false) simple_missing
  ∧ SimpleContainer.Get "*Config" simple_missing = Ret (VNil, false) simple_missing
  ∧ DIContainer.Get "config" di_missing = Ret (VNil, false) di_missing
  ∧ SimpleContainer.injectDependencies ["service"] (VPtr Service (Some 1)) simple_missing
    = Ret None simple_missing
  ∧ DIContainer.injectDependencies (VPtr Service (Some 1)) di_missing
    = Ret None di_missing.
Proof. split_and!; reflexivity. Qed.

Lemma empty_tag_not_injectable rv fd : inject fd = Some "" → injectable rv fd = false.
Proof. intros H. unfold injectable, Tag_Get. by rewrite H. Qed.

(** C1: a field whose marker has an empty value is never resolved: when
    the wiring pass for a pointer to a struct returns, in either
    container, the field holds what it held before. So for the API bean
    of the repository, whose field [ApplicationService] carries the
    marker with an empty value, Populate returns without an error and
    leaves the field nil, although the lookup by the field's type finds
    a registered service, in either order, whose type is assignable to
    the field: the loop leaves the field at its first test of the tag
    value. *)
Theorem C1_empty_marker_is_skipped :
  (∀ s order t a t' fs i fd v e s',
      SimpleContainer.mu s ≠ sync.Locked →
      SimpleContainer.heap s !! a = Some (VStruct t' fs) → fs !! i = Some (fd, v) →
      inject fd = Some "" →
      SimpleContainer.injectDependencies order (VPtr t (Some a)) s = Ret e s' →
      get_field a i (SimpleContainer.heap s') = Some v)
  ∧ (∀ s t a t' fs i fd v e s',
      DIContainer.mutex s ≠ sync.Locked → factories_extend (DIContainer.beans s) →
      DIContainer.heap s !! a = Some (VStruct t' fs) → fs !! i = Some (fd, v) →
      inject fd = Some "" →
      DIContainer.injectDependencies (VPtr t (Some a)) s = Ret e s' →
      get_field a i (DIContainer.heap s') = Some v)
  ∧ SimpleContainer.Provides [VPtr ApplicationService (Some 0); VPtr application (Some 1)]
      (SimpleContainer.NewContainer api_heap) = Ret None simple_api
  ∧ SimpleContainer.Populate ["*api.application"; "*service.ApplicationService"] simple_api
    = Ret None simple_api
  ∧ SimpleContainer.Populate ["*service.ApplicationService"; "*api.application"] simple_api
    = Ret None simple_api
  ∧ DIContainer.Populate ["*api.application"; "*service.ApplicationService"] di_api
    = Ret None di_api
  ∧ DIContainer.Populate ["*service.ApplicationService"; "*api.application"] di_api
    = Ret None di_api
  ∧ get_field 1 0 (SimpleContainer.heap simple_api) = Some VNil
  ∧ inject ApplicationService_field = Some ""
  ∧ SimpleContainer.GetByType ["*api.application"; "*service.ApplicationService"]
      ApplicationServiceInterface simple_api
    = Ret (VPtr ApplicationService (Some 0), true) simple_api
  ∧ SimpleContainer.GetByType ["*service.ApplicationService"; "*api.application"]
      ApplicationServiceInterface simple_api
    = Ret (VPtr ApplicationService (Some 0), true) simple_api
  ∧ AssignableTo (TPtr ApplicationService) ApplicationServiceInterface = true.
Proof.
  split_and!; try reflexivity.
  - intros s order t a t' fs i fd v e s' Hm Ha Hi Hinj.
    rewrite injectDependencies_eq, target_Value_ptr, Ha.
    unfold Value_Kind, Value_fields. simpl. intros Hrun.
    assert (get_field a i (SimpleContainer.heap s) = Some v) as Hv.
    { unfold get_field. by rewrite Ha, Hi. }
    rewrite <- Hv.
    eapply (inject_fields_frame order _ a fs i 0 s e s' fd v); eauto;
      try done; try (by apply empty_tag_not_injectable); by rewrite Hv.
  - intros s t a t' fs i fd v e s' Hm Hfe Ha Hi Hinj.
    rewrite DI_injectDependencies_eq, target_Value_ptr, Ha.
    unfold Value_Kind, Value_fields. simpl. intros Hrun.
    assert (get_field a i (DIContainer.heap s) = Some v) as Hv.
    { unfold get_field. by rewrite Ha, Hi. }
    rewrite <- Hv.
    eapply (DI_inject_fields_frame _ a fs i 0 s e s' fd v); eauto;
      try done; try (by apply empty_tag_not_injectable); by rewrite Hv.
Qed.

Lemma di_api_factories_extend : factories_extend (DIContainer.beans di_api).
Proof.
  intros n b f. unfold di_api. simpl. rewrite lookup_insert.
  case_decide; [by intros [= <-]|].
  rewrite lookup_singleton. case_decide; [by intros [= <-]|done].
Qed.

Lemma C1_empty_marker_is_skipped_witness :
  get_field 1 0 (SimpleContainer.heap simple_api) = Some VNil
  ∧ get_field 1 0 (DIContainer.heap di_api) = Some VNil.
Proof.
  destruct C1_empty_marker_is_skipped as (Hsimple & Hdi & _). split.
  - apply (Hsimple simple_api [] application 1 application
             [(ApplicationService_field, VNil); (handler_field, VPtr ApplicationHandler None)]
             0 ApplicationService_field VNil None simple_api);
      try reflexivity; discriminate.
  - apply (Hdi di_api application 1 application
             [(ApplicationService_field, VNil); (handler_field, VPtr ApplicationHandler None)]
             0 ApplicationService_field VNil None di_api);
      try reflexivity; try discriminate.
    apply di_api_factories_extend.
Defined.

Lemma wants_injection_struct h t fs : wants_injection h (VStruct t fs) = false.
Proof.
  destruct (wants_injection h (VStruct t fs)) eqn:Hw; [|done].
  by apply wants_injection_inv in Hw as (? & ? & ? & ? & ? & ?).
Qed.

(** C10: the wiring pass for a bean held as a struct value returns no
    error and leaves the whole state as it is, whatever the mutex; on a
    registry of such beans, and of beans for which the pass has nothing
    to resolve, Populate returns no error and changes nothing;
    whenever Populate returns, it returns no error and has changed
    nothing; and a wiring pass that changes the state has a target that
    is a pointer to a struct. *)
Theorem C10_struct_value_bean_untouched :
  (∀ s order t fs,
      SimpleContainer.injectDependencies order (VStruct t fs) s = Ret None s)
  ∧ (∀ s t fs, DIContainer.injectDependencies (VStruct t fs) s = Ret None s)
  ∧ (∀ s order,
      SimpleContainer.mu s = sync.Unlocked →
      (∀ name b, SimpleContainer.beans s !! name = Some b →
                 (∃ t fs, b = VStruct t fs)
                 ∨ wants_injection (SimpleContainer.heap s) b = false) →
      SimpleContainer.Populate order s = Ret None s)
  ∧ (∀ s order,
      DIContainer.mutex s = sync.Unlocked →
      (∀ name b, DIContainer.beans s !! name = Some b →
                 (∃ t fs, DIContainer.Value b = VStruct t fs)
                 ∨ wants_injection (DIContainer.heap s) (DIContainer.Value b) = false) →
      DIContainer.Populate order s = Ret None s)
  ∧ (∀ s order e s', SimpleContainer.Populate order s = Ret e s' → e = None ∧ s' = s)
  ∧ (∀ s order e s', DIContainer.Populate order s = Ret e s' → e = None ∧ s' = s)
  ∧ (∀ s order target e s',
      SimpleContainer.injectDependencies order target s = Ret e s' → s' ≠ s →
      ∃ t a t' fs, target = VPtr t (Some a)
                   ∧ SimpleContainer.heap s !! a = Some (VStruct t' fs))
  ∧ (∀ s target e s',
      DIContainer.injectDependencies target s = Ret e s' → s' ≠ s →
      ∃ t a t' fs, target = VPtr t (Some a)
                   ∧ DIContainer.heap s !! a = Some (VStruct t' fs)).
Proof.
  split_and!.
  - intros s order t fs. apply injectDependencies_skip, wants_injection_struct.
  - intros s t fs. apply DI_injectDependencies_skip, wants_injection_struct.
  - intros s order Hm Hall. rewrite Populate_eq by done.
    destruct (existsb _ order) eqn:Hex; [|done].
    apply existsb_exists in Hex as (name & _ & Hw).
    destruct (SimpleContainer.beans s !! name) as [b|] eqn:Hb; [|done]. simpl in Hw.
    destruct (Hall _ _ Hb) as [(t & fs & ->)|Hno]; [|congruence].
    by rewrite wants_injection_struct in Hw.
  - intros s order Hm Hall. rewrite DI_Populate_eq by done.
    destruct (existsb _ order) eqn:Hex; [|done].
    apply existsb_exists in Hex as (name & _ & Hw).
    destruct (DIContainer.beans s !! name) as [b|] eqn:Hb; [|done]. simpl in Hw.
    destruct (Hall _ _ Hb) as [(t & fs & Hv)|Hno]; [|congruence].
    rewrite Hv in Hw. by rewrite wants_injection_struct in Hw.
  - intros s order e s'. apply Populate_state.
  - intros s order e s'. apply DI_Populate_state.
  - intros s order target e s' H Hne.
    destruct (wants_injection (SimpleContainer.heap s) target) eqn:Hw.
    + by apply wants_injection_inv.
    + rewrite injectDependencies_skip in H by done. injection H as <- <-. done.
  - intros s target e s' H Hne.
    destruct (wants_injection (DIContainer.heap s) target) eqn:Hw.
    + by apply wants_injection_inv.
    + rewrite DI_injectDependencies_skip in H by done. injection H as <- <-. done.
Qed.

Lemma all_struct_simple_by_value name b :
  SimpleContainer.beans simple_by_value !! name = Some b →
  (∃ t fs, b = VStruct t fs) ∨ wants_injection (SimpleContainer.heap simple_by_value) b = false.
Proof.
  unfold simple_by_value. simpl. rewrite lookup_insert. case_decide.
  { intros [= <-]. left. by do 2 eexists. }
  rewrite lookup_singleton. case_decide; [|done]. intros [= <-]. left. by do 2 eexists.
Qed.

Lemma all_struct_di_by_value name b :
  DIContainer.beans di_by_value !! name = Some b →
  (∃ t fs, DIContainer.Value b = VStruct t fs)
  ∨ wants_injection (DIContainer.heap di_by_value) (DIContainer.Value b) = false.
Proof.
  unfold di_by_value. simpl. rewrite lookup_insert. case_decide.
  { intros [= <-]. left. by do 2 eexists. }
  rewrite lookup_singleton. case_decide; [|done]. intros [= <-]. left. by do 2 eexists.
Qed.

Lemma simple_wired_changed : simple_wired_after ≠ simple_wired.
Proof.
  intros H. apply (f_equal (λ s, get_field 1 0 (SimpleContainer.heap s))) in H.
  vm_compute in H. discriminate H.
Qed.

Lemma di_wired_changed : di_wired_after ≠ di_wired.
Proof.
  intros H. apply (f_equal (λ s, get_field 1 0 (DIContainer.heap s))) in H.
  vm_compute in H. discriminate H.
Qed.

Lemma C10_struct_value_bean_untouched_witness :
  SimpleContainer.injectDependencies [] service_by_value simple_by_value
    = Ret None simple_by_value
  ∧ DIContainer.injectDependencies service_by_value di_by_value = Ret None di_by_value
  ∧ SimpleContainer.Populate ["config"; "service"] simple_by_value = Ret None simple_by_value
  ∧ DIContainer.Populate ["config"; "service"] di_by_value = Ret None di_by_value
  ∧ (@None error = None ∧ simple_by_value = simple_by_value)
  ∧ (@None error = None ∧ di_by_value = di_by_value)
  ∧ (∃ t a t' fs, VPtr Service (Some 1) = VPtr t (Some a)
                  ∧ SimpleContainer.heap simple_wired !! a = Some (VStruct t' fs))
  ∧ (∃ t a t' fs, VPtr Service (Some 1) = VPtr t (Some a)
                  ∧ DIContainer.heap di_wired !! a = Some (VStruct t' fs)).
Proof.
  destruct C10_struct_value_bean_untouched
    as (Hs & Hd & Hps & Hpd & Hrs & Hrd & Hcs & Hcd).
  split; [apply Hs|].
  split; [apply Hd|].
  split; [apply Hps; [reflexivity|apply all_struct_simple_by_value]|].
  split; [apply Hpd; [reflexivity|apply all_struct_di_by_value]|].
  split; [apply (Hrs simple_by_value ["config"; "service"]); reflexivity|].
  split; [apply (Hrd di_by_value ["config"; "service"]); reflexivity|].
  split.
  - apply (Hcs simple_wired [] (VPtr Service (Some 1)) None simple_wired_after);
      [reflexivity|apply simple_wired_changed].
  - apply (Hcd di_wired (VPtr Service (Some 1)) None di_wired_after);
      [reflexivity|apply di_wired_changed].
Defined.

(** C2 (amended): when the wiring pass for a bean that is a pointer to a
    struct returns, run with the lock free, every exported field marked
    with a name [d] that is not empty, where [d] names a registered bean
    whose value Get returns and whose type is assignable to the field's,
    holds that value; and the pass does return when no registered value
    is nil. *)
Theorem C2_wiring_pass_assigns :
  (∀ s order t a t' fs i fd v d B tB,
      SimpleContainer.mu s ≠ sync.Locked →
      SimpleContainer.heap s !! a = Some (VStruct t' fs) → fs !! i = Some (fd, v) →
      exported fd = true → inject fd = Some d → d ≠ "" →
      SimpleContainer.beans s !! d = Some B →
      TypeOf B = Some tB → AssignableTo tB (field_type fd) = true →
      (∀ e s', SimpleContainer.injectDependencies order (VPtr t (Some a)) s = Ret e s' →
               e = None ∧ get_field a i (SimpleContainer.heap s') = Some B)
      ∧ ((∀ n, SimpleContainer.beans s !! n ≠ Some VNil) →
         ∃ s', SimpleContainer.injectDependencies order (VPtr t (Some a)) s = Ret None s'
               ∧ get_field a i (SimpleContainer.heap s') = Some B))
  ∧ (∀ s t a t' fs i fd v d B tB,
      DIContainer.mutex s ≠ sync.Locked → factories_extend (DIContainer.beans s) →
      DIContainer.heap s !! a = Some (VStruct t' fs) → fs !! i = Some (fd, v) →
      exported fd = true → inject fd = Some d → d ≠ "" →
      DIContainer.beans s !! d = Some B → returns_stored B →
      TypeOf (DIContainer.Value B) = Some tB → AssignableTo tB (field_type fd) = true →
      (∀ e s', DIContainer.injectDependencies (VPtr t (Some a)) s = Ret e s' →
               e = None ∧ get_field a i (DIContainer.heap s') = Some (DIContainer.Value B))
      ∧ (never_nil (DIContainer.beans s) →
         ∃ s', DIContainer.injectDependencies (VPtr t (Some a)) s = Ret None s'
               ∧ get_field a i (DIContainer.heap s') = Some (DIContainer.Value B))).
Proof.
  split.
  - intros s order t a t' fs i fd v d B tB Hm Ha Hi Hexp Hinj Hd HB HtB Hasg.
    assert (∀ e s', SimpleContainer.injectDependencies order (VPtr t (Some a)) s = Ret e s' →
                    e = None ∧ get_field a i (SimpleContainer.heap s') = Some B) as Hpost.
    { intros e s'. rewrite injectDependencies_eq, target_Value_ptr, Ha.
      unfold Value_Kind, Value_fields. simpl. intros Hrun. split.
      - by eapply (inject_fields_kept order _ a) in Hrun as (-> & _).
      - eapply (inject_fields_sets order _ a d B tB fs i 0 s e s' t' fs fd v); eauto; done. }
    split; [done|]. intros Hnil.
    destruct (injectDependencies_returns order (VPtr t (Some a)) s Hm Hnil) as [s' Hrun].
    exists s'. split; [done|]. by eapply Hpost.
  - intros s t a t' fs i fd v d B tB Hm Hfe Ha Hi Hexp Hinj Hd HB Hst HtB Hasg.
    assert (∀ e s', DIContainer.injectDependencies (VPtr t (Some a)) s = Ret e s' →
                    e = None ∧ get_field a i (DIContainer.heap s') = Some (DIContainer.Value B))
      as Hpost.
    { intros e s'. rewrite DI_injectDependencies_eq, target_Value_ptr, Ha.
      unfold Value_Kind, Value_fields. simpl. intros Hrun. split.
      - by eapply (DI_inject_fields_kept _ a) in Hrun as (-> & _).
      - eapply (DI_inject_fields_sets _ a d B tB fs i 0 s e s' t' fs fd v); eauto; done. }
    split; [done|]. intros Hnn.
    destruct (DI_injectDependencies_returns (VPtr t (Some a)) s Hm Hnn) as [s' Hrun].
    exists s'. split; [done|]. by eapply Hpost.
Qed.

(** C2, as stated, fails for a bean registered by value: Populate
    returns, the field is marked with the name of a registered bean of
    the field's own type, and the field still holds its zero value. *)
Lemma C2_counterexample :
  SimpleContainer.Populate ["config"; "service"] simple_by_value = Ret None simple_by_value
  ∧ SimpleContainer.Populate ["service"; "config"] simple_by_value = Ret None simple_by_value
  ∧ DIContainer.Populate ["config"; "service"] di_by_value = Ret None di_by_value
  ∧ DIContainer.Populate ["service"; "config"] di_by_value = Ret None di_by_value
  ∧ SimpleContainer.beans simple_by_value !! "service"
    = Some (VStruct Service [(Cfg_by_value, config_zero)])
  ∧ DIContainer.Value <$> DIContainer.beans di_by_value !! "service"
    = Some (VStruct Service [(Cfg_by_value, config_zero)])
  ∧ inject Cfg_by_value = Some "config"
  ∧ SimpleContainer.beans simple_by_value !! "config" = Some config_8080
  ∧ DIContainer.Value <$> DIContainer.beans di_by_value !! "config" = Some config_8080
  ∧ TypeOf config_8080 = Some Config
  ∧ AssignableTo Config (field_type Cfg_by_value) = true
  ∧ config_zero ≠ config_8080.
Proof. split_and!; try reflexivity. discriminate. Qed.

Lemma simple_wired_no_nil n : SimpleContainer.beans simple_wired !! n ≠ Some VNil.
Proof.
  unfold simple_wired. simpl. rewrite lookup_insert. case_decide; [done|].
  rewrite lookup_singleton. by case_decide.
Qed.

Lemma di_wired_no_factory n b :
  DIContainer.beans di_wired !! n = Some b →
  DIContainer.Factory b = None ∧ DIContainer.Value b ≠ VNil.
Proof.
  unfold di_wired. simpl. rewrite lookup_insert. case_decide; [by intros [= <-]|].
  rewrite lookup_singleton. case_decide; [by intros [= <-]|done].
Qed.

Lemma di_wired_factories_extend : factories_extend (DIContainer.beans di_wired).
Proof. intros n b f Hb Hf. apply di_wired_no_factory in Hb as [Hb _]. congruence. Qed.

Lemma di_wired_never_nil : never_nil (DIContainer.beans di_wired).
Proof.
  intros n b Hb. apply di_wired_no_factory in Hb as [Hf Hv]. split; [done|].
  intros f. congruence.
Qed.

Lemma C2_wiring_pass_assigns_witness :
  (get_field 1 0 (SimpleContainer.heap simple_wired_after) = Some (VPtr Config (Some 0))
   ∧ ∃ s', SimpleContainer.injectDependencies [] (VPtr Service (Some 1)) simple_wired
             = Ret None s'
           ∧ get_field 1 0 (SimpleContainer.heap s') = Some (VPtr Config (Some 0)))
  ∧ (get_field 1 0 (DIContainer.heap di_wired_after) = Some (VPtr Config (Some 0))
     ∧ ∃ s', DIContainer.injectDependencies (VPtr Service (Some 1)) di_wired = Ret None s'
             ∧ get_field 1 0 (DIContainer.heap s') = Some (VPtr Config (Some 0))).
Proof.
  destruct C2_wiring_pass_assigns as [Hsimple Hdi]. split.
  - destruct (Hsimple simple_wired [] Service 1 Service [(Cfg, VPtr Config None)] 0 Cfg
                (VPtr Config None) "config" (VPtr Config (Some 0)) (TPtr Config))
      as [Hpost Htotal]; try reflexivity; try discriminate.
    split.
    + apply (Hpost None simple_wired_after). reflexivity.
    + apply Htotal, simple_wired_no_nil.
  - destruct (Hdi di_wired Service 1 Service [(Cfg, VPtr Config None)] 0 Cfg
                (VPtr Config None) "config"
                (DIContainer.mkBean "config" (VPtr Config (Some 0)) (Some (TPtr Config))
                   DIContainer.Singleton None ∅) (TPtr Config))
      as [Hpost Htotal]; try reflexivity; try discriminate.
    + apply di_wired_factories_extend.
    + split.
      * apply (Hpost None di_wired_after). reflexivity.
      * apply Htotal, di_wired_never_nil.
Defined.

End wiring_claims.

(** * Further properties of the two containers *)

(** ** Reading the registry *)

Section reading_facts.
Import reflect SimpleFacts DIFacts.

Lemma range_order_lookup {V} (m : gmap string V) order name :
  range_order m order → name ∈ order ↔ is_Some (m !! name).
Proof.
  intros [_ Hdom]. rewrite <- (elem_of_list_to_set (C := gset string)), Hdom.
  apply elem_of_dom.
Qed.

Lemma range_order_length {V} (m : gmap string V) order :
  range_order m order → length order = size m.
Proof.
  intros [Hnd Hdom]. rewrite <- size_dom, <- Hdom. symmetry.
  by apply size_list_to_set.
Qed.

Section DI_reading_facts.
Import DIContainer.

Lemma DI_Close_eq s :
  mutex s = sync.Unlocked → Close s = Ret None (mkState (heap s) ∅ ∅ sync.Unlocked).
Proof.
  intros Hm. destruct s as [h bs sv m]. simpl in Hm. subst m.
  unfold Close, mutex_Lock, mutex_Unlock. by run.
Qed.

Lemma DI_HasBean_eq s n :
  mutex s ≠ sync.Locked → HasBean n s = Ret (bool_decide (is_Some (beans s !! n))) s.
Proof.
  intros Hm. destruct s as [h bs sv m]. unfold HasBean, mutex_RLock, mutex_RUnlock. run.
  destruct m as [|k|]; simpl; done.
Qed.

Lemma DI_GetBeanNames_range_eq bs order : ∀ names,
  GetBeanNames_range bs order names
    = (names ++ filter (λ n, is_Some (bs !! n)) order)%list.
Proof.
  induction order as [|n rest IH]; intros names; simpl.
  { by rewrite app_nil_r. }
  rewrite filter_cons. destruct (bs !! n) as [b|] eqn:Hb.
  - rewrite decide_True by eauto. rewrite IH. by rewrite <- app_assoc.
  - rewrite decide_False by (by intros [??]). apply IH.
Qed.

Lemma DI_GetBeanNames_eq s order :
  mutex s ≠ sync.Locked →
  GetBeanNames order s = Ret (filter (λ n, is_Some (beans s !! n)) order) s.
Proof.
  intros Hm. destruct s as [h bs sv m]. unfold GetBeanNames, mutex_RLock, mutex_RUnlock. run.
  destruct m as [|k|]; simpl; try done; by rewrite DI_GetBeanNames_range_eq.
Qed.
End DI_reading_facts.

Section Simple_reading_facts.
Import SimpleContainer.

Lemma Clear_eq s :
  mu s = sync.Unlocked → Clear s = Ret tt (mkState (heap s) ∅ sync.Unlocked).
Proof.
  intros Hm. destruct s as [h bs m]. simpl in Hm. subst m.
  unfold Clear, mu_Lock, mu_Unlock. by run.
Qed.

Lemma HasBean_eq s n :
  mu s ≠ sync.Locked → HasBean n s = Ret (bool_decide (is_Some (beans s !! n))) s.
Proof.
  intros Hm. destruct s as [h bs m]. unfold HasBean, mu_RLock, mu_RUnlock. run.
  destruct m as [|k|]; simpl; done.
Qed.

Lemma ListBeans_range_eq bs order : ∀ names,
  ListBeans_range bs order names
    = (names ++ filter (λ n, is_Some (bs !! n)) order)%list.
Proof.
  induction order as [|n rest IH]; intros names; simpl.
  { by rewrite app_nil_r. }
  rewrite filter_cons. destruct (bs !! n) as [b|] eqn:Hb.
  - rewrite decide_True by eauto. rewrite IH. by rewrite <- app_assoc.
  - rewrite decide_False by (by intros [??]). apply IH.
Qed.

Lemma ListBeans_eq s order :
  mu s ≠ sync.Locked →
  ListBeans order s = Ret (filter (λ n, is_Some (beans s !! n)) order) s.
Proof.
  intros Hm. destruct s as [h bs m]. unfold ListBeans, mu_RLock, mu_RUnlock. run.
  destruct m as [|k|]; simpl; try done; by rewrite ListBeans_range_eq.
Qed.
End Simple_reading_facts.

Lemma filter_all {A} (P : A → Prop) `{∀ x, Decision (P x)} (l : list A) :
  (∀ x, x ∈ l → P x) → filter P l = l.
Proof.
  induction l as [|x l IH]; intros Hall; [done|].
  rewrite filter_cons, decide_True by (apply Hall; by left).
  f_equal. apply IH. intros y Hy. apply Hall. by right.
Qed.

(** X1: Close and Clear of DIContainer, and Clear of SimpleContainer, called
    with the lock free, leave an empty registry and the heap as it was:
    the count is 0, no name is listed, Get finds no name and HasBean
    answers false for every name; clearing again changes nothing, and
    every name can be registered anew. *)
Theorem Close_and_Clear_empty_the_registry :
  (∀ s, DIContainer.mutex s = sync.Unlocked →
     ∃ s', DIContainer.Close s = Ret None s' ∧ DIContainer.Clear s = Ret tt s'
           ∧ DIContainer.heap s' = DIContainer.heap s
           ∧ DIContainer.Count s' = Ret 0 s'
           ∧ (∀ order, DIContainer.GetBeanNames order s' = Ret [] s')
           ∧ (∀ n, DIContainer.Get n s' = Ret (VNil, false) s'
                   ∧ DIContainer.HasBean n s' = Ret false s')
           ∧ DIContainer.Close s' = Ret None s'
           ∧ (∀ n v, ∃ s'', DIContainer.Provide n v s' = Ret None s''
                            ∧ DIContainer.Get n s'' = Ret (v, true) s''))
  ∧ (∀ s, SimpleContainer.mu s = sync.Unlocked →
     ∃ s', SimpleContainer.Clear s = Ret tt s'
           ∧ SimpleContainer.heap s' = SimpleContainer.heap s
           ∧ SimpleContainer.Count s' = Ret 0 s'
           ∧ (∀ order, SimpleContainer.ListBeans order s' = Ret [] s')
           ∧ (∀ n, SimpleContainer.Get n s' = Ret (VNil, false) s'
                   ∧ SimpleContainer.HasBean n s' = Ret false s')
           ∧ SimpleContainer.Clear s' = Ret tt s'
           ∧ (∀ n v, n ≠ "" →
                ∃ s'', SimpleContainer.ProvideWithName n v s' = Ret None s''
                       ∧ SimpleContainer.Get n s'' = Ret (v, true) s'')).
Proof.
  split.
  - intros s Hm. eexists. split; [by apply DI_Close_eq|].
    split. { unfold DIContainer.Clear. run. by rewrite DI_Close_eq. }
    split; [done|]. split. { by rewrite DI_Count_eq. }
    split.
    { intros order. rewrite DI_GetBeanNames_eq by done. simpl. f_equal.
      induction order as [|n rest IH]; [done|].
      rewrite filter_cons, decide_False; [done|]. rewrite lookup_empty. by intros [??]. }
    split.
    { intros n. split; [by rewrite DI_Get_missing|].
      rewrite DI_HasBean_eq by done. simpl. rewrite lookup_empty.
      by rewrite bool_decide_eq_false_2 by (by intros [??]). }
    split; [by rewrite DI_Close_eq|].
    intros n v. eexists. split.
    + rewrite DI_Provide_eq. simpl. by rewrite lookup_empty.
    + rewrite (DI_Get_stored _ n (DIContainer.mkBean n v (TypeOf v) DIContainer.Singleton None ∅));
        [done|done|apply lookup_insert_eq|done].
  - intros s Hm. eexists. split; [by apply Clear_eq|].
    split; [done|]. split. { by rewrite Count_eq. }
    split.
    { intros order. rewrite ListBeans_eq by done. simpl. f_equal.
      induction order as [|n rest IH]; [done|].
      rewrite filter_cons, decide_False; [done|]. rewrite lookup_empty. by intros [??]. }
    split.
    { intros n. split.
      - rewrite Get_free by done. unfold lookup_result. simpl. by rewrite lookup_empty.
      - rewrite HasBean_eq by done. simpl. rewrite lookup_empty.
        by rewrite bool_decide_eq_false_2 by (by intros [??]). }
    split; [by rewrite Clear_eq|].
    intros n v Hn. eexists. split.
    + rewrite ProvideWithName_eq. simpl. rewrite decide_False by done.
      by rewrite lookup_empty.
    + rewrite Get_free by done. unfold lookup_result. simpl. by rewrite lookup_insert_eq.
Qed.


Lemma DI_Get_found s n :
  DIContainer.mutex s ≠ sync.Locked →
  is_Some (DIContainer.beans s !! n) ↔ ∃ v s', DIContainer.Get n s = Ret (v, true) s'.
Proof.
  intros Hm. split.
  - intros [b Hb].
    destruct (DIContainer.Lifecycle_eq_dec (DIContainer.Lifecycle_ b) DIContainer.Prototype)
      as [Hl|Hl];
      [destruct (DIContainer.Factory b) as [f|] eqn:Hf|].
    + eexists _, _. by apply (DI_Get_factory s n b f).
    + exists (DIContainer.Value b), s. apply DI_Get_stored; [done|done|by intros _].
    + exists (DIContainer.Value b), s. apply DI_Get_stored; [done|done|]. by intros ?.
  - intros (v & s' & HG). destruct (DIContainer.beans s !! n) eqn:Hb; [by eexists|].
    by rewrite DI_Get_missing in HG.
Qed.

(** X2: the readers of the registry agree, in either container: with the
    lock free, and whatever order the range takes, GetBeanNames
    (ListBeans) returns the registered names, each once, in that order;
    Count returns their number; HasBean answers whether a name is one of
    them; and Get finds exactly these names. All of them leave the state
    as it is. *)
Theorem names_Count_HasBean_and_Get_agree :
  (∀ s order,
     DIContainer.mutex s ≠ sync.Locked → range_order (DIContainer.beans s) order →
     DIContainer.GetBeanNames order s = Ret order s
     ∧ DIContainer.Count s = Ret (length order) s
     ∧ (∀ n, DIContainer.HasBean n s = Ret (bool_decide (n ∈ order)) s)
     ∧ (∀ n, n ∈ order ↔ ∃ v s', DIContainer.Get n s = Ret (v, true) s'))
  ∧ (∀ s order,
     SimpleContainer.mu s ≠ sync.Locked → range_order (SimpleContainer.beans s) order →
     SimpleContainer.ListBeans order s = Ret order s
     ∧ SimpleContainer.Count s = Ret (length order) s
     ∧ (∀ n, SimpleContainer.HasBean n s = Ret (bool_decide (n ∈ order)) s)
     ∧ (∀ n, n ∈ order ↔ ∃ v, SimpleContainer.Get n s = Ret (v, true) s)).
Proof.
  split.
  - intros s order Hm Hord. split_and!.
    + rewrite DI_GetBeanNames_eq by done. f_equal. apply filter_all.
      intros n Hn. by apply (range_order_lookup _ order).
    + rewrite DI_Count_eq by done. f_equal. symmetry. by apply range_order_length.
    + intros n. rewrite DI_HasBean_eq by done. f_equal. apply bool_decide_ext.
      symmetry. by apply range_order_lookup.
    + intros n. rewrite (range_order_lookup _ order n Hord). by apply DI_Get_found.
  - intros s order Hm Hord. split_and!.
    + rewrite ListBeans_eq by done. f_equal. apply filter_all.
      intros n Hn. by apply (range_order_lookup _ order).
    + rewrite Count_eq by done. f_equal. symmetry. by apply range_order_length.
    + intros n. rewrite HasBean_eq by done. f_equal. apply bool_decide_ext.
      symmetry. by apply range_order_lookup.
    + intros n. rewrite (range_order_lookup _ order n Hord).
      setoid_rewrite (Get_free s) ; [|done..]. unfold lookup_result.
      destruct (SimpleContainer.beans s !! n) as [v|]; split.
      * by exists v.
      * by eexists.
      * by intros [??].
      * by intros [v [=]].
Qed.

End reading_facts.

(** ** The wiring pass in closed form *)

Section wiring_closed_form.
Import reflect SimpleFacts DIFacts.
#[local] Open Scope list_scope.

Lemma set_heap_insert_id s a x :
  SimpleContainer.heap s !! a = Some x → SimpleContainer.set_heap <[a := x]> s = s.
Proof. intros H. destruct s as [h bs m]. unfold SimpleContainer.set_heap. simpl in *. by rewrite insert_id. Qed.

Lemma set_field_at a k x h t (done todo : list (StructField * value)) fd v :
  length done = k →
  h !! a = Some (VStruct t (done ++ (fd, v) :: todo)) →
  set_field a k x h = <[a := VStruct t (done ++ (fd, x) :: todo)]> h.
Proof.
  intros <- Ha. unfold set_field. rewrite Ha. do 2 f_equal.
  rewrite <- (Nat.add_0_r (length done)). by rewrite alter_app_r.
Qed.

Lemma wired_snoc found rv (done : list (StructField * value)) fv todo :
  ((wired found rv <$> (done ++ [fv])) ++ todo = (wired found rv <$> done) ++ wired found rv fv :: todo)%list.
Proof. by rewrite fmap_app, <- app_assoc. Qed.

Lemma inject_fields_closed order rv a t : ∀ todo done s,
  SimpleContainer.mu s ≠ sync.Locked → cell rv = Some a →
  SimpleContainer.heap s !! a
    = Some (VStruct t ((wired (dependency (SimpleContainer.beans s)) rv <$> done) ++ todo)) →
  SimpleContainer.inject_fields order rv (length done) todo s =
    if existsb (finds_nil (dependency (SimpleContainer.beans s)) rv) todo
    then Panic "reflect: call of reflect.Value.Type on zero Value"
    else Ret None
           (SimpleContainer.set_heap
              <[a := VStruct t (wired (dependency (SimpleContainer.beans s)) rv
                                  <$> (done ++ todo))]> s).
Proof.
  induction todo as [|[fd v] rest IH]; intros done s Hm Ha Hcell.
  { simpl. rewrite app_nil_r in *. by rewrite set_heap_insert_id. }
  assert (∀ s1 x,
    SimpleContainer.mu s1 = SimpleContainer.mu s →
    SimpleContainer.beans s1 = SimpleContainer.beans s →
    SimpleContainer.heap s1
      = <[a := VStruct t ((wired (dependency (SimpleContainer.beans s)) rv <$> done)
                            ++ (fd, x) :: rest)]> (SimpleContainer.heap s) →
    wired (dependency (SimpleContainer.beans s)) rv (fd, v) = (fd, x) →
    SimpleContainer.inject_fields order rv (S (length done)) rest s1 =
      if existsb (finds_nil (dependency (SimpleContainer.beans s)) rv) rest
      then Panic "reflect: call of reflect.Value.Type on zero Value"
      else Ret None
           (SimpleContainer.set_heap
              <[a := VStruct t (wired (dependency (SimpleContainer.beans s)) rv
                                  <$> (done ++ (fd, v) :: rest))]> s)) as Hnext.
  { intros s1 x Hm1 Hb1 Hh1 Hw.
    specialize (IH (done ++ [(fd, v)]) s1).
    rewrite length_app, Nat.add_1_r, Hb1 in IH. rewrite IH.
    - destruct (existsb _ rest); [done|]. f_equal.
      destruct s as [h bs m], s1 as [h1 bs1 m1]. simpl in *. subst.
      unfold SimpleContainer.set_heap. simpl. rewrite <- app_assoc. simpl.
      by rewrite insert_insert_eq.
    - by rewrite Hm1.
    - done.
    - rewrite Hh1, lookup_insert_eq, wired_snoc, Hw. done. }
  assert (SimpleContainer.heap s
          = <[a := VStruct t ((wired (dependency (SimpleContainer.beans s)) rv <$> done)
                                ++ (fd, v) :: rest)]> (SimpleContainer.heap s)) as Hid.
  { by rewrite insert_id. }
  cbn [existsb]. unfold finds_nil at 1. cbn [fst].
  destruct (injectable rv fd) eqn:Hinj; cbn [andb].
  - unfold injectable in Hinj. apply andb_true_iff in Hinj as [Htag Hset].
    apply negb_true_iff, bool_decide_eq_false in Htag.
    assert (wired (dependency (SimpleContainer.beans s)) rv (fd, v)
            = (fd, match dependency (SimpleContainer.beans s) fd with
                   | Some B => match TypeOf B with
                               | Some tB => if AssignableTo tB (field_type fd) then B else v
                               | None => v
                               end
                   | None => v
                   end)) as Hw.
    { unfold wired, injectable. cbn [fst snd].
      by rewrite bool_decide_eq_false_2, Hset by done. }
    assert (∀ B, dependency (SimpleContainer.beans s) fd = Some B →
      (SimpleContainer.assign_found rv (length done) fd B
         ≫= λ _, SimpleContainer.inject_fields order rv (S (length done)) rest) s
      = if match dependency (SimpleContainer.beans s) fd with
              | Some VNil => true
              | _ => false
              end
             || existsb (finds_nil (dependency (SimpleContainer.beans s)) rv) rest
        then Panic "reflect: call of reflect.Value.Type on zero Value"
        else Ret None
           (SimpleContainer.set_heap
              <[a := VStruct t (wired (dependency (SimpleContainer.beans s)) rv
                                  <$> (done ++ (fd, v) :: rest))]> s)) as Hfound.
    { intros B HB. rewrite HB in Hw. destruct (TypeOf B) as [tB|] eqn:HtB.
      - rewrite HB. assert (match B with VNil => true | _ => false end = false) as ->
          by (by destruct B).
        cbn [orb]. run. rewrite (SimpleFacts.assign_found_typed rv a _ fd B tB) by done.
        destruct (AssignableTo tB (field_type fd)).
        + apply (Hnext _ B); [done|done| |done]. simpl.
          by rewrite (set_field_at a (length done) B _ t
                        (wired (dependency (SimpleContainer.beans s)) rv <$> done) rest fd v)
            by (by rewrite ?length_fmap).
        + by apply (Hnext _ v).
      - destruct B; try done. by rewrite HB. }
    simpl. destruct (decide (Tag_Get fd = "")); [done|]. rewrite Hset. simpl.
    run. rewrite SimpleFacts.Get_free by done. unfold lookup_result.
    unfold dependency in *.
    destruct (SimpleContainer.beans s !! Tag_Get fd) as [B|] eqn:HB; simpl.
    { by apply Hfound. }
    rewrite SimpleFacts.Get_free by done. unfold lookup_result.
    destruct (SimpleContainer.beans s !! type_string (field_type fd)) as [B|] eqn:HB'; simpl.
    { by apply Hfound. }
    simpl. by apply (Hnext _ v).
  - assert (SimpleContainer.inject_fields order rv (length done) ((fd, v) :: rest) s
            = SimpleContainer.inject_fields order rv (S (length done)) rest s) as ->.
    { simpl. unfold injectable in Hinj. destruct (decide (Tag_Get fd = "")); [done|].
      rewrite bool_decide_eq_false_2 in Hinj by done. simpl in Hinj. by rewrite Hinj. }
    apply (Hnext _ v); [done|done|done|]. unfold wired. cbn [fst snd]. by rewrite Hinj.
Qed.

Lemma DI_set_heap_insert_id s a x :
  DIContainer.heap s !! a = Some x → DIContainer.set_heap <[a := x]> s = s.
Proof.
  intros H. destruct s as [h bs sv m]. unfold DIContainer.set_heap. simpl in *.
  by rewrite insert_id.
Qed.

Lemma DI_Get_lookup s n :
  DIContainer.mutex s ≠ sync.Locked →
  (∀ b, DIContainer.beans s !! n = Some b → returns_stored b) →
  DIContainer.Get n s
    = Ret (from_option (λ b, (DIContainer.Value b, true)) (VNil, false)
             (DIContainer.beans s !! n)) s.
Proof.
  intros Hm Hst. destruct (DIContainer.beans s !! n) as [b|] eqn:Hb; simpl.
  - apply DI_Get_stored; auto.
  - by apply DI_Get_missing.
Qed.

Lemma DI_inject_fields_closed rv a t : ∀ todo done s,
  DIContainer.mutex s ≠ sync.Locked → cell rv = Some a →
  (∀ n b, DIContainer.beans s !! n = Some b → returns_stored b) →
  DIContainer.heap s !! a
    = Some (VStruct t ((wired (DI_dependency (DIContainer.beans s)) rv <$> done) ++ todo)) →
  DIContainer.inject_fields rv (length done) todo s =
    if existsb (finds_nil (DI_dependency (DIContainer.beans s)) rv) todo
    then Panic "reflect: call of reflect.Value.Type on zero Value"
    else Ret None
           (DIContainer.set_heap
              <[a := VStruct t (wired (DI_dependency (DIContainer.beans s)) rv
                                  <$> (done ++ todo))]> s).
Proof.
  induction todo as [|[fd v] rest IH]; intros done s Hm Ha Hst Hcell.
  { simpl. rewrite app_nil_r in *. by rewrite DI_set_heap_insert_id. }
  assert (∀ s1 x,
    DIContainer.mutex s1 = DIContainer.mutex s →
    DIContainer.beans s1 = DIContainer.beans s →
    DIContainer.services s1 = DIContainer.services s →
    DIContainer.heap s1
      = <[a := VStruct t ((wired (DI_dependency (DIContainer.beans s)) rv <$> done)
                            ++ (fd, x) :: rest)]> (DIContainer.heap s) →
    wired (DI_dependency (DIContainer.beans s)) rv (fd, v) = (fd, x) →
    DIContainer.inject_fields rv (S (length done)) rest s1 =
      if existsb (finds_nil (DI_dependency (DIContainer.beans s)) rv) rest
      then Panic "reflect: call of reflect.Value.Type on zero Value"
      else Ret None
           (DIContainer.set_heap
              <[a := VStruct t (wired (DI_dependency (DIContainer.beans s)) rv
                                  <$> (done ++ (fd, v) :: rest))]> s)) as Hnext.
  { intros s1 x Hm1 Hb1 Hs1 Hh1 Hw.
    specialize (IH (done ++ [(fd, v)]) s1).
    rewrite length_app, Nat.add_1_r, Hb1 in IH. rewrite IH.
    - destruct (existsb _ rest); [done|]. f_equal.
      destruct s as [h bs sv m], s1 as [h1 bs1 sv1 m1]. simpl in *. subst.
      unfold DIContainer.set_heap. simpl. rewrite <- app_assoc. simpl.
      by rewrite insert_insert_eq.
    - by rewrite Hm1.
    - done.
    - done.
    - rewrite Hh1, lookup_insert_eq, wired_snoc, Hw. done. }
  assert (DIContainer.heap s
          = <[a := VStruct t ((wired (DI_dependency (DIContainer.beans s)) rv <$> done)
                                ++ (fd, v) :: rest)]> (DIContainer.heap s)) as Hid.
  { by rewrite insert_id. }
  cbn [existsb]. unfold finds_nil at 1. cbn [fst].
  destruct (injectable rv fd) eqn:Hinj; cbn [andb].
  - unfold injectable in Hinj. apply andb_true_iff in Hinj as [Htag Hset].
    apply negb_true_iff, bool_decide_eq_false in Htag.
    assert (wired (DI_dependency (DIContainer.beans s)) rv (fd, v)
            = (fd, match DI_dependency (DIContainer.beans s) fd with
                   | Some B => match TypeOf B with
                               | Some tB => if AssignableTo tB (field_type fd) then B else v
                               | None => v
                               end
                   | None => v
                   end)) as Hw.
    { unfold wired, injectable. cbn [fst snd].
      by rewrite bool_decide_eq_false_2, Hset by done. }
    simpl. destruct (decide (Tag_Get fd = "")); [done|]. rewrite Hset. simpl.
    run. rewrite DI_Get_lookup by eauto.
    unfold DI_dependency in *.
    destruct (DIContainer.beans s !! Tag_Get fd) as [b|] eqn:HB; simpl in *.
    + destruct (TypeOf (DIContainer.Value b)) as [tB|] eqn:HtB.
      * assert (match DIContainer.Value b with VNil => true | _ => false end = false) as ->
          by (by destruct (DIContainer.Value b)).
        cbn [orb].
        rewrite (DI_assign_found_typed rv a _ fd (DIContainer.Value b) tB) by done.
        destruct (AssignableTo tB (field_type fd)).
        -- apply (Hnext _ (DIContainer.Value b)); [done|done|done| |done]. simpl.
           by rewrite (set_field_at a (length done) (DIContainer.Value b) _ t
                         (wired (λ fd0, DIContainer.Value <$> DIContainer.beans s !! Tag_Get fd0) rv
                            <$> done) rest fd v)
             by (by rewrite ?length_fmap).
        -- by apply (Hnext _ v).
      * destruct (DIContainer.Value b); try done.
    + by apply (Hnext _ v).
  - assert (DIContainer.inject_fields rv (length done) ((fd, v) :: rest) s
            = DIContainer.inject_fields rv (S (length done)) rest s) as ->.
    { simpl. unfold injectable in Hinj. destruct (decide (Tag_Get fd = "")); [done|].
      rewrite bool_decide_eq_false_2 in Hinj by done. simpl in Hinj. by rewrite Hinj. }
    apply (Hnext _ v); [done|done|done|done|]. unfold wired. cbn [fst snd]. by rewrite Hinj.
Qed.

Lemma injectDependencies_ptr_closed s order t a t' fs :
  SimpleContainer.mu s ≠ sync.Locked →
  SimpleContainer.heap s !! a = Some (VStruct t' fs) →
  SimpleContainer.injectDependencies order (VPtr t (Some a)) s =
    if existsb (finds_nil (dependency (SimpleContainer.beans s))
                  (target_Value (SimpleContainer.heap s) (VPtr t (Some a)))) fs
    then Panic "reflect: call of reflect.Value.Type on zero Value"
    else Ret None
           (SimpleContainer.set_heap
              <[a := VStruct t'
                       (wired (dependency (SimpleContainer.beans s))
                          (target_Value (SimpleContainer.heap s) (VPtr t (Some a))) <$> fs)]>
              s).
Proof.
  intros Hm Hcell. rewrite SimpleFacts.injectDependencies_eq.
  set (rv := target_Value (SimpleContainer.heap s) (VPtr t (Some a))).
  assert (rv = mkValue (Some (VStruct t' fs)) (Some a)) as Hrv.
  { unfold rv. by rewrite target_Value_ptr, Hcell. }
  rewrite decide_False by (rewrite Hrv; unfold Value_Kind; simpl; by intros H; apply H).
  replace (Value_fields rv) with fs by (by rewrite Hrv).
  by apply (inject_fields_closed order rv a t' fs [] s); [|rewrite Hrv|].
Qed.

Lemma DI_injectDependencies_ptr_closed s t a t' fs :
  DIContainer.mutex s ≠ sync.Locked →
  (∀ n b, DIContainer.beans s !! n = Some b → returns_stored b) →
  DIContainer.heap s !! a = Some (VStruct t' fs) →
  DIContainer.injectDependencies (VPtr t (Some a)) s =
    if existsb (finds_nil (DI_dependency (DIContainer.beans s))
                  (target_Value (DIContainer.heap s) (VPtr t (Some a)))) fs
    then Panic "reflect: call of reflect.Value.Type on zero Value"
    else Ret None
           (DIContainer.set_heap
              <[a := VStruct t'
                       (wired (DI_dependency (DIContainer.beans s))
                          (target_Value (DIContainer.heap s) (VPtr t (Some a))) <$> fs)]>
              s).
Proof.
  intros Hm Hst Hcell. rewrite DI_injectDependencies_eq.
  set (rv := target_Value (DIContainer.heap s) (VPtr t (Some a))).
  assert (rv = mkValue (Some (VStruct t' fs)) (Some a)) as Hrv.
  { unfold rv. by rewrite target_Value_ptr, Hcell. }
  rewrite decide_False by (rewrite Hrv; unfold Value_Kind; simpl; by intros H; apply H).
  replace (Value_fields rv) with fs by (by rewrite Hrv).
  by apply (DI_inject_fields_closed rv a t' fs [] s); [|rewrite Hrv| |].
Qed.

(** X3: the wiring pass of SimpleContainer, run with the lock free, in
    closed form. For a target that is a pointer to a struct it panics
    when a field it resolves finds the nil interface; else it returns no
    error, and the struct holds in every field that is exported and
    marked with a name the bean of that name, or else the bean
    registered under the name of the field's type, when the type of that
    bean is assignable to the field's, and in every other field what it
    held; the registry, the mutex and the other cells of the heap are as
    before. For every other target it returns no error and changes
    nothing. *)
Theorem Simple_wiring_pass_closed_form s order target :
  SimpleContainer.mu s ≠ sync.Locked →
  SimpleContainer.injectDependencies order target s =
    match target with
    | VPtr _ (Some a) =>
        match SimpleContainer.heap s !! a with
        | Some (VStruct t' fs) =>
            let rv := target_Value (SimpleContainer.heap s) target in
            let found := dependency (SimpleContainer.beans s) in
            if existsb (finds_nil found rv) fs
            then Panic "reflect: call of reflect.Value.Type on zero Value"
            else Ret None
                   (SimpleContainer.set_heap <[a := VStruct t' (wired found rv <$> fs)]> s)
        | _ => Ret None s
        end
    | _ => Ret None s
    end.
Proof.
  intros Hm. destruct (wants_injection (SimpleContainer.heap s) target) eqn:Hw.
  - apply wants_injection_inv in Hw as (t & a & t' & fs & -> & Hcell).
    rewrite Hcell. by apply injectDependencies_ptr_closed.
  - destruct target as [| | | | |t [a|]];
      try (by apply SimpleFacts.injectDependencies_skip).
    destruct (SimpleContainer.heap s !! a) as [[| | | |t' fs|]|] eqn:Hcell;
      try (by apply SimpleFacts.injectDependencies_skip).
    by apply injectDependencies_ptr_closed.
Qed.

(** X4: the same for DIContainer, whose loop looks a name up once, on a
    registry without prototype factories. *)
Theorem DI_wiring_pass_closed_form s target :
  DIContainer.mutex s ≠ sync.Locked →
  (∀ n b, DIContainer.beans s !! n = Some b → returns_stored b) →
  DIContainer.injectDependencies target s =
    match target with
    | VPtr _ (Some a) =>
        match DIContainer.heap s !! a with
        | Some (VStruct t' fs) =>
            let rv := target_Value (DIContainer.heap s) target in
            let found := DI_dependency (DIContainer.beans s) in
            if existsb (finds_nil found rv) fs
            then Panic "reflect: call of reflect.Value.Type on zero Value"
            else Ret None
                   (DIContainer.set_heap <[a := VStruct t' (wired found rv <$> fs)]> s)
        | _ => Ret None s
        end
    | _ => Ret None s
    end.
Proof.
  intros Hm Hst. destruct (wants_injection (DIContainer.heap s) target) eqn:Hw.
  - apply wants_injection_inv in Hw as (t & a & t' & fs & -> & Hcell).
    rewrite Hcell. by apply DI_injectDependencies_ptr_closed.
  - destruct target as [| | | | |t [a|]];
      try (by apply DI_injectDependencies_skip).
    destruct (DIContainer.heap s !! a) as [[| | | |t' fs|]|] eqn:Hcell;
      try (by apply DI_injectDependencies_skip).
    by apply DI_injectDependencies_ptr_closed.
Qed.

End wiring_closed_form.

(** ** Registration in DIContainer *)

Section registration_facts.
Import reflect DIContainer DIFacts.

Lemma DI_RegisterFactory_taken s n b f lc :
  mutex s = sync.Unlocked → beans s !! n = Some b →
  RegisterFactory n f lc s = Ret (Some (already_exists n)) s.
Proof.
  intros Hm Hb. destruct s as [h bs sv m]. simpl in *. subst m.
  unfold RegisterFactory, mutex_Lock, mutex_Unlock. run. by rewrite Hb.
Qed.

Lemma DI_RegisterFactory_nil s n lc :
  mutex s = sync.Unlocked → beans s !! n = None →
  RegisterFactory n None lc s = Panic "invalid memory address or nil pointer dereference".
Proof.
  intros Hm Hb. destruct s as [h bs sv m]. simpl in *. subst m.
  unfold RegisterFactory, mutex_Lock, mutex_Unlock. run. by rewrite Hb.
Qed.

(** X5: once a name is taken, every way to register under it in a
    DIContainer returns the error and leaves the whole state, heap
    included, as it is: the factory passed to RegisterFactory is not
    called, so that even a nil factory is turned down with the error;
    under a free name a nil factory makes RegisterFactory panic. *)
Theorem DI_taken_name_rejects_every_registration :
  (∀ s n b,
      mutex s = sync.Unlocked → beans s !! n = Some b →
      (∀ v, Provide n v s = Ret (Some (already_exists n)) s)
      ∧ (∀ v lc, RegisterWithLifecycle n v lc s = Ret (Some (already_exists n)) s)
      ∧ (∀ f lc, RegisterFactory n f lc s = Ret (Some (already_exists n)) s))
  ∧ (∀ s n lc,
      mutex s = sync.Unlocked → beans s !! n = None →
      ∃ msg, RegisterFactory n None lc s = Panic msg).
Proof.
  split.
  - intros s n b Hm Hb. split_and!.
    + intros v. by rewrite DI_Provide_eq, Hm, Hb.
    + intros v lc. by rewrite DI_RegisterWithLifecycle_eq, Hm, Hb.
    + intros f lc. by apply (DI_RegisterFactory_taken s n b).
  - intros s n lc Hm Hb. eexists. by apply DI_RegisterFactory_nil.
Qed.

(** X6: a bean registered with a factory and a lifecycle other than
    Prototype: the factory is called once, by RegisterFactory, and every
    later Get returns the instance made then and leaves the state as it
    is. *)
Theorem DI_factory_called_once_unless_Prototype s n f lc s1 :
  lc ≠ Prototype →
  RegisterFactory n (Some f) lc s = Ret None s1 →
  heap s1 = (f (heap s)).2
  ∧ services s1 = services s
  ∧ ∀ k, times k (Get n) s1 = Ret (replicate k ((f (heap s)).1, true)) s1.
Proof.
  intros Hlc H. rewrite DI_RegisterFactory_eq in H.
  destruct (mutex s) eqn:Hm; try done.
  destruct (beans s !! n) eqn:Hb; try done. injection H as <-.
  split; [done|]. split; [done|]. intros k. apply times_const.
  rewrite (DI_Get_stored _ n (mkBean n (f (heap s)).1 (TypeOf (f (heap s)).1) lc (Some f) ∅));
    [done|done|apply lookup_insert_eq|]. by intros ?.
Qed.

End registration_facts.

(** ** Provides *)

Section provides_facts.
Import reflect SimpleContainer SimpleFacts.
#[local] Open Scope list_scope.

Lemma provided_lookup_notin vs : ∀ bs n,
  n ∉ Sprintf_T <$> vs → provided bs vs !! n = bs !! n.
Proof.
  induction vs as [|v vs IH]; intros bs n Hn; [done|].
  rewrite fmap_cons, not_elem_of_cons in Hn. destruct Hn as [Hne Hn].
  unfold provided in *. simpl. rewrite IH by done. by rewrite lookup_insert_ne.
Qed.

Lemma provided_lookup_in vs : ∀ bs v,
  NoDup (Sprintf_T <$> vs) → v ∈ vs → provided bs vs !! Sprintf_T v = Some v.
Proof.
  induction vs as [|v0 vs IH]; intros bs v Hnd Hin; [by apply elem_of_nil in Hin|].
  rewrite fmap_cons in Hnd. apply NoDup_cons in Hnd as [Hfresh Hnd].
  apply elem_of_cons in Hin as [->|Hin].
  - change (provided bs (v0 :: vs)) with (provided (<[Sprintf_T v0 := v0]> bs) vs).
    rewrite provided_lookup_notin by done. apply lookup_insert_eq.
  - by apply IH.
Qed.

Lemma provided_size vs : ∀ bs,
  NoDup (Sprintf_T <$> vs) → (∀ v, v ∈ vs → bs !! Sprintf_T v = None) →
  size (provided bs vs) = size bs + length vs.
Proof.
  induction vs as [|v0 vs IH]; intros bs Hnd Hfresh; [simpl; lia|].
  rewrite fmap_cons in Hnd. apply NoDup_cons in Hnd as [Hnotin Hnd].
  change (provided bs (v0 :: vs)) with (provided (<[Sprintf_T v0 := v0]> bs) vs).
  rewrite IH; [|done|].
  - rewrite map_size_insert_None by (apply Hfresh; by left). simpl. lia.
  - intros v Hv. rewrite lookup_insert_ne.
    + apply Hfresh. by right.
    + intros Heq. apply Hnotin. rewrite Heq. by apply list_elem_of_fmap_2.
Qed.

Lemma Provides_cons_eq v vs s :
  Provides (v :: vs) s =
    match mu s with
    | sync.Unlocked =>
        match beans s !! Sprintf_T v with
        | Some _ => Ret (Some ("bean with name '" ++ Sprintf_T v ++ "' already exists")%string) s
        | None => Provides vs (mkState (heap s) (<[Sprintf_T v := v]> (beans s)) sync.Unlocked)
        end
    | _ => Deadlock
    end.
Proof.
  simpl. run. rewrite ProvideWithName_eq. destruct (mu s); try done. simpl.
  by destruct (beans s !! Sprintf_T v).
Qed.

Lemma Provides_all vs : ∀ s,
  mu s = sync.Unlocked →
  NoDup (Sprintf_T <$> vs) → (∀ v, v ∈ vs → beans s !! Sprintf_T v = None) →
  Provides vs s = Ret None (mkState (heap s) (provided (beans s) vs) sync.Unlocked).
Proof.
  induction vs as [|v vs IH]; intros s Hm Hnd Hfresh.
  { destruct s as [h bs m]. simpl in *. by subst. }
  rewrite fmap_cons in Hnd. apply NoDup_cons in Hnd as [Hnotin Hnd].
  rewrite Provides_cons_eq, Hm, Hfresh by (by left).
  rewrite IH; [done|done|done|]. simpl. intros v' Hv'. rewrite lookup_insert_ne.
  - apply Hfresh. by right.
  - intros Heq. apply Hnotin. rewrite Heq. by apply list_elem_of_fmap_2.
Qed.

Lemma Provides_clash pre : ∀ s v rest,
  mu s = sync.Unlocked →
  NoDup (Sprintf_T <$> pre) → (∀ w, w ∈ pre → beans s !! Sprintf_T w = None) →
  is_Some (beans s !! Sprintf_T v) ∨ Sprintf_T v ∈ Sprintf_T <$> pre →
  Provides (pre ++ v :: rest) s
    = Ret (Some ("bean with name '" ++ Sprintf_T v ++ "' already exists")%string)
        (mkState (heap s) (provided (beans s) pre) sync.Unlocked).
Proof.
  induction pre as [|w pre IH]; intros s v rest Hm Hnd Hfresh Hclash.
  - destruct Hclash as [[x Hx]|Hin]; [|by apply elem_of_nil in Hin].
    simpl app. rewrite Provides_cons_eq, Hm, Hx.
    destruct s as [h bs m]. simpl in *. by subst.
  - rewrite fmap_cons in Hnd. apply NoDup_cons in Hnd as [Hnotin Hnd].
    rewrite <- app_comm_cons, Provides_cons_eq, Hm, Hfresh by (by left).
    rewrite IH; [done|done|done| |].
    + simpl. intros w' Hw'. rewrite lookup_insert_ne.
      * apply Hfresh. by right.
      * intros Heq. apply Hnotin. rewrite Heq. by apply list_elem_of_fmap_2.
    + simpl. destruct Hclash as [[x Hx]|Hin].
      * left. destruct (decide (Sprintf_T w = Sprintf_T v)) as [->|Hne].
        -- rewrite lookup_insert_eq. eauto.
        -- rewrite lookup_insert_ne by done. eauto.
      * rewrite fmap_cons in Hin. apply elem_of_cons in Hin as [Heq|Hin]; [|by right].
        left. rewrite Heq, lookup_insert_eq. eauto.
Qed.

(** X7: Provides registers its arguments one by one, each under the name of
    its type. It succeeds exactly when these names are pairwise distinct
    and all free, and then every argument is found under the name of its
    type and the count has grown by their number. At the first argument
    whose name is taken, by the registry or by an earlier argument, it
    stops with the error for that name, and the arguments before it stay
    registered. *)
Theorem Provides_registers_until_first_clash :
  (∀ s vs,
      mu s = sync.Unlocked →
      NoDup (Sprintf_T <$> vs) → (∀ v, v ∈ vs → beans s !! Sprintf_T v = None) →
      ∃ s', Provides vs s = Ret None s'
            ∧ beans s' = provided (beans s) vs ∧ heap s' = heap s ∧ mu s' = sync.Unlocked
            ∧ (∀ v, v ∈ vs → Get (Sprintf_T v) s' = Ret (v, true) s')
            ∧ Count s' = Ret (size (beans s) + length vs) s')
  ∧ (∀ s pre v rest,
      mu s = sync.Unlocked →
      NoDup (Sprintf_T <$> pre) → (∀ w, w ∈ pre → beans s !! Sprintf_T w = None) →
      is_Some (beans s !! Sprintf_T v) ∨ Sprintf_T v ∈ Sprintf_T <$> pre →
      ∃ s', Provides (pre ++ v :: rest) s
              = Ret (Some ("bean with name '" ++ Sprintf_T v ++ "' already exists")%string) s'
            ∧ beans s' = provided (beans s) pre
            ∧ (∀ w, w ∈ pre → Get (Sprintf_T w) s' = Ret (w, true) s'))
  ∧ (∀ s vs s',
      Provides vs s = Ret None s' → vs ≠ [] →
      mu s = sync.Unlocked
      ∧ NoDup (Sprintf_T <$> vs) ∧ (∀ v, v ∈ vs → beans s !! Sprintf_T v = None)).
Proof.
  split_and!.
  - intros s vs Hm Hnd Hfresh. eexists. split; [by apply Provides_all|].
    split_and!; try done.
    + intros v Hv. rewrite Get_free by done. unfold lookup_result. simpl.
      by rewrite provided_lookup_in.
    + rewrite Count_eq by done. simpl. by rewrite provided_size.
  - intros s pre v rest Hm Hnd Hfresh Hclash. eexists. split; [by apply Provides_clash|].
    split; [done|]. intros w Hw. rewrite Get_free by done. unfold lookup_result. simpl.
    by rewrite provided_lookup_in.
  - intros s vs. revert s. induction vs as [|v vs IH]; intros s s' H Hne; [done|].
    rewrite Provides_cons_eq in H. destruct (mu s) eqn:Hm; try done.
    destruct (beans s !! Sprintf_T v) eqn:Hv; [done|].
    split; [done|]. destruct vs as [|v' vs'].
    + split; [apply NoDup_singleton|]. by intros w ->%list_elem_of_singleton.
    + apply IH in H as (_ & Hnd & Hfresh); [|done]. simpl in Hfresh.
      assert (Sprintf_T v ∉ Sprintf_T <$> v' :: vs') as Hnotin.
      { intros (w & Heq & Hw)%list_elem_of_fmap. specialize (Hfresh w Hw).
        by rewrite <- Heq, lookup_insert_eq in Hfresh. }
      split; [rewrite fmap_cons; by apply NoDup_cons|].
      intros w [->|Hw]%elem_of_cons; [done|].
      specialize (Hfresh w Hw). rewrite lookup_insert_ne in Hfresh; [done|].
      intros Heq. apply Hnotin. rewrite Heq. by apply list_elem_of_fmap_2.
Qed.

End provides_facts.

(** ** The methods kept for backward compatibility *)

Section legacy_facts.
Import reflect SimpleFacts DIFacts.



Lemma TypeOf_Elem_ptr {S} x t (s : S) : TypeOf x = Some (TPtr t) → TypeOf_Elem x s = Ret t s.
Proof. intros H. unfold TypeOf_Elem. by rewrite H. Qed.


Lemma Resolve_eq s x t :
  SimpleContainer.mu s ≠ sync.Locked → TypeOf x = Some (TPtr t) →
  SimpleContainer.Resolve x s =
    match SimpleContainer.beans s !! type_string t with
    | Some v => Ret (v, None) s
    | None => Ret (VNil, Some ("service of type " ++ type_string t ++ " not found")) s
    end.
Proof.
  intros Hm Hx. unfold SimpleContainer.Resolve. run. rewrite (TypeOf_Elem_ptr x t) by done.
  rewrite Get_free by done. unfold lookup_result.
  by destruct (SimpleContainer.beans s !! type_string t).
Qed.

Lemma MustResolve_eq s x t :
  SimpleContainer.mu s ≠ sync.Locked → TypeOf x = Some (TPtr t) →
  SimpleContainer.MustResolve x s =
    match SimpleContainer.beans s !! type_string t with
    | Some v => Ret v s
    | None => Panic ("service of type " ++ type_string t ++ " not found")
    end.
Proof.
  intros Hm Hx. unfold SimpleContainer.MustResolve. run. rewrite (Resolve_eq s x t) by done.
  by destruct (SimpleContainer.beans s !! type_string t).
Qed.

Lemma Has_eq s x t :
  SimpleContainer.mu s ≠ sync.Locked → TypeOf x = Some (TPtr t) →
  SimpleContainer.Has x s
    = Ret (bool_decide (is_Some (SimpleContainer.beans s !! type_string t))) s.
Proof.
  intros Hm Hx. unfold SimpleContainer.Has. run. rewrite (TypeOf_Elem_ptr x t) by done.
  by apply HasBean_eq.
Qed.

Lemma RegisterAs_eq s service as_ I :
  SimpleContainer.mu s = sync.Unlocked → TypeOf as_ = Some (TPtr I) →
  type_string I ≠ "" → SimpleContainer.beans s !! type_string I = None →
  SimpleContainer.RegisterAs service as_ s
    = Ret tt (SimpleContainer.mkState (SimpleContainer.heap s)
                (<[type_string I := service]> (SimpleContainer.beans s)) sync.Unlocked).
Proof.
  intros Hm Has HI Hfree. unfold SimpleContainer.RegisterAs. run.
  rewrite (TypeOf_Elem_ptr as_ I) by done. rewrite ProvideWithName_eq, Hm. simpl.
  rewrite decide_False by done. by rewrite Hfree.
Qed.


Lemma DI_Resolve_missing s x t :
  DIContainer.mutex s ≠ sync.Locked → TypeOf x = Some (TPtr t) →
  DIContainer.beans s !! type_string t = None →
  DIContainer.Resolve x s
    = Ret (VNil, Some ("service of type " ++ type_string t ++ " not found")) s.
Proof.
  intros Hm Hx Hb. unfold DIContainer.Resolve. run. rewrite (TypeOf_Elem_ptr x t) by done.
  by rewrite DI_Get_missing.
Qed.

Lemma DI_Resolve_found s x t v s' :
  TypeOf x = Some (TPtr t) →
  DIContainer.Get (type_string t) s = Ret (v, true) s' →
  DIContainer.Resolve x s = Ret (v, None) s'.
Proof.
  intros Hx HG. unfold DIContainer.Resolve. run. rewrite (TypeOf_Elem_ptr x t) by done.
  by rewrite HG.
Qed.

Lemma DI_MustResolve_of_Resolve s x :
  DIContainer.MustResolve x s =
    match DIContainer.Resolve x s with
    | Ret (v, None) s' => Ret v s'
    | Ret (_, Some e) _ => Panic e
    | Panic msg => Panic msg
    | Deadlock => Deadlock
    end.
Proof.
  unfold DIContainer.MustResolve. run.
  destruct (DIContainer.Resolve x s) as [[v [e|]] s'| |]; done.
Qed.

Lemma DI_Has_eq s x t :
  DIContainer.mutex s ≠ sync.Locked → TypeOf x = Some (TPtr t) →
  DIContainer.Has x s
    = Ret (bool_decide (is_Some (DIContainer.beans s !! type_string t))) s.
Proof.
  intros Hm Hx. unfold DIContainer.Has. run. rewrite (TypeOf_Elem_ptr x t) by done.
  by apply DI_HasBean_eq.
Qed.

Lemma DI_RegisterAs_eq s service as_ I :
  DIContainer.mutex s = sync.Unlocked → TypeOf as_ = Some (TPtr I) →
  DIContainer.beans s !! type_string I = None →
  DIContainer.RegisterAs service as_ s
    = Ret tt (DIContainer.mkState (DIContainer.heap s)
                (<[type_string I := DIContainer.mkBean (type_string I) service (TypeOf service)
                                      DIContainer.Singleton None ∅]> (DIContainer.beans s))
                (<[TypeOf service := service]> (DIContainer.services s)) sync.Unlocked).
Proof.
  intros Hm Has Hfree. unfold DIContainer.RegisterAs. run.
  rewrite (TypeOf_Elem_ptr as_ I) by done. by rewrite DI_Provide_eq, Hm, Hfree.
Qed.


(** X8: RegisterAs and Resolve go by the name of the type their second
    argument points to, and by nothing else: whatever [service] is, be
    it nil or of a type that does not implement the interface, after
    RegisterAs of [service] with a pointer to [I] under a free name,
    Resolve and MustResolve with any pointer to [I] return [service]
    with no error and Has answers true, in either container. *)
Theorem RegisterAs_then_Resolve :
  (∀ s service as_ I,
      SimpleContainer.mu s = sync.Unlocked → TypeOf as_ = Some (TPtr I) →
      type_string I ≠ "" → SimpleContainer.beans s !! type_string I = None →
      ∃ s1, SimpleContainer.RegisterAs service as_ s = Ret tt s1
            ∧ ∀ x, TypeOf x = Some (TPtr I) →
                SimpleContainer.Resolve x s1 = Ret (service, None) s1
                ∧ SimpleContainer.MustResolve x s1 = Ret service s1
                ∧ SimpleContainer.Has x s1 = Ret true s1)
  ∧ (∀ s service as_ I,
      DIContainer.mutex s = sync.Unlocked → TypeOf as_ = Some (TPtr I) →
      DIContainer.beans s !! type_string I = None →
      ∃ s1, DIContainer.RegisterAs service as_ s = Ret tt s1
            ∧ ∀ x, TypeOf x = Some (TPtr I) →
                DIContainer.Resolve x s1 = Ret (service, None) s1
                ∧ DIContainer.MustResolve x s1 = Ret service s1
                ∧ DIContainer.Has x s1 = Ret true s1).
Proof.
  split.
  - intros s service as_ I Hm Has HI Hfree. eexists. split; [by apply RegisterAs_eq|].
    intros x Hx. split_and!.
    + rewrite (Resolve_eq _ x I) by done. simpl. by rewrite lookup_insert_eq.
    + rewrite (MustResolve_eq _ x I) by done. simpl. by rewrite lookup_insert_eq.
    + rewrite (Has_eq _ x I) by done. simpl. rewrite lookup_insert_eq.
      by rewrite bool_decide_eq_true_2 by eauto.
  - intros s service as_ I Hm Has Hfree. eexists. split; [by apply DI_RegisterAs_eq|].
    intros x Hx.
    set (b := DIContainer.mkBean (type_string I) service (TypeOf service)
                DIContainer.Singleton None ∅).
    match goal with |- DIContainer.Resolve x ?st = _ ∧ _ => set (s1 := st) end.
    assert (DIContainer.Resolve x s1 = Ret (service, None) s1) as HR.
    { apply (DI_Resolve_found _ x I); [done|].
      apply (DI_Get_stored s1 _ b); [done|apply lookup_insert_eq|done]. }
    split_and!; [done| |].
    + by rewrite DI_MustResolve_of_Resolve, HR.
    + rewrite (DI_Has_eq _ x I) by done. simpl. rewrite lookup_insert_eq.
      by rewrite bool_decide_eq_true_2 by eauto.
Qed.


(** X10: Has, Resolve and MustResolve agree: for an argument that points to
    the type [t], with the lock free, when the name of [t] is registered
    Has answers true, Resolve returns a service with no error and
    MustResolve returns the same service; when it is not, Has answers
    false, Resolve returns nil with the error "service of type ... not
    found" and MustResolve panics with that error. *)
Theorem Has_Resolve_MustResolve_agree :
  (∀ s x t,
      SimpleContainer.mu s ≠ sync.Locked → TypeOf x = Some (TPtr t) →
      (∀ v, SimpleContainer.beans s !! type_string t = Some v →
         SimpleContainer.Has x s = Ret true s
         ∧ SimpleContainer.Resolve x s = Ret (v, None) s
         ∧ SimpleContainer.MustResolve x s = Ret v s)
      ∧ (SimpleContainer.beans s !! type_string t = None →
         SimpleContainer.Has x s = Ret false s
         ∧ SimpleContainer.Resolve x s
           = Ret (VNil, Some ("service of type " ++ type_string t ++ " not found")) s
         ∧ SimpleContainer.MustResolve x s
           = Panic ("service of type " ++ type_string t ++ " not found")))
  ∧ (∀ s x t,
      DIContainer.mutex s ≠ sync.Locked → TypeOf x = Some (TPtr t) →
      (is_Some (DIContainer.beans s !! type_string t) →
         DIContainer.Has x s = Ret true s
         ∧ ∃ v s', DIContainer.Resolve x s = Ret (v, None) s'
                   ∧ DIContainer.MustResolve x s = Ret v s')
      ∧ (DIContainer.beans s !! type_string t = None →
         DIContainer.Has x s = Ret false s
         ∧ DIContainer.Resolve x s
           = Ret (VNil, Some ("service of type " ++ type_string t ++ " not found")) s
         ∧ DIContainer.MustResolve x s
           = Panic ("service of type " ++ type_string t ++ " not found"))).
Proof.
  split.
  - intros s x t Hm Hx. split.
    + intros v Hv. rewrite (Has_eq s x t), (Resolve_eq s x t), (MustResolve_eq s x t), Hv by done.
      by rewrite bool_decide_eq_true_2 by eauto.
    + intros Hv. rewrite (Has_eq s x t), (Resolve_eq s x t), (MustResolve_eq s x t), Hv by done.
      by rewrite bool_decide_eq_false_2 by (by intros [??]).
  - intros s x t Hm Hx. split.
    + intros Hsome. rewrite (DI_Has_eq s x t) by done.
      split; [by rewrite bool_decide_eq_true_2|].
      apply DI_Get_found in Hsome as (v & s' & HG); [|done].
      exists v, s'. rewrite DI_MustResolve_of_Resolve.
      by rewrite (DI_Resolve_found s x t v s').
    + intros Hv. rewrite (DI_Has_eq s x t), DI_MustResolve_of_Resolve,
        (DI_Resolve_missing s x t), Hv by done.
      by rewrite bool_decide_eq_false_2 by (by intros [??]).
Qed.


End legacy_facts.

(** ** What every method keeps *)

Section method_facts.
Import reflect SimpleFacts DIFacts.

Lemma state_after_Some {S A} (r : outcome S A) s' :
  state_after r = Some s' ↔ ∃ a, r = Ret a s'.
Proof.
  destruct r as [a s| |]; simpl; split; try done.
  - intros [= ->]. by exists a.
  - by intros (? & [= _ ->]).
  - by intros [??].
  - by intros [??].
Qed.

Lemma ProvideWithName_keeps n v s e s' :
  SimpleContainer.ProvideWithName n v s = Ret e s' →
  SimpleContainer.mu s' = SimpleContainer.mu s
  ∧ SimpleContainer.heap s' = SimpleContainer.heap s
  ∧ SimpleContainer.beans s ⊆ SimpleContainer.beans s'.
Proof.
  rewrite ProvideWithName_eq. destruct (SimpleContainer.mu s) eqn:Hm; try done. simpl.
  destruct (SimpleContainer.beans s !! _) eqn:Hb.
  - by intros [= _ <-].
  - intros [= _ <-]. simpl. split_and!; [done|done|]. by apply insert_subseteq.
Qed.

Lemma Provides_keeps vs : ∀ s e s',
  SimpleContainer.Provides vs s = Ret e s' →
  SimpleContainer.mu s' = SimpleContainer.mu s
  ∧ SimpleContainer.heap s' = SimpleContainer.heap s
  ∧ SimpleContainer.beans s ⊆ SimpleContainer.beans s'.
Proof.
  induction vs as [|v vs IH]; intros s e s'; simpl.
  { by intros [= _ <-]. }
  run. destruct (SimpleContainer.ProvideWithName "" v s) as [[e1|] s1| |] eqn:H1; try done.
  - intros [= _ <-]. by apply ProvideWithName_keeps in H1.
  - intros H. apply ProvideWithName_keeps in H1 as (Hm1 & Hh1 & Hb1).
    apply IH in H as (Hm & Hh & Hb). split_and!; [congruence|congruence|].
    by etrans.
Qed.

Lemma reader_keeps {A} (m : M SimpleContainer.State A) (f : SimpleContainer.State → A) s r s' :
  (SimpleContainer.mu s ≠ sync.Locked → m s = Ret (f s) s) →
  (SimpleContainer.mu s = sync.Locked → m s = Deadlock) →
  m s = Ret r s' → s' = s.
Proof.
  intros Hfree Hheld H. destruct (sync.RWMutex_eq_dec (SimpleContainer.mu s) sync.Locked) as [Hm|Hm].
  - by rewrite Hheld in H.
  - rewrite Hfree in H by done. by injection H.
Qed.

Lemma Get_state n s r s' : SimpleContainer.Get n s = Ret r s' → s' = s.
Proof.
  apply (reader_keeps _ (λ s, lookup_result (SimpleContainer.beans s) n)).
  - apply Get_free.
  - apply Get_Locked.
Qed.

Lemma Count_state s r s' : SimpleContainer.Count s = Ret r s' → s' = s.
Proof.
  destruct (sync.RWMutex_eq_dec (SimpleContainer.mu s) sync.Locked) as [Hm|Hm].
  - unfold SimpleContainer.Count, SimpleContainer.mu_RLock. run. by rewrite Hm.
  - rewrite Count_eq by done. by intros [= _ <-].
Qed.

Lemma ListBeans_state order s r s' : SimpleContainer.ListBeans order s = Ret r s' → s' = s.
Proof.
  destruct (sync.RWMutex_eq_dec (SimpleContainer.mu s) sync.Locked) as [Hm|Hm].
  - unfold SimpleContainer.ListBeans, SimpleContainer.mu_RLock. run. by rewrite Hm.
  - rewrite ListBeans_eq by done. by intros [= _ <-].
Qed.

Lemma Clear_state s r s' :
  SimpleContainer.Clear s = Ret r s' →
  SimpleContainer.mu s = sync.Unlocked
  ∧ s' = SimpleContainer.mkState (SimpleContainer.heap s) ∅ sync.Unlocked.
Proof.
  destruct (sync.RWMutex_eq_dec (SimpleContainer.mu s) sync.Unlocked) as [Hm|Hm].
  - rewrite Clear_eq by done. by intros [= _ <-].
  - unfold SimpleContainer.Clear, SimpleContainer.mu_Lock. run.
    by destruct (SimpleContainer.mu s).
Qed.

Lemma Resolve_state x s r s' : SimpleContainer.Resolve x s = Ret r s' → s' = s.
Proof.
  unfold SimpleContainer.Resolve. run.
  destruct (TypeOf_Elem x s) as [t s1| |] eqn:Ht; try done.
  assert (s1 = s) as ->.
  { unfold TypeOf_Elem, Type_Elem in Ht. destruct (TypeOf x) as [[]|]; try done.
    by injection Ht. }
  destruct (SimpleContainer.Get (type_string t) s) as [[v found] s2| |] eqn:HG; try done.
  apply Get_state in HG as ->. by destruct found; intros [= _ <-].
Qed.

Lemma TypeOf_Elem_state {S} x (s : S) t s1 : TypeOf_Elem x s = Ret t s1 → s1 = s.
Proof.
  unfold TypeOf_Elem, Type_Elem. destruct (TypeOf x) as [[]|]; try done. by intros [= _ <-].
Qed.

Lemma TypeOf_String_state {S} x (s : S) n s1 : TypeOf_String x s = Ret n s1 → s1 = s.
Proof. unfold TypeOf_String. destruct (TypeOf x); try done. by intros [= _ <-]. Qed.

(** X12: every method of SimpleContainer that returns leaves the mutex and the
    heap as it found them: the lock is given back, and no field of any
    bean is assigned through the methods of the container; and no method
    but Clear removes or replaces a registered bean. From a new
    container, every sequence of calls that all return ends with the
    lock free and the heap of the beginning. *)
Theorem Simple_methods_keep_lock_and_heap :
  (∀ m s s',
      SimpleMethods.invoke m s = Some s' →
      SimpleContainer.mu s' = SimpleContainer.mu s
      ∧ SimpleContainer.heap s' = SimpleContainer.heap s
      ∧ (m ≠ SimpleMethods.MClear → SimpleContainer.beans s ⊆ SimpleContainer.beans s'))
  ∧ (∀ ms h s,
      SimpleMethods.invoke_all ms (SimpleContainer.NewContainer h) = Some s →
      SimpleContainer.mu s = sync.Unlocked ∧ SimpleContainer.heap s = h).
Proof.
  assert (∀ m s s',
      SimpleMethods.invoke m s = Some s' →
      SimpleContainer.mu s' = SimpleContainer.mu s
      ∧ SimpleContainer.heap s' = SimpleContainer.heap s
      ∧ (m ≠ SimpleMethods.MClear → SimpleContainer.beans s ⊆ SimpleContainer.beans s'))
    as Hone.
  { intros m s s' H. destruct m; simpl in H; apply state_after_Some in H as [r H].
    - apply Provides_keeps in H as (? & ? & ?). done.
    - apply ProvideWithName_keeps in H as (? & ? & ?). done.
    - by apply Get_state in H as ->.
    - by apply GetByType_state in H as ->.
    - by apply Populate_state in H as [_ ->].
    - by apply ListBeans_state in H as ->.
    - by apply HasBean_state in H as ->.
    - apply Clear_state in H as [Hm ->]. by simpl.
    - by apply Count_state in H as ->.
    - unfold SimpleContainer.Register in H. run.
      destruct (TypeOf_String service s) as [n s1| |] eqn:Hn; try done.
      apply TypeOf_String_state in Hn as ->.
      destruct (SimpleContainer.ProvideWithName n service s) as [e s2| |] eqn:HP; try done.
      injection H as _ <-. apply ProvideWithName_keeps in HP as (? & ? & ?). done.
    - unfold SimpleContainer.RegisterAs in H. run.
      destruct (TypeOf_Elem as_ s) as [t s1| |] eqn:Hn; try done.
      apply TypeOf_Elem_state in Hn as ->.
      destruct (SimpleContainer.ProvideWithName (type_string t) service s)
        as [e s2| |] eqn:HP; try done.
      injection H as _ <-. apply ProvideWithName_keeps in HP as (? & ? & ?). done.
    - by apply Resolve_state in H as ->.
    - unfold SimpleContainer.MustResolve in H. run.
      destruct (SimpleContainer.Resolve serviceType s) as [[v [e|]] s1| |] eqn:HR; try done.
      injection H as _ <-. by apply Resolve_state in HR as ->.
    - unfold SimpleContainer.Has in H. run.
      destruct (TypeOf_Elem serviceType s) as [t s1| |] eqn:Hn; try done.
      apply TypeOf_Elem_state in Hn as ->. by apply HasBean_state in H as ->. }
  split; [done|].
  intros ms h. 
  assert (∀ s0 s, SimpleMethods.invoke_all ms s0 = Some s →
            SimpleContainer.mu s = SimpleContainer.mu s0
            ∧ SimpleContainer.heap s = SimpleContainer.heap s0) as Hall.
  { induction ms as [|m ms IH]; intros s0 s H; simpl in H.
    - by injection H as <-.
    - destruct (SimpleMethods.invoke m s0) as [s1|] eqn:H1; [|done].
      apply Hone in H1 as (Hm1 & Hh1 & _). apply IH in H as [Hm Hh]. split; congruence. }
  intros s H. by apply Hall in H.
Qed.

Lemma DI_Get_keeps n s r s' :
  DIContainer.Get n s = Ret r s' →
  DIContainer.beans s' = DIContainer.beans s
  ∧ DIContainer.services s' = DIContainer.services s
  ∧ DIContainer.mutex s' = DIContainer.mutex s.
Proof.
  destruct s as [h bs sv m].
  unfold DIContainer.Get, DIContainer.mutex_RLock, DIContainer.mutex_RUnlock,
    DIContainer.call_factory. run.
  destruct m as [|k|]; simpl; try done;
    (destruct (bs !! n) as [b|]; [|by intros [= _ <-]]);
    (destruct (DIContainer.Lifecycle_ b); try (by intros [= _ <-]));
    (destruct (DIContainer.Factory b) as [f|]; [|by intros [= _ <-]]);
    simpl; destruct (f h); simpl; by intros [= _ <-].
Qed.

Lemma DI_Count_state s r s' : DIContainer.Count s = Ret r s' → s' = s.
Proof.
  destruct (sync.RWMutex_eq_dec (DIContainer.mutex s) sync.Locked) as [Hm|Hm].
  - unfold DIContainer.Count, DIContainer.mutex_RLock. run. by rewrite Hm.
  - rewrite DI_Count_eq by done. by intros [= _ <-].
Qed.

Lemma DI_GetBeanNames_state order s r s' :
  DIContainer.GetBeanNames order s = Ret r s' → s' = s.
Proof.
  destruct (sync.RWMutex_eq_dec (DIContainer.mutex s) sync.Locked) as [Hm|Hm].
  - unfold DIContainer.GetBeanNames, DIContainer.mutex_RLock. run. by rewrite Hm.
  - rewrite DI_GetBeanNames_eq by done. by intros [= _ <-].
Qed.

Lemma DI_Close_state s r s' :
  DIContainer.Close s = Ret r s' →
  DIContainer.mutex s = sync.Unlocked
  ∧ s' = DIContainer.mkState (DIContainer.heap s) ∅ ∅ sync.Unlocked.
Proof.
  destruct (sync.RWMutex_eq_dec (DIContainer.mutex s) sync.Unlocked) as [Hm|Hm].
  - rewrite DI_Close_eq by done. by intros [= _ <-].
  - unfold DIContainer.Close, DIContainer.mutex_Lock. run.
    by destruct (DIContainer.mutex s).
Qed.

Lemma DI_Provide_files n v s e s' :
  DIContainer.Provide n v s = Ret e s' → files_one s s' n.
Proof.
  rewrite DI_Provide_eq. destruct (DIContainer.mutex s) eqn:Hm; try done.
  unfold files_one.
  destruct (DIContainer.beans s !! n) eqn:Hb; intros [= _ <-]; (split; [done|]).
  - by left.
  - right. split; [done|].
    exists (DIContainer.mkBean n v (TypeOf v) DIContainer.Singleton None ∅).
    split_and!; try done. by right.
Qed.

Lemma DI_RegisterWithLifecycle_files n v lc s e s' :
  DIContainer.RegisterWithLifecycle n v lc s = Ret e s' → files_one s s' n.
Proof.
  rewrite DI_RegisterWithLifecycle_eq. destruct (DIContainer.mutex s) eqn:Hm; try done.
  unfold files_one.
  destruct (DIContainer.beans s !! n) eqn:Hb; intros [= _ <-]; (split; [done|]).
  - by left.
  - right. split; [done|].
    exists (DIContainer.mkBean n v (TypeOf v) lc None ∅).
    split_and!; try done. by left.
Qed.

Lemma DI_RegisterFactory_files n f lc s e s' :
  DIContainer.RegisterFactory n f lc s = Ret e s' → files_one s s' n.
Proof.
  unfold files_one.
  destruct (sync.RWMutex_eq_dec (DIContainer.mutex s) sync.Unlocked) as [Hm|Hm].
  - destruct (DIContainer.beans s !! n) as [b|] eqn:Hb.
    + rewrite (DI_RegisterFactory_taken s n b) by done. intros [= _ <-].
      split; [done|]. by left.
    + destruct f as [g|].
      * rewrite DI_RegisterFactory_eq, Hm, Hb. intros [= _ <-]. split; [done|].
        right. split; [done|].
        exists (DIContainer.mkBean n (g (DIContainer.heap s)).1
                  (TypeOf (g (DIContainer.heap s)).1) lc (Some g) ∅).
        split_and!; try done. by left.
      * by rewrite DI_RegisterFactory_nil.
  - unfold DIContainer.RegisterFactory, DIContainer.mutex_Lock. run.
    by destruct (DIContainer.mutex s).
Qed.

Lemma files_one_ok s s' n :
  files_one s s' n →
  DIContainer.mutex s' = DIContainer.mutex s
  ∧ (DIMethods.registry_ok s → DIMethods.registry_ok s')
  ∧ DIContainer.beans s ⊆ DIContainer.beans s'.
Proof.
  intros [Hm [->|(Hfree & b & Hname & Htype & Htags & Hbeans & Hm' & Hsv)]]; [done|].
  split; [congruence|]. split; [|rewrite Hbeans; by apply insert_subseteq].
  intros [Hb Hs]. split.
  - intros n' b'. rewrite Hbeans. destruct (decide (n' = n)) as [->|Hne].
    + rewrite lookup_insert_eq. by intros [= <-].
    + rewrite lookup_insert_ne by done. apply Hb.
  - assert (∀ t v, DIContainer.services s !! t = Some v →
              TypeOf v = t
              ∧ ∃ n0 b0, DIContainer.beans s' !! n0 = Some b0 ∧ DIContainer.Value b0 = v)
      as Hold.
    { intros t v Hv. destruct (Hs t v Hv) as (Ht & n0 & b0 & Hb0 & Hv0).
      split; [done|]. exists n0, b0. split; [|done].
      rewrite Hbeans, lookup_insert_ne; [done|]. intros ->. congruence. }
    intros t v. destruct Hsv as [->| ->]; [by apply Hold|].
    destruct (decide (t = TypeOf (DIContainer.Value b))) as [->|Hne].
    + rewrite lookup_insert_eq. intros [= <-]. split; [done|]. exists n, b.
      by rewrite Hbeans, lookup_insert_eq.
    + rewrite lookup_insert_ne by done. by apply Hold.
Qed.

Lemma registry_ok_frame s s' :
  DIContainer.beans s' = DIContainer.beans s →
  DIContainer.services s' = DIContainer.services s →
  DIMethods.registry_ok s → DIMethods.registry_ok s'.
Proof. unfold DIMethods.registry_ok. by intros -> ->. Qed.

Lemma DI_Resolve_keeps x s r s' :
  DIContainer.Resolve x s = Ret r s' →
  DIContainer.beans s' = DIContainer.beans s
  ∧ DIContainer.services s' = DIContainer.services s
  ∧ DIContainer.mutex s' = DIContainer.mutex s.
Proof.
  unfold DIContainer.Resolve. run.
  destruct (TypeOf_Elem x s) as [t s1| |] eqn:Ht; try done.
  apply TypeOf_Elem_state in Ht as ->.
  destruct (DIContainer.Get (type_string t) s) as [[v found] s2| |] eqn:HG; try done.
  apply DI_Get_keeps in HG. by destruct found; intros [= _ <-].
Qed.

(** X13: every method of DIContainer that returns gives the lock back, keeps
    the registry in order (a bean is filed under its own name, with the
    type of its value and no tags; an entry of [services] is the value
    of a registered bean under its type), and, Close and Clear apart,
    removes and replaces no bean. From a new container, every sequence
    of calls that all return ends with the lock free and the registry in
    order. *)
Theorem DI_methods_keep_lock_and_registry :
  (∀ m s s',
      DIMethods.invoke m s = Some s' →
      DIContainer.mutex s' = DIContainer.mutex s
      ∧ (DIMethods.registry_ok s → DIMethods.registry_ok s')
      ∧ (m ≠ DIMethods.MClose → m ≠ DIMethods.MClear →
         DIContainer.beans s ⊆ DIContainer.beans s'))
  ∧ (∀ ms h s,
      DIMethods.invoke_all ms (DIContainer.New h) = Some s →
      DIContainer.mutex s = sync.Unlocked ∧ DIMethods.registry_ok s).
Proof.
  assert (∀ s, DIMethods.registry_ok
                 (DIContainer.mkState (DIContainer.heap s) ∅ ∅ sync.Unlocked)) as Hempty.
  { intros s. split; [intros n b|intros t v]; simpl; by rewrite lookup_empty. }
  assert (∀ m s s',
      DIMethods.invoke m s = Some s' →
      DIContainer.mutex s' = DIContainer.mutex s
      ∧ (DIMethods.registry_ok s → DIMethods.registry_ok s')
      ∧ (m ≠ DIMethods.MClose → m ≠ DIMethods.MClear →
         DIContainer.beans s ⊆ DIContainer.beans s')) as Hone.
  { intros m s s' H. destruct m; simpl in H; apply state_after_Some in H as [r H].
    - apply DI_Provide_files, files_one_ok in H as (? & ? & ?). done.
    - apply DI_Get_keeps in H as (Hb & Hs & Hm). split_and!; [done| |by rewrite Hb].
      by apply registry_ok_frame.
    - by apply DI_Populate_state in H as [_ ->].
    - apply DI_Close_state in H as [Hm ->]. by split_and!.
    - apply DI_RegisterWithLifecycle_files, files_one_ok in H as (? & ? & ?). done.
    - apply DI_RegisterFactory_files, files_one_ok in H as (? & ? & ?). done.
    - by apply DI_GetBeansByType_state in H as ->.
    - by apply DI_GetBeanNames_state in H as ->.
    - by apply DI_HasBean_state in H as ->.
    - unfold DIContainer.Register in H. run.
      destruct (TypeOf_String service s) as [n s1| |] eqn:Hn; try done.
      apply TypeOf_String_state in Hn as ->.
      destruct (DIContainer.Provide n service s) as [e s2| |] eqn:HP; try done.
      injection H as _ <-. apply DI_Provide_files, files_one_ok in HP as (? & ? & ?). done.
    - unfold DIContainer.RegisterAs in H. run.
      destruct (TypeOf_Elem as_ s) as [t s1| |] eqn:Hn; try done.
      apply TypeOf_Elem_state in Hn as ->.
      destruct (DIContainer.Provide (type_string t) service s) as [e s2| |] eqn:HP; try done.
      injection H as _ <-. apply DI_Provide_files, files_one_ok in HP as (? & ? & ?). done.
    - apply DI_Resolve_keeps in H as (Hb & Hs & Hm). split_and!; [done| |by rewrite Hb].
      by apply registry_ok_frame.
    - unfold DIContainer.MustResolve in H. run.
      destruct (DIContainer.Resolve serviceType s) as [[v [e|]] s1| |] eqn:HR; try done.
      injection H as _ <-. apply DI_Resolve_keeps in HR as (Hb & Hs & Hm).
      split_and!; [done| |by rewrite Hb]. by apply registry_ok_frame.
    - unfold DIContainer.Has in H. run.
      destruct (TypeOf_Elem serviceType s) as [t s1| |] eqn:Hn; try done.
      apply TypeOf_Elem_state in Hn as ->. by apply DI_HasBean_state in H as ->.
    - unfold DIContainer.Clear in H. run.
      destruct (DIContainer.Close s) as [e s1| |] eqn:HC; try done.
      injection H as _ <-. apply DI_Close_state in HC as [Hm ->]. by split_and!.
    - by apply DI_Count_state in H as ->. }
  split; [done|].
  intros ms h.
  assert (∀ s0 s, DIMethods.invoke_all ms s0 = Some s →
            DIContainer.mutex s = DIContainer.mutex s0
            ∧ (DIMethods.registry_ok s0 → DIMethods.registry_ok s)) as Hall.
  { induction ms as [|m ms IH]; intros s0 s H; simpl in H.
    - by injection H as <-.
    - destruct (DIMethods.invoke m s0) as [s1|] eqn:H1; [|done].
      apply Hone in H1 as (Hm1 & Hok1 & _). apply IH in H as [Hm Hok].
      split; [congruence|auto]. }
  intros s H. apply Hall in H as [Hm Hok]. split; [done|]. apply Hok.
  split; [intros n b|intros t v]; simpl; by rewrite lookup_empty.
Qed.

End method_facts.

(** ** Which bean a marked field gets *)

Section lookup_precedence.
Import reflect SimpleFacts DIFacts.

Lemma no_nil_finds_none (found : StructField → option value) rv fs :
  (∀ fd, found fd ≠ Some VNil) → existsb (finds_nil found rv) fs = false.
Proof.
  intros Hnil. apply existsb_Forall_false, Forall_forall. intros fv _.
  unfold finds_nil. destruct (injectable rv fv.1); [|done]. simpl.
  destruct (found fv.1) as [[]|] eqn:Hf; try done. by destruct (Hnil fv.1).
Qed.

Lemma get_field_wired a t fs (h : Heap) found rv i fv :
  fs !! i = Some fv →
  get_field a i (<[a := VStruct t (wired found rv <$> fs)]> h) = Some (wired found rv fv).2.
Proof.
  intros Hi. unfold get_field. rewrite lookup_insert_eq, list_lookup_fmap, Hi. done.
Qed.

Lemma dependency_no_nil bs :
  (∀ n, bs !! n ≠ Some VNil) → ∀ fd, dependency bs fd ≠ Some VNil.
Proof.
  intros Hnil fd. unfold dependency. destruct (bs !! Tag_Get fd) as [B|] eqn:HB.
  - rewrite <- HB. apply Hnil.
  - apply Hnil.
Qed.

Lemma DI_dependency_no_nil bs :
  (∀ n b, bs !! n = Some b → DIContainer.Value b ≠ VNil) →
  ∀ fd, DI_dependency bs fd ≠ Some VNil.
Proof.
  intros Hnil fd. unfold DI_dependency. destruct (bs !! Tag_Get fd) as [b|] eqn:HB; [|done].
  simpl. intros [= H]. by apply (Hnil _ _ HB).
Qed.

(** X14: the bean a marked field gets. In SimpleContainer the bean registered
    under the name of the marker comes first: when its type is not
    assignable to the field's, the field keeps its value, and the bean
    registered under the name of the field's type is not tried; that
    bean is assigned when no bean has the marker's name; with neither,
    the field keeps its value. DIContainer looks under the marker's name
    only: with no bean of that name the field keeps its value, whatever
    is registered under the name of its type. In both cases the pass
    returns (no registered value is nil, the lock is free). *)
Theorem marked_field_lookup_precedence :
  (∀ s order t a t' fs i fd v,
      SimpleContainer.mu s ≠ sync.Locked →
      (∀ n, SimpleContainer.beans s !! n ≠ Some VNil) →
      SimpleContainer.heap s !! a = Some (VStruct t' fs) → fs !! i = Some (fd, v) →
      exported fd = true → Tag_Get fd ≠ "" →
      ∃ s', SimpleContainer.injectDependencies order (VPtr t (Some a)) s = Ret None s'
        ∧ (∀ B tB, SimpleContainer.beans s !! Tag_Get fd = Some B → TypeOf B = Some tB →
             AssignableTo tB (field_type fd) = false →
             get_field a i (SimpleContainer.heap s') = Some v)
        ∧ (∀ B tB, SimpleContainer.beans s !! Tag_Get fd = None →
             SimpleContainer.beans s !! type_string (field_type fd) = Some B →
             TypeOf B = Some tB → AssignableTo tB (field_type fd) = true →
             get_field a i (SimpleContainer.heap s') = Some B)
        ∧ (SimpleContainer.beans s !! Tag_Get fd = None →
           SimpleContainer.beans s !! type_string (field_type fd) = None →
           get_field a i (SimpleContainer.heap s') = Some v))
  ∧ (∀ s t a t' fs i fd v,
      DIContainer.mutex s ≠ sync.Locked →
      (∀ n b, DIContainer.beans s !! n = Some b →
              returns_stored b ∧ DIContainer.Value b ≠ VNil) →
      DIContainer.heap s !! a = Some (VStruct t' fs) → fs !! i = Some (fd, v) →
      exported fd = true → Tag_Get fd ≠ "" →
      ∃ s', DIContainer.injectDependencies (VPtr t (Some a)) s = Ret None s'
        ∧ (∀ b tB, DIContainer.beans s !! Tag_Get fd = Some b →
             TypeOf (DIContainer.Value b) = Some tB →
             AssignableTo tB (field_type fd) = false →
             get_field a i (DIContainer.heap s') = Some v)
        ∧ (DIContainer.beans s !! Tag_Get fd = None →
           get_field a i (DIContainer.heap s') = Some v)).
Proof.
  split.
  - intros s order t a t' fs i fd v Hm Hnil Hcell Hi Hexp Htag.
    pose proof (injectDependencies_ptr_closed s order t a t' fs Hm Hcell) as Hpass.
    rewrite no_nil_finds_none in Hpass by (by apply dependency_no_nil).
    eexists. split; [exact Hpass|]. simpl.
    assert (injectable (target_Value (SimpleContainer.heap s) (VPtr t (Some a))) fd = true)
      as Hinj.
    { unfold injectable, Field_CanSet. rewrite target_Value_ptr. simpl.
      by rewrite Hexp, bool_decide_eq_false_2 by done. }
    rewrite (get_field_wired _ _ _ _ _ _ i (fd, v)) by done.
    unfold wired, dependency. cbn [fst snd]. rewrite Hinj. split_and!.
    + intros B tB HB HtB Hasg. by rewrite HB, HtB, Hasg.
    + intros B tB HB HB' HtB Hasg. by rewrite HB, HB', HtB, Hasg.
    + intros HB HB'. by rewrite HB, HB'.
  - intros s t a t' fs i fd v Hm Hbs Hcell Hi Hexp Htag.
    pose proof (DI_injectDependencies_ptr_closed s t a t' fs Hm) as Hpass.
    rewrite no_nil_finds_none in Hpass.
    2: { apply DI_dependency_no_nil. intros n b Hb. by apply (Hbs n b). }
    eexists. split.
    { apply Hpass; [|done]. intros n b Hb. by apply (Hbs n b). }
    simpl.
    assert (injectable (target_Value (DIContainer.heap s) (VPtr t (Some a))) fd = true)
      as Hinj.
    { unfold injectable, Field_CanSet. rewrite target_Value_ptr. simpl.
      by rewrite Hexp, bool_decide_eq_false_2 by done. }
    rewrite (get_field_wired _ _ _ _ _ _ i (fd, v)) by done.
    unfold wired, DI_dependency. cbn [fst snd]. rewrite Hinj. split.
    + intros b tB HB HtB Hasg. rewrite HB. simpl. by rewrite HtB, Hasg.
    + intros HB. by rewrite HB.
Qed.

End lookup_precedence.

(** ** Queries by type *)

Section type_query_facts.
Import reflect SimpleFacts DIFacts.
#[local] Open Scope list_scope.

(** A range order of [m] that starts with the key [n]. *)
Lemma range_order_from {V} (m : gmap string V) n :
  is_Some (m !! n) → range_order m (n :: elements (dom m ∖ {[n]})).
Proof.
  intros Hn. split.
  - apply NoDup_cons. split; [|apply NoDup_elements].
    rewrite elem_of_elements, elem_of_difference, elem_of_singleton. by intros [_ []].
  - rewrite list_to_set_cons, list_to_set_elements_L.
    apply elem_of_dom in Hn. apply set_eq. intros x.
    rewrite elem_of_union, elem_of_difference, elem_of_singleton. split.
    + by intros [->|[? _]].
    + intros Hx. destruct (decide (x = n)); [by left|by right].
Qed.

Lemma GetByType_none s order T :
  SimpleContainer.mu s ≠ sync.Locked →
  (∀ n, SimpleContainer.beans s !! n ≠ Some VNil) →
  range_order (SimpleContainer.beans s) order →
  SimpleContainer.GetByType order T s = Ret (VNil, false) s
  ↔ ∀ n v, SimpleContainer.beans s !! n = Some v → smatches T v = false.
Proof.
  intros Hm Hnil Hord. rewrite GetByType_first by done.
  destruct (head _) as [b|] eqn:Hh; simpl.
  - apply head_Some_elem_of, list_elem_of_filter in Hh as [Hmb Hin].
    apply list_elem_of_omap in Hin as (n & _ & Hb). split.
    + by intros [=].
    + intros Hall. by rewrite (Hall n b Hb) in Hmb.
  - split; [|done]. intros _ n v Hv.
    apply head_None in Hh. destruct (smatches T v) eqn:Hmv; [|done].
    assert (v ∈ filter (λ b, smatches T b = true)
                  (omap (SimpleContainer.beans s !!.) order)) as Hin.
    { apply list_elem_of_filter. split; [done|]. apply list_elem_of_omap.
      exists n. split; [|done]. by eapply range_order_elem. }
    rewrite Hh in Hin. by apply elem_of_nil in Hin.
Qed.

(** X15: GetByType of SimpleContainer returns the first bean of the range that
    matches, so that its result depends on the order the range takes:
    each bean that matches the target is the one returned for some order
    of the range; and it reports that nothing was found exactly when no
    registered bean matches. *)
Theorem GetByType_result_depends_on_range_order :
  (∀ s T n v,
      SimpleContainer.mu s ≠ sync.Locked →
      (∀ n, SimpleContainer.beans s !! n ≠ Some VNil) →
      SimpleContainer.beans s !! n = Some v → smatches T v = true →
      ∃ order, range_order (SimpleContainer.beans s) order
               ∧ SimpleContainer.GetByType order T s = Ret (v, true) s)
  ∧ (∀ s order T,
      SimpleContainer.mu s ≠ sync.Locked →
      (∀ n, SimpleContainer.beans s !! n ≠ Some VNil) →
      range_order (SimpleContainer.beans s) order →
      SimpleContainer.GetByType order T s = Ret (VNil, false) s
      ↔ ∀ n v, SimpleContainer.beans s !! n = Some v → smatches T v = false).
Proof.
  split.
  - intros s T n v Hm Hnil Hn Hmv.
    exists (n :: elements (dom (SimpleContainer.beans s) ∖ {[n]})).
    split; [by apply range_order_from|].
    rewrite GetByType_first by done. simpl. rewrite Hn. simpl.
    by rewrite filter_cons, decide_True by done.
  - intros s order T. apply GetByType_none.
Qed.

Lemma DI_GetBeansByType_range_exact T bs order : ∀ acc s,
  (∀ n b, bs !! n = Some b → DIContainer.Type_ b = Some T) →
  DIContainer.GetBeansByType_range T bs order acc s
    = Ret (acc ++ (DIContainer.Value <$> omap (bs !!.) order)) s.
Proof.
  induction order as [|n rest IH]; intros acc s Hall; simpl.
  { by rewrite app_nil_r. }
  destruct (bs !! n) as [b|] eqn:Hb; simpl; [|by apply IH].
  rewrite decide_True by (by apply (Hall n)). rewrite IH by done.
  by rewrite <- app_assoc.
Qed.

(** X16: GetBeansByType of DIContainer with a target that is not an interface
    returns exactly on the registries all of whose beans have that very
    type, and then it returns the values of them all; so it returns the
    empty list on an empty registry, and on every other registry it is
    of use only when the answer is the whole registry. *)
Theorem GetBeansByType_concrete_type_returns_all_or_panics s order T :
  DIContainer.mutex s ≠ sync.Locked → kind T ≠ Interface →
  range_order (DIContainer.beans s) order →
  ((∀ n b, DIContainer.beans s !! n = Some b → DIContainer.Type_ b = Some T) →
     DIContainer.GetBeansByType order T s
       = Ret (DIContainer.Value <$> omap (DIContainer.beans s !!.) order) s)
  ∧ (∀ r s', DIContainer.GetBeansByType order T s = Ret r s' →
       ∀ n b, DIContainer.beans s !! n = Some b → DIContainer.Type_ b = Some T).
Proof.
  intros Hm HT Hord. split.
  - intros Hall. destruct s as [h bs sv m].
    unfold DIContainer.GetBeansByType, DIContainer.mutex_RLock, DIContainer.mutex_RUnlock. run.
    destruct m as [|k|]; simpl in *; try done;
      rewrite DI_GetBeansByType_range_exact by done; simpl; done.
  - intros r s' H n b Hb.
    destruct (decide (DIContainer.Type_ b = Some T)) as [|Hne]; [done|].
    destruct (DI_GetBeansByType_concrete s order T n b) as [msg Hp]; try done.
    + by eapply range_order_elem.
    + by rewrite Hp in H.
Qed.

End type_query_facts.

(** ** The lock *)

Section lock_facts.
Import reflect SimpleFacts DIFacts.

(** X17: while the write lock is held, no method of either container that
    asks for the lock returns: each blocks at its first step, whatever
    its arguments (Provides with at least one bean, and the methods kept
    for backward compatibility with arguments they can dereference). *)
Theorem held_write_lock_blocks_every_method :
  (∀ s, SimpleContainer.mu s = sync.Locked →
     (∀ n v, SimpleContainer.ProvideWithName n v s = Deadlock)
     ∧ (∀ v vs, SimpleContainer.Provides (v :: vs) s = Deadlock)
     ∧ (∀ n, SimpleContainer.Get n s = Deadlock)
     ∧ (∀ order T, SimpleContainer.GetByType order T s = Deadlock)
     ∧ (∀ order, SimpleContainer.Populate order s = Deadlock)
     ∧ (∀ order, SimpleContainer.ListBeans order s = Deadlock)
     ∧ (∀ n, SimpleContainer.HasBean n s = Deadlock)
     ∧ SimpleContainer.Clear s = Deadlock
     ∧ SimpleContainer.Count s = Deadlock
     ∧ (∀ v t, TypeOf v = Some t → SimpleContainer.Register v s = Deadlock)
     ∧ (∀ v x t, TypeOf x = Some (TPtr t) →
          SimpleContainer.RegisterAs v x s = Deadlock
          ∧ SimpleContainer.Resolve x s = Deadlock
          ∧ SimpleContainer.MustResolve x s = Deadlock
          ∧ SimpleContainer.Has x s = Deadlock))
  ∧ (∀ s, DIContainer.mutex s = sync.Locked →
     (∀ n v, DIContainer.Provide n v s = Deadlock)
     ∧ (∀ n, DIContainer.Get n s = Deadlock)
     ∧ (∀ order, DIContainer.Populate order s = Deadlock)
     ∧ DIContainer.Close s = Deadlock
     ∧ (∀ n v lc, DIContainer.RegisterWithLifecycle n v lc s = Deadlock)
     ∧ (∀ n f lc, DIContainer.RegisterFactory n f lc s = Deadlock)
     ∧ (∀ order T, DIContainer.GetBeansByType order T s = Deadlock)
     ∧ (∀ order, DIContainer.GetBeanNames order s = Deadlock)
     ∧ (∀ n, DIContainer.HasBean n s = Deadlock)
     ∧ DIContainer.Clear s = Deadlock
     ∧ DIContainer.Count s = Deadlock
     ∧ (∀ v t, TypeOf v = Some t → DIContainer.Register v s = Deadlock)
     ∧ (∀ v x t, TypeOf x = Some (TPtr t) →
          DIContainer.RegisterAs v x s = Deadlock
          ∧ DIContainer.Resolve x s = Deadlock
          ∧ DIContainer.MustResolve x s = Deadlock
          ∧ DIContainer.Has x s = Deadlock)).
Proof.
  split.
  - intros s Hm.
    assert (∀ n v, SimpleContainer.ProvideWithName n v s = Deadlock) as HP.
    { intros n v. by rewrite ProvideWithName_eq, Hm. }
    assert (∀ n, SimpleContainer.HasBean n s = Deadlock) as HH.
    { intros n. unfold SimpleContainer.HasBean, SimpleContainer.mu_RLock. run. by rewrite Hm. }
    split_and!; try done.
    + intros v vs. simpl. run. by rewrite HP.
    + intros n. by apply Get_Locked.
    + intros order T. unfold SimpleContainer.GetByType, SimpleContainer.mu_RLock. run.
      by rewrite Hm.
    + intros order. apply Populate_blocked. by rewrite Hm.
    + intros order. unfold SimpleContainer.ListBeans, SimpleContainer.mu_RLock. run.
      by rewrite Hm.
    + unfold SimpleContainer.Clear, SimpleContainer.mu_Lock. run. by rewrite Hm.
    + unfold SimpleContainer.Count, SimpleContainer.mu_RLock. run. by rewrite Hm.
    + intros v t Hv. unfold SimpleContainer.Register, TypeOf_String. rewrite Hv. run.
      by rewrite HP.
    + intros v x t Hx.
      unfold SimpleContainer.RegisterAs, SimpleContainer.MustResolve, SimpleContainer.Resolve,
        SimpleContainer.Has.
      run. rewrite (TypeOf_Elem_ptr x t) by done. by rewrite HP, Get_Locked, HH.
  - intros s Hm.
    assert (∀ n v, DIContainer.Provide n v s = Deadlock) as HP.
    { intros n v. by rewrite DI_Provide_eq, Hm. }
    assert (∀ n, DIContainer.HasBean n s = Deadlock) as HH.
    { intros n. unfold DIContainer.HasBean, DIContainer.mutex_RLock. run. by rewrite Hm. }
    assert (DIContainer.Close s = Deadlock) as HC.
    { unfold DIContainer.Close, DIContainer.mutex_Lock. run. by rewrite Hm. }
    split_and!; try done.
    + intros n. by apply DI_Get_Locked.
    + intros order. apply DI_Populate_blocked. by rewrite Hm.
    + intros n v lc. by rewrite DI_RegisterWithLifecycle_eq, Hm.
    + intros n f lc. unfold DIContainer.RegisterFactory, DIContainer.mutex_Lock. run.
      by rewrite Hm.
    + intros order T. unfold DIContainer.GetBeansByType, DIContainer.mutex_RLock. run.
      by rewrite Hm.
    + intros order. unfold DIContainer.GetBeanNames, DIContainer.mutex_RLock. run.
      by rewrite Hm.
    + unfold DIContainer.Clear. run. by rewrite HC.
    + unfold DIContainer.Count, DIContainer.mutex_RLock. run. by rewrite Hm.
    + intros v t Hv. unfold DIContainer.Register, TypeOf_String. rewrite Hv. run.
      by rewrite HP.
    + intros v x t Hx.
      unfold DIContainer.RegisterAs, DIContainer.MustResolve, DIContainer.Resolve,
        DIContainer.Has.
      run. rewrite (TypeOf_Elem_ptr x t) by done. by rewrite HP, DI_Get_Locked, HH.
Qed.

End lock_facts.

(** ** A nil bean *)

Section nil_bean_facts.
Import reflect SimpleFacts DIFacts.

Lemma DI_GetBeansByType_range_nil T bs order : ∀ acc s n b,
  n ∈ order → bs !! n = Some b → DIContainer.Type_ b = None →
  ∃ msg, DIContainer.GetBeansByType_range T bs order acc s = Panic msg.
Proof.
  induction order as [|n0 rest IH]; intros acc s n b Hin Hb Hnil.
  { by apply elem_of_nil in Hin. }
  assert (∀ b0, bs !! n0 = Some b0 → is_Some (DIContainer.Type_ b0) → n ∈ rest) as Hrest.
  { intros b0 Hb0 [t Ht]. apply elem_of_cons in Hin as [->|Hin]; [|done]. congruence. }
  simpl. destruct (bs !! n0) as [b0|] eqn:Hb0.
  - destruct (decide (DIContainer.Type_ b0 = Some T)) as [Heq|Hne].
    + eapply IH; eauto.
    + destruct (DIContainer.Type_ b0) as [t|] eqn:Ht; [|by eexists].
      unfold Implements. destruct (decide (kind T = Interface)); [|by eexists]. run.
      destruct (implements T t); eapply IH; eauto.
  - apply elem_of_cons in Hin as [->|Hin]; [congruence|]. eapply IH; eauto.
Qed.

Lemma GetByType_range_nil I bs order : ∀ s n,
  kind I = Interface → n ∈ order → bs !! n = Some VNil →
  (∀ n' v, bs !! n' = Some v → smatches I v = false) →
  ∃ msg, SimpleContainer.GetByType_range I bs order s = Panic msg.
Proof.
  induction order as [|n0 rest IH]; intros s n HI Hin Hb Hnone.
  { by apply elem_of_nil in Hin. }
  simpl. destruct (bs !! n0) as [b0|] eqn:Hb0.
  - pose proof (Hnone n0 b0 Hb0) as Hm0. unfold smatches in Hm0.
    destruct (TypeOf b0) as [t|] eqn:Ht.
    + apply orb_false_iff in Hm0 as [Hne Himp]. apply bool_decide_eq_false in Hne.
      rewrite decide_False by congruence. rewrite decide_True by done.
      unfold Implements. rewrite decide_True by done. run. rewrite Himp.
      apply elem_of_cons in Hin as [->|Hin]; [|by eapply IH].
      rewrite Hb in Hb0. injection Hb0 as <-. done.
    + rewrite decide_False by done. rewrite decide_True by done. by eexists.
  - apply elem_of_cons in Hin as [->|Hin]; [congruence|]. by eapply IH.
Qed.

(** X18: the nil interface is accepted as a bean, by Provide under any free
    name and by ProvideWithName (under the name "<nil>" when no name is
    given), and then breaks the queries by type: GetBeansByType of
    DIContainer panics for every target type and every order of the
    range, as it does on every registry with a bean that has no type;
    GetByType of SimpleContainer panics for an interface that no
    registered bean matches. *)
Theorem nil_bean_breaks_type_queries :
  (∀ s n,
      DIContainer.mutex s = sync.Unlocked → DIContainer.beans s !! n = None →
      ∃ s1, DIContainer.Provide n VNil s = Ret None s1
            ∧ ∀ order T, range_order (DIContainer.beans s1) order →
                ∃ msg, DIContainer.GetBeansByType order T s1 = Panic msg)
  ∧ (∀ s order T n b,
      DIContainer.mutex s ≠ sync.Locked → range_order (DIContainer.beans s) order →
      DIContainer.beans s !! n = Some b → DIContainer.Type_ b = None →
      ∃ msg, DIContainer.GetBeansByType order T s = Panic msg)
  ∧ (∀ s,
      SimpleContainer.mu s = sync.Unlocked → SimpleContainer.beans s !! "<nil>" = None →
      ∃ s1, SimpleContainer.ProvideWithName "" VNil s = Ret None s1
            ∧ SimpleContainer.Get "<nil>" s1 = Ret (VNil, true) s1)
  ∧ (∀ s order I n,
      SimpleContainer.mu s ≠ sync.Locked → kind I = Interface →
      range_order (SimpleContainer.beans s) order →
      SimpleContainer.beans s !! n = Some VNil →
      (∀ n' v, SimpleContainer.beans s !! n' = Some v → smatches I v = false) →
      ∃ msg, SimpleContainer.GetByType order I s = Panic msg).
Proof.
  assert (∀ s order T n b,
      DIContainer.mutex s ≠ sync.Locked → range_order (DIContainer.beans s) order →
      DIContainer.beans s !! n = Some b → DIContainer.Type_ b = None →
      ∃ msg, DIContainer.GetBeansByType order T s = Panic msg) as Hdi.
  { intros s order T n b Hm Hord Hb Hnil.
    destruct (DI_GetBeansByType_range_nil T (DIContainer.beans s) order [] 
                (DIContainer.set_mutex
                   (default sync.Unlocked (sync.RLock (DIContainer.mutex s))) s) n b)
      as [msg Hp]; [by eapply range_order_elem|done|done|].
    exists msg. unfold DIContainer.GetBeansByType, DIContainer.mutex_RLock. run.
    destruct (DIContainer.mutex s); simpl in *; try done; by rewrite Hp. }
  split_and!.
  - intros s n Hm Hfree. eexists. split.
    { by rewrite DI_Provide_eq, Hm, Hfree. }
    intros order T Hord.
    apply (Hdi _ order T n (DIContainer.mkBean n VNil None DIContainer.Singleton None ∅));
      [done|done|apply lookup_insert_eq|done].
  - done.
  - intros s Hm Hfree. eexists. split.
    { rewrite ProvideWithName_eq, Hm. cbv zeta. rewrite decide_True by done.
      change (Sprintf_T VNil) with "<nil>". by rewrite Hfree. }
    rewrite Get_free by done. unfold lookup_result. simpl. by rewrite lookup_insert_eq.
  - intros s order I n Hm HI Hord Hb Hnone.
    destruct (GetByType_range_nil I (SimpleContainer.beans s) order
                (SimpleContainer.set_mu
                   (default sync.Unlocked (sync.RLock (SimpleContainer.mu s))) s) n)
      as [msg Hp]; [done|by eapply range_order_elem|done|done|].
    exists msg. unfold SimpleContainer.GetByType, SimpleContainer.mu_RLock. run.
    destruct (SimpleContainer.mu s); simpl in *; try done; by rewrite Hp.
Qed.

End nil_bean_facts.

(** ** The [services] map *)

Section services_facts.
Import reflect DIContainer.

Lemma ignores_ret {A} (a : A) : ignores_services (ret a).
Proof. by intros s1 s2 H. Qed.

Lemma ignores_panic {A} msg : ignores_services (@panic State A msg).
Proof. by intros s1 s2 H. Qed.

Lemma ignores_bind {A B} (m : M State A) (k : A → M State B) :
  ignores_services m → (∀ a, ignores_services (k a)) → ignores_services (bind m k).
Proof.
  intros Hm Hk s1 s2 H. unfold bind. specialize (Hm s1 s2 H).
  destruct (m s1) as [a1 s1'| |], (m s2) as [a2 s2'| |]; simpl in Hm; try done.
  destruct Hm as [-> H']. by apply Hk.
Qed.

Lemma ignores_defer {A} (d : M State unit) (body : M State A) :
  ignores_services body → ignores_services d → ignores_services (defer d body).
Proof.
  intros Hb Hd. unfold defer, mbind, M_bind, mret, M_ret.
  apply ignores_bind; [done|]. intros a. apply ignores_bind; [done|].
  intros _. apply ignores_ret.
Qed.

Lemma ignores_gets {A} (f : State → A) :
  (∀ s1 s2, same_but_services s1 s2 → f s1 = f s2) → ignores_services (gets f).
Proof. intros Hf s1 s2 H. simpl. split; [by apply Hf|done]. Qed.

Lemma ignores_modify (f : State → State) :
  (∀ s1 s2, same_but_services s1 s2 → same_but_services (f s1) (f s2)) →
  ignores_services (modify f).
Proof. intros Hf s1 s2 H. simpl. split; [done|by apply Hf]. Qed.

Lemma ignores_acquire op : ignores_services (acquire mutex set_mutex op).
Proof.
  intros s1 s2 (Hh & Hb & Hm). unfold acquire. rewrite Hm.
  destruct (op (mutex s2)); simpl; [|done]. by split.
Qed.

Lemma ignores_release op : ignores_services (release mutex set_mutex op).
Proof.
  intros s1 s2 (Hh & Hb & Hm). unfold release. rewrite Hm.
  destruct (op (mutex s2)); simpl; [|done]. by split.
Qed.

Lemma ignores_call_factory f : ignores_services (call_factory f).
Proof.
  intros s1 s2 (Hh & Hb & Hm). unfold call_factory. rewrite Hh.
  destruct (f (heap s2)). simpl. by split.
Qed.

Lemma ignores_gets_beans : ignores_services (gets beans).
Proof. apply ignores_gets. by intros s1 s2 (_ & ? & _). Qed.

Lemma ignores_gets_heap : ignores_services (gets heap).
Proof. apply ignores_gets. by intros s1 s2 (? & _ & _). Qed.

Lemma ignores_set_beans f : ignores_services (modify (set_beans f)).
Proof. apply ignores_modify. intros s1 s2 (Hh & Hb & Hm). split_and!; simpl; congruence. Qed.

Lemma ignores_set_heap f : ignores_services (modify (set_heap f)).
Proof. apply ignores_modify. intros s1 s2 (Hh & Hb & Hm). split_and!; simpl; congruence. Qed.

Lemma ignores_set_services f : ignores_services (modify (set_services f)).
Proof. apply ignores_modify. by intros s1 s2 (Hh & Hb & Hm). Qed.

Lemma ignores_TypeOf_Elem x : ignores_services (TypeOf_Elem x).
Proof.
  unfold TypeOf_Elem, Type_Elem. destruct (TypeOf x) as [[]|];
    first [apply ignores_ret|apply ignores_panic].
Qed.

Lemma ignores_TypeOf_String x : ignores_services (TypeOf_String x).
Proof.
  unfold TypeOf_String. destruct (TypeOf x); [apply ignores_ret|apply ignores_panic].
Qed.

Ltac ignores_step :=
  first
    [ apply ignores_ret | apply ignores_panic
    | apply ignores_acquire | apply ignores_release
    | apply ignores_gets_beans | apply ignores_gets_heap
    | apply ignores_set_beans | apply ignores_set_heap | apply ignores_set_services
    | apply ignores_call_factory | apply ignores_TypeOf_Elem | apply ignores_TypeOf_String
    | apply ignores_defer
    | apply ignores_bind; [|intros ?] ].

Ltac ignores :=
  unfold mbind, M_bind, mret, M_ret,
    mutex_Lock, mutex_RLock, mutex_Unlock, mutex_RUnlock in *;
  repeat first
    [ ignores_step
    | match goal with
      | |- ignores_services (match ?x with _ => _ end) => destruct x
      | |- ignores_services (let '(_, _) := ?x in _) => destruct x
      | |- ignores_services (if ?x then _ else _) => destruct x
      end ].

Lemma ignores_Provide n v : ignores_services (Provide n v).
Proof. unfold Provide. ignores. Qed.

Lemma ignores_Get n : ignores_services (Get n).
Proof. unfold Get. ignores. Qed.

Lemma ignores_HasBean n : ignores_services (HasBean n).
Proof. unfold HasBean. ignores. Qed.

Lemma ignores_Close : ignores_services Close.
Proof. unfold Close. ignores. Qed.

Lemma ignores_assign_found rv i fd dep : ignores_services (assign_found rv i fd dep).
Proof.
  unfold assign_found, Value_Type, Field_Set. ignores.
Qed.

Lemma ignores_inject_fields rv fs : ∀ i, ignores_services (inject_fields rv i fs).
Proof.
  induction fs as [|[fd v] rest IH]; intros i; simpl; [apply ignores_ret|].
  destruct (decide (Tag_Get fd = "")); [apply IH|].
  destruct (negb (Field_CanSet rv fd)); [apply IH|].
  unfold mbind, M_bind, mret, M_ret.
  apply ignores_bind; [apply ignores_Get|]. intros [dep found].
  apply ignores_bind; [|intros _; apply IH].
  destruct found; [apply ignores_assign_found|apply ignores_ret].
Qed.

Lemma ignores_injectDependencies target : ignores_services (injectDependencies target).
Proof.
  unfold injectDependencies, mbind, M_bind, mret, M_ret.
  apply ignores_bind; [apply ignores_gets_heap|]. intros h.
  case_decide; [apply ignores_ret|apply ignores_inject_fields].
Qed.

Lemma ignores_Populate_range bs todo : ignores_services (Populate_range bs todo).
Proof.
  induction todo as [|n rest IH]; simpl; [apply ignores_ret|].
  destruct (bs !! n) as [bean|]; [|done].
  unfold mbind, M_bind, mret, M_ret.
  apply ignores_bind; [apply ignores_injectDependencies|].
  intros [e|]; [apply ignores_ret|done].
Qed.

Lemma ignores_GetBeansByType_range T bs order :
  ∀ acc, ignores_services (GetBeansByType_range T bs order acc).
Proof.
  induction order as [|n rest IH]; intros acc; simpl; [apply ignores_ret|].
  destruct (bs !! n) as [bean|]; [|done].
  case_decide; [done|]. destruct (Type_ bean) as [t|]; [|apply ignores_panic].
  unfold Implements. case_decide; [|unfold mbind, M_bind; apply ignores_bind;
                                     [apply ignores_panic|by intros []]].
  unfold mbind, M_bind, mret, M_ret. apply ignores_bind; [apply ignores_ret|].
  by intros [].
Qed.

(** X19: no method of DIContainer reads the [services] map that Provide
    fills: called in two states that differ at most in [services], each
    method has the same outcome (the same result, panic or block) and
    leaves states that again differ at most in [services]. *)
Theorem services_map_is_never_read :
  (∀ n v, ignores_services (Provide n v))
  ∧ (∀ n, ignores_services (Get n))
  ∧ (∀ order, ignores_services (Populate order))
  ∧ ignores_services Close
  ∧ (∀ n v lc, ignores_services (RegisterWithLifecycle n v lc))
  ∧ (∀ n f lc, ignores_services (RegisterFactory n f lc))
  ∧ (∀ order T, ignores_services (GetBeansByType order T))
  ∧ (∀ order, ignores_services (GetBeanNames order))
  ∧ (∀ n, ignores_services (HasBean n))
  ∧ (∀ v, ignores_services (Register v))
  ∧ (∀ v x, ignores_services (RegisterAs v x))
  ∧ (∀ x, ignores_services (Resolve x))
  ∧ (∀ x, ignores_services (MustResolve x))
  ∧ (∀ x, ignores_services (Has x))
  ∧ ignores_services Clear
  ∧ ignores_services Count.
Proof.
  assert (∀ x, ignores_services (Resolve x)) as HResolve.
  { intros x. unfold Resolve, mbind, M_bind, mret, M_ret.
    apply ignores_bind; [apply ignores_TypeOf_Elem|]. intros t.
    apply ignores_bind; [apply ignores_Get|]. intros [v []]; apply ignores_ret. }
  split_and!.
  - apply ignores_Provide.
  - apply ignores_Get.
  - intros order. unfold Populate. ignores. apply ignores_Populate_range.
  - apply ignores_Close.
  - intros n v lc. unfold RegisterWithLifecycle. ignores.
  - intros n f lc. unfold RegisterFactory. ignores.
  - intros order T. unfold GetBeansByType. ignores. apply ignores_GetBeansByType_range.
  - intros order. unfold GetBeanNames. ignores.
  - apply ignores_HasBean.
  - intros v. unfold Register, mbind, M_bind, mret, M_ret.
    apply ignores_bind; [apply ignores_TypeOf_String|]. intros n.
    apply ignores_bind; [apply ignores_Provide|]. intros _. apply ignores_ret.
  - intros v x. unfold RegisterAs, mbind, M_bind, mret, M_ret.
    apply ignores_bind; [apply ignores_TypeOf_Elem|]. intros t.
    apply ignores_bind; [apply ignores_Provide|]. intros _. apply ignores_ret.
  - done.
  - intros x. unfold MustResolve, mbind, M_bind, mret, M_ret.
    apply ignores_bind; [done|]. intros [v [e|]]; [apply ignores_panic|apply ignores_ret].
  - intros x. unfold Has, mbind, M_bind, mret, M_ret.
    apply ignores_bind; [apply ignores_TypeOf_Elem|]. intros t. apply ignores_HasBean.
  - unfold Clear, mbind, M_bind, mret, M_ret.
    apply ignores_bind; [apply ignores_Close|]. intros _. apply ignores_ret.
  - unfold Count. ignores.
Qed.

End services_facts.

(** ** The properties on the example registries *)

Section instances.
Import reflect Examples PrototypeExamples TypeExamples WiringExamples LookupExamples.
#[local] Open Scope list_scope.

Lemma Close_and_Clear_empty_the_registry_witness :
  (∃ s', DIContainer.Close di_A = Ret None s' ∧ DIContainer.Count s' = Ret 0 s'
         ∧ DIContainer.Get "A" s' = Ret (VNil, false) s')
  ∧ (∃ s', SimpleContainer.Clear simple_A = Ret tt s' ∧ SimpleContainer.Count s' = Ret 0 s'
           ∧ SimpleContainer.Get "A" s' = Ret (VNil, false) s').
Proof.
  destruct Close_and_Clear_empty_the_registry as [Hdi Hsimple]. split.
  - destruct (Hdi di_A) as (s' & HC & _ & _ & Hcount & _ & Hget & _); [reflexivity|].
    exists s'. split; [exact HC|]. split; [exact Hcount|]. apply Hget.
  - destruct (Hsimple simple_A) as (s' & HC & _ & Hcount & _ & Hget & _); [reflexivity|].
    exists s'. split; [exact HC|]. split; [exact Hcount|]. apply Hget.
Defined.

Lemma range_order_di_A_B : range_order (DIContainer.beans di_A_B) ["B"; "A"].
Proof. split; [compute_done|reflexivity]. Qed.

Lemma range_order_simple_A_B : range_order (SimpleContainer.beans simple_A_B) ["B"; "A"].
Proof. split; [compute_done|reflexivity]. Qed.

Lemma names_Count_HasBean_and_Get_agree_witness :
  (DIContainer.GetBeanNames ["B"; "A"] di_A_B = Ret ["B"; "A"] di_A_B
   ∧ DIContainer.Count di_A_B = Ret 2 di_A_B
   ∧ DIContainer.HasBean "C" di_A_B = Ret false di_A_B)
  ∧ (SimpleContainer.ListBeans ["B"; "A"] simple_A_B = Ret ["B"; "A"] simple_A_B
     ∧ SimpleContainer.Count simple_A_B = Ret 2 simple_A_B
     ∧ SimpleContainer.HasBean "C" simple_A_B = Ret false simple_A_B).
Proof.
  destruct names_Count_HasBean_and_Get_agree as [Hdi Hsimple]. split.
  - destruct (Hdi di_A_B ["B"; "A"]) as (Hnames & Hcount & Hhas & _);
      [discriminate|apply range_order_di_A_B|].
    split; [exact Hnames|]. split; [exact Hcount|]. exact (Hhas "C").
  - destruct (Hsimple simple_A_B ["B"; "A"]) as (Hnames & Hcount & Hhas & _);
      [discriminate|apply range_order_simple_A_B|].
    split; [exact Hnames|]. split; [exact Hcount|]. exact (Hhas "C").
Defined.

Lemma Simple_wiring_pass_closed_form_witness :
  SimpleContainer.injectDependencies [] (VPtr Service (Some 1)) simple_wired
    = Ret None simple_wired_after
  ∧ SimpleContainer.injectDependencies [] (VPtr Service (Some 1)) simple_nil_config
    = Panic "reflect: call of reflect.Value.Type on zero Value".
Proof.
  split.
  - apply (Simple_wiring_pass_closed_form simple_wired [] (VPtr Service (Some 1))).
    discriminate.
  - apply (Simple_wiring_pass_closed_form simple_nil_config [] (VPtr Service (Some 1))).
    discriminate.
Defined.

Lemma di_wired_stored n b :
  DIContainer.beans di_wired !! n = Some b →
  returns_stored b ∧ DIContainer.Value b ≠ VNil.
Proof.
  unfold di_wired. simpl. rewrite lookup_insert. case_decide; [by intros [= <-]|].
  rewrite lookup_singleton. case_decide; [by intros [= <-]|done].
Qed.

Lemma DI_wiring_pass_closed_form_witness :
  DIContainer.injectDependencies (VPtr Service (Some 1)) di_wired = Ret None di_wired_after.
Proof.
  apply (DI_wiring_pass_closed_form di_wired (VPtr Service (Some 1))).
  - discriminate.
  - intros n b Hb. apply (di_wired_stored n b Hb).
Defined.

Lemma DI_taken_name_rejects_every_registration_witness :
  DIContainer.RegisterFactory "A" None DIContainer.Prototype di_A
    = Ret (Some (DIContainer.already_exists "A")) di_A
  ∧ ∃ msg, DIContainer.RegisterFactory "B" None DIContainer.Prototype di_A = Panic msg.
Proof.
  destruct DI_taken_name_rejects_every_registration as [Htaken Hnil]. split.
  - destruct (Htaken di_A "A"
                (DIContainer.mkBean "A" (VInt 1) (Some TInt) DIContainer.Singleton None ∅))
      as (_ & _ & Hfactory); [reflexivity|reflexivity|].
    apply Hfactory.
  - apply (Hnil di_A "B"); reflexivity.
Defined.

Lemma DI_factory_called_once_unless_Prototype_witness :
  times 2 (DIContainer.Get "w")
    (DIContainer.mkState {[0 := VStruct Widget []]}
       {["w" := DIContainer.mkBean "w" (VPtr Widget (Some 0)) (Some (TPtr Widget))
                  DIContainer.Singleton (Some new_Widget) ∅]} ∅ sync.Unlocked)
  = Ret [(VPtr Widget (Some 0), true); (VPtr Widget (Some 0), true)]
      (DIContainer.mkState {[0 := VStruct Widget []]}
         {["w" := DIContainer.mkBean "w" (VPtr Widget (Some 0)) (Some (TPtr Widget))
                    DIContainer.Singleton (Some new_Widget) ∅]} ∅ sync.Unlocked).
Proof.
  destruct (DI_factory_called_once_unless_Prototype (DIContainer.New ∅) "w" new_Widget
              DIContainer.Singleton
              (DIContainer.mkState {[0 := VStruct Widget []]}
                 {["w" := DIContainer.mkBean "w" (VPtr Widget (Some 0)) (Some (TPtr Widget))
                            DIContainer.Singleton (Some new_Widget) ∅]} ∅ sync.Unlocked))
    as (_ & _ & Htimes); [discriminate|reflexivity|].
  apply (Htimes 2).
Defined.

Lemma Provides_registers_until_first_clash_witness :
  (∃ s', SimpleContainer.Provides [VInt 1; VString "x"] (SimpleContainer.NewContainer ∅)
           = Ret None s'
         ∧ SimpleContainer.Get "string" s' = Ret (VString "x", true) s')
  ∧ (∃ s', SimpleContainer.Provides [VInt 1; VInt 2; VString "x"]
             (SimpleContainer.NewContainer ∅)
             = Ret (Some "bean with name 'int' already exists") s'
           ∧ SimpleContainer.Get "int" s' = Ret (VInt 1, true) s').
Proof.
  destruct Provides_registers_until_first_clash as (Hall & Hclash & _). split.
  - destruct (Hall (SimpleContainer.NewContainer ∅) [VInt 1; VString "x"])
      as (s' & HP & _ & _ & _ & Hget & _).
    + reflexivity.
    + compute_done.
    + intros v _. reflexivity.
    + exists s'. split; [exact HP|]. apply (Hget (VString "x")). right. left.
  - destruct (Hclash (SimpleContainer.NewContainer ∅) [VInt 1] (VInt 2) [VString "x"])
      as (s' & HP & _ & Hget).
    + reflexivity.
    + compute_done.
    + intros v _. reflexivity.
    + right. compute_done.
    + exists s'. split; [exact HP|]. apply (Hget (VInt 1)). left.
Defined.

Lemma RegisterAs_then_Resolve_witness :
  (∃ s1, SimpleContainer.RegisterAs (VInt 1) (VPtr ApplicationServiceInterface None)
           (SimpleContainer.NewContainer ∅) = Ret tt s1
         ∧ SimpleContainer.Resolve (VPtr ApplicationServiceInterface None) s1
           = Ret (VInt 1, None) s1)
  ∧ (∃ s1, DIContainer.RegisterAs (VInt 1) (VPtr ApplicationServiceInterface None)
             (DIContainer.New ∅) = Ret tt s1
           ∧ DIContainer.Resolve (VPtr ApplicationServiceInterface None) s1
             = Ret (VInt 1, None) s1).
Proof.
  destruct RegisterAs_then_Resolve as [Hsimple Hdi]. split.
  - destruct (Hsimple (SimpleContainer.NewContainer ∅) (VInt 1)
                (VPtr ApplicationServiceInterface None) ApplicationServiceInterface)
      as (s1 & HR & Hres); [reflexivity|reflexivity|discriminate|reflexivity|].
    exists s1. split; [exact HR|].
    apply (Hres (VPtr ApplicationServiceInterface None)). reflexivity.
  - destruct (Hdi (DIContainer.New ∅) (VInt 1)
                (VPtr ApplicationServiceInterface None) ApplicationServiceInterface)
      as (s1 & HR & Hres); [reflexivity|reflexivity|reflexivity|].
    exists s1. split; [exact HR|].
    apply (Hres (VPtr ApplicationServiceInterface None)). reflexivity.
Defined.


Lemma Has_Resolve_MustResolve_agree_witness :
  (SimpleContainer.Has (VPtr TInt None) simple_A = Ret false simple_A
   ∧ SimpleContainer.MustResolve (VPtr TInt None) simple_A
     = Panic "service of type int not found")
  ∧ (DIContainer.Has (VPtr TInt None) di_A = Ret false di_A
     ∧ DIContainer.MustResolve (VPtr TInt None) di_A
       = Panic "service of type int not found").
Proof.
  destruct Has_Resolve_MustResolve_agree as [Hsimple Hdi]. split.
  - destruct (Hsimple simple_A (VPtr TInt None) TInt) as [_ Hmissing];
      [discriminate|reflexivity|].
    destruct Hmissing as (Hhas & _ & Hmust); [reflexivity|]. split; [exact Hhas|exact Hmust].
  - destruct (Hdi di_A (VPtr TInt None) TInt) as [_ Hmissing];
      [discriminate|reflexivity|].
    destruct Hmissing as (Hhas & _ & Hmust); [reflexivity|]. split; [exact Hhas|exact Hmust].
Defined.


Lemma Simple_methods_keep_lock_and_heap_witness :
  ∃ s, SimpleMethods.invoke_all
         [SimpleMethods.MProvides [VPtr Config (Some 0)];
          SimpleMethods.MProvideWithName "service" (VPtr Service (Some 1));
          SimpleMethods.MGet "service";
          SimpleMethods.MClear;
          SimpleMethods.MPopulate []]
         (SimpleContainer.NewContainer wired_heap) = Some s
       ∧ SimpleContainer.mu s = sync.Unlocked ∧ SimpleContainer.heap s = wired_heap.
Proof.
  destruct Simple_methods_keep_lock_and_heap as [_ Hall].
  eexists. split; [reflexivity|].
  apply (Hall [SimpleMethods.MProvides [VPtr Config (Some 0)];
               SimpleMethods.MProvideWithName "service" (VPtr Service (Some 1));
               SimpleMethods.MGet "service";
               SimpleMethods.MClear;
               SimpleMethods.MPopulate []]).
  reflexivity.
Defined.

Lemma DI_methods_keep_lock_and_registry_witness :
  ∃ s, DIMethods.invoke_all
         [DIMethods.MProvide "config" (VPtr Config (Some 0));
          DIMethods.MRegisterFactory "w" (Some new_Widget) DIContainer.Prototype;
          DIMethods.MGet "w";
          DIMethods.MRegister (VPtr Service (Some 1));
          DIMethods.MCount]
         (DIContainer.New wired_heap) = Some s
       ∧ DIContainer.mutex s = sync.Unlocked ∧ DIMethods.registry_ok s.
Proof.
  destruct DI_methods_keep_lock_and_registry as [_ Hall].
  eexists. split; [reflexivity|].
  apply (Hall [DIMethods.MProvide "config" (VPtr Config (Some 0));
               DIMethods.MRegisterFactory "w" (Some new_Widget) DIContainer.Prototype;
               DIMethods.MGet "w";
               DIMethods.MRegister (VPtr Service (Some 1));
               DIMethods.MCount] wired_heap).
  reflexivity.
Defined.

Lemma simple_by_type_name_no_nil n :
  SimpleContainer.beans simple_by_type_name !! n ≠ Some VNil.
Proof.
  unfold simple_by_type_name. simpl. rewrite lookup_insert. case_decide; [done|].
  rewrite lookup_singleton. by case_decide.
Qed.

Lemma di_by_type_name_stored n b :
  DIContainer.beans di_by_type_name !! n = Some b →
  returns_stored b ∧ DIContainer.Value b ≠ VNil.
Proof.
  unfold di_by_type_name. simpl. rewrite lookup_insert. case_decide; [by intros [= <-]|].
  rewrite lookup_singleton. case_decide; [by intros [= <-]|done].
Qed.

Lemma marked_field_lookup_precedence_witness :
  (∃ s', SimpleContainer.injectDependencies [] (VPtr Service (Some 1)) simple_by_type_name
           = Ret None s'
         ∧ get_field 1 0 (SimpleContainer.heap s') = Some (VPtr Config (Some 0)))
  ∧ (∃ s', DIContainer.injectDependencies (VPtr Service (Some 1)) di_by_type_name
             = Ret None s'
           ∧ get_field 1 0 (DIContainer.heap s') = Some (VPtr Config None)).
Proof.
  destruct marked_field_lookup_precedence as [Hsimple Hdi]. split.
  - destruct (Hsimple simple_by_type_name [] Service 1 Service [(Cfg, VPtr Config None)] 0
                Cfg (VPtr Config None))
      as (s' & Hrun & _ & Hbytype & _);
      [discriminate|apply simple_by_type_name_no_nil|reflexivity|reflexivity|reflexivity
      |discriminate|].
    exists s'. split; [exact Hrun|].
    apply (Hbytype (VPtr Config (Some 0)) (TPtr Config)); reflexivity.
  - destruct (Hdi di_by_type_name Service 1 Service [(Cfg, VPtr Config None)] 0
                Cfg (VPtr Config None))
      as (s' & Hrun & _ & Hmissing);
      [discriminate|apply di_by_type_name_stored|reflexivity|reflexivity|reflexivity
      |discriminate|].
    exists s'. split; [exact Hrun|]. apply Hmissing. reflexivity.
Defined.

Lemma simple_stores_typed n : SimpleContainer.beans simple_stores !! n ≠ Some VNil.
Proof.
  unfold simple_stores. simpl. rewrite lookup_insert. case_decide; [done|].
  rewrite lookup_singleton. by case_decide.
Qed.

Lemma GetByType_result_depends_on_range_order_witness :
  (∃ order, range_order (SimpleContainer.beans simple_stores) order
            ∧ SimpleContainer.GetByType order DatastoreInterface simple_stores
              = Ret (VPtr Memory (Some 0), true) simple_stores)
  ∧ (∃ order, range_order (SimpleContainer.beans simple_stores) order
              ∧ SimpleContainer.GetByType order DatastoreInterface simple_stores
                = Ret (VPtr PostgreSQL (Some 1), true) simple_stores).
Proof.
  destruct GetByType_result_depends_on_range_order as [Hany _]. split.
  - apply (Hany simple_stores DatastoreInterface "memory" (VPtr Memory (Some 0)));
      [discriminate|apply simple_stores_typed|reflexivity|reflexivity].
  - apply (Hany simple_stores DatastoreInterface "postgres" (VPtr PostgreSQL (Some 1)));
      [discriminate|apply simple_stores_typed|reflexivity|reflexivity].
Defined.

Lemma range_order_di_memory : range_order (DIContainer.beans di_memory) ["memory"].
Proof. split; [compute_done|reflexivity]. Qed.

Lemma di_memory_one_type n b :
  DIContainer.beans di_memory !! n = Some b → DIContainer.Type_ b = Some (TPtr Memory).
Proof.
  unfold di_memory. simpl. rewrite lookup_singleton. case_decide; [by intros [= <-]|done].
Qed.

Lemma GetBeansByType_concrete_type_returns_all_or_panics_witness :
  DIContainer.GetBeansByType ["memory"] (TPtr Memory) di_memory
    = Ret [VPtr Memory (Some 0)] di_memory.
Proof.
  destruct (GetBeansByType_concrete_type_returns_all_or_panics di_memory ["memory"]
              (TPtr Memory)) as [Hall _];
    [discriminate|discriminate|apply range_order_di_memory|].
  apply Hall, di_memory_one_type.
Defined.

Lemma held_write_lock_blocks_every_method_witness :
  SimpleContainer.Get "A" (SimpleContainer.set_mu sync.Locked simple_A) = Deadlock
  ∧ DIContainer.Get "A" (DIContainer.set_mutex sync.Locked di_A) = Deadlock.
Proof.
  destruct held_write_lock_blocks_every_method as [Hsimple Hdi]. split.
  - destruct (Hsimple (SimpleContainer.set_mu sync.Locked simple_A)) as (_ & _ & Hget & _);
      [reflexivity|].
    apply Hget.
  - destruct (Hdi (DIContainer.set_mutex sync.Locked di_A)) as (_ & Hget & _);
      [reflexivity|].
    apply Hget.
Defined.

Lemma range_order_di_nil_config :
  range_order (DIContainer.beans di_nil_config) ["service"; "config"].
Proof. split; [compute_done|reflexivity]. Qed.

Lemma range_order_simple_nil_config :
  range_order (SimpleContainer.beans simple_nil_config) ["service"; "config"].
Proof. split; [compute_done|reflexivity]. Qed.

Lemma simple_nil_config_no_match n v :
  SimpleContainer.beans simple_nil_config !! n = Some v →
  smatches ApplicationServiceInterface v = false.
Proof.
  unfold simple_nil_config. simpl. rewrite lookup_insert. case_decide; [by intros [= <-]|].
  rewrite lookup_singleton. case_decide; [by intros [= <-]|done].
Qed.

Lemma nil_bean_breaks_type_queries_witness :
  (∃ msg, DIContainer.GetBeansByType ["service"; "config"] (TPtr Service) di_nil_config
          = Panic msg)
  ∧ (∃ msg, SimpleContainer.GetByType ["service"; "config"] ApplicationServiceInterface
              simple_nil_config = Panic msg).
Proof.
  destruct nil_bean_breaks_type_queries as (_ & Hdi & _ & Hsimple). split.
  - apply (Hdi di_nil_config ["service"; "config"] (TPtr Service) "config"
             (DIContainer.mkBean "config" VNil None DIContainer.Singleton None ∅));
      [discriminate|apply range_order_di_nil_config|reflexivity|reflexivity].
  - apply (Hsimple simple_nil_config ["service"; "config"] ApplicationServiceInterface
             "config");
      [discriminate|reflexivity|apply range_order_simple_nil_config|reflexivity
      |apply simple_nil_config_no_match].
Defined.

Lemma services_map_is_never_read_witness :
  agree (DIContainer.Get "A" di_A)
        (DIContainer.Get "A" (DIContainer.set_services (λ _, ∅) di_A)).
Proof.
  destruct services_map_is_never_read as (_ & HGet & _).
  apply (HGet "A" di_A (DIContainer.set_services (λ _, ∅) di_A)).
  split; [reflexivity|]. split; reflexivity.
Defined.

End instances.
